(** * srt_compositor: the paced encoder loop, the shared frame slot and the
      command line, embedded from [src/compositor/srt_compositor.c].

    Conventions of the embedding.

    - C integers are values of [Z].  Every arithmetic result that the C code
      stores in an [int] or an [int64_t] goes through [int32] or [int64], which
      reduce it to the two's complement range of the type (what the compiled
      program does; the C standard leaves signed overflow undefined).  Theorems
      that depend on a result being the mathematical one carry the range
      hypotheses under which nothing wraps.
    - [/] on C integers truncates toward zero: [Z.quot].
    - The media library (libavutil, libavcodec) is external to the repository.
      Its audio FIFO is modelled by its documented contract on a list of stereo
      samples; a frame handed to an encoder is recorded as an output frame.
    - The inbound reader runs in its own thread.  Each of its critical sections
      on the shared slot is one [ReaderOp]; a tick of the main loop is given,
      for each of its own critical sections, the reader operations that ran
      since the previous one. *)

From Stdlib Require Import String Ascii.
From Stdlib Require Import ZArith List Bool Lia Floats.
From Stdlib Require Import DecimalString DecimalPos.
Import ListNotations.
Local Open Scope Z_scope.

(* ================================================================== *)
(** ** C integers *)
(* ================================================================== *)

Definition wrap_signed (bits z : Z) : Z :=
  (z + 2 ^ (bits - 1)) mod 2 ^ bits - 2 ^ (bits - 1).

(** The value an [int] holds after the mathematical result [z] is stored. *)
Definition int32 (z : Z) : Z := wrap_signed 32 z.

(** The value an [int64_t] holds after the mathematical result [z] is stored. *)
Definition int64 (z : Z) : Z := wrap_signed 64 z.

(** The value of [(unsigned)z]. *)
Definition uint32 (z : Z) : Z := z mod 2 ^ 32.

Definition INT_MIN : Z := - 2 ^ 31.
Definition INT_MAX : Z := 2 ^ 31 - 1.
Definition INT64_MIN : Z := - 2 ^ 63.
Definition INT64_MAX : Z := 2 ^ 63 - 1.

Definition in_int (z : Z) : Prop := INT_MIN <= z <= INT_MAX.
Definition in_int64 (z : Z) : Prop := INT64_MIN <= z <= INT64_MAX.

(** C's integer division, truncating toward zero.  Division by zero stops
    the C program; every statement about a tick assumes [0 < out_fps]. *)
Definition c_div (a b : Z) : Z := Z.quot a b.

(** [(int64_t)d] for a double [d]: the fractional part is discarded.  A NaN, an
    infinity or a value outside the range (undefined in C) gives [INT64_MIN],
    the x86-64 conversion result. *)
Definition double_to_int64 (d : float) : Z :=
  match Prim2SF d with
  | S754_zero _ => 0
  | S754_finite neg m e =>
      let mag := if 0 <=? e then Z.shiftl (Z.pos m) e
                 else Z.shiftr (Z.pos m) (- e) in
      let v := if neg then - mag else mag in
      if (INT64_MIN <=? v) && (v <=? INT64_MAX) then v else INT64_MIN
  | S754_infinity _ | S754_nan => INT64_MIN
  end.

(* ================================================================== *)
(** ** Samples, pictures and the audio FIFO of libavutil *)
(* ================================================================== *)

(** One 32-bit float sample, by its bit pattern; [0] is [+0.0f], what
    [memset(.., 0, ..)] writes. *)
Definition fsample : Type := Z.

(** One sample of planar float stereo: channel 0 and channel 1.  The frames
    are allocated with the stereo layout and [g_cfg.out_channels] is 2 on
    every path through [main], so the planes are two throughout. *)
Definition sample : Type := (fsample * fsample)%type.

(** A picture in planar 4:2:0 at the output resolution, by its bytes. *)
Definition picture : Type := list Z.

(** [AVAudioFifo]: the queued samples, oldest first. *)
Definition AVAudioFifo : Type := list sample.

Definition av_audio_fifo_size (af : AVAudioFifo) : Z := Z.of_nat (length af).

(** [av_audio_fifo_write] appends (libavutil grows the buffer when needed). *)
Definition av_audio_fifo_write (af : AVAudioFifo) (data : list sample)
  : AVAudioFifo := af ++ data.

(** [av_audio_fifo_read(af, data, nb_samples)]: a negative count is refused and
    nothing is read; otherwise the [min nb_samples size] oldest samples are
    returned and removed. *)
Definition av_audio_fifo_read (af : AVAudioFifo) (nb_samples : Z)
  : list sample * AVAudioFifo :=
  if nb_samples <? 0 then ([], af)
  else (firstn (Z.to_nat nb_samples) af, skipn (Z.to_nat nb_samples) af).

Definition av_audio_fifo_reset (af : AVAudioFifo) : AVAudioFifo := [].

(* ================================================================== *)
(** ** Types of [srt_compositor.h] *)
(* ================================================================== *)

Record Config : Type := mkConfig {
  srt_url : string;
  bg_file : string;
  stream_id : string;
  out_width : Z;
  out_height : Z;
  out_fps : Z;
  video_bitrate : Z;
  audio_bitrate : Z;
  sample_rate : Z;
  bg_unmute_delay : float;
  out_channels : Z;
  srt_timeout_us : Z;
  srt_retry_us : Z
}.

Inductive AudioMode : Type := AUDIO_SRT | AUDIO_GRACE | AUDIO_BG.

(** The fields of [OutputCtx] the loop reads and writes; [frame_size] is
    [audio_enc_ctx->frame_size], fixed by the AAC encoder when it is opened. *)
Record OutputCtx : Type := mkOutputCtx {
  frame_size : Z;
  video_pts : Z;
  audio_pts : Z
}.

Record SrtShared : Type := mkSrtShared {
  video_data : picture;
  has_video : bool;
  audio_fifo : AVAudioFifo;
  last_frame_time : Z;
  connected : bool
}.

(** [bg_frame] is [None] while [bg_frame->data[0]] is still NULL. *)
Record AppState : Type := mkAppState {
  out : OutputCtx;
  shared : SrtShared;
  bg_frame : option picture;
  out_frame : picture;
  bg_audio_fifo : AVAudioFifo;
  srt_local_fifo : AVAudioFifo
}.

(** An audio [AVFrame] as the encoder receives it: planar float stereo. *)
Record AudioFrame : Type := mkAudioFrame {
  nb_samples : Z;
  a_pts : Z;
  data0 : list fsample;
  data1 : list fsample
}.

(** What the loop hands to the two encoders, in program order. *)
Inductive OutFrame : Type :=
| Video (pts : Z) (pic : picture)
| Audio (f : AudioFrame).

Definition is_video (x : OutFrame) : bool :=
  match x with Video _ _ => true | Audio _ => false end.

Definition is_audio (x : OutFrame) : bool :=
  match x with Video _ _ => false | Audio _ => true end.

Definition video_count (l : list OutFrame) : Z :=
  Z.of_nat (length (filter is_video l)).

Definition audio_count (l : list OutFrame) : Z :=
  Z.of_nat (length (filter is_audio l)).

(** A plane of silence. *)
Definition silent (p : list fsample) : Prop := Forall (fun x => x = 0) p.

Definition silent_frame (f : AudioFrame) : Prop :=
  silent (data0 f) /\ silent (data1 f).

(* ================================================================== *)
(** ** Encode helpers *)
(* ================================================================== *)

Definition set_video_pts (o : OutputCtx) (v : Z) : OutputCtx :=
  {| frame_size := frame_size o; video_pts := v; audio_pts := audio_pts o |}.

Definition set_audio_pts (o : OutputCtx) (v : Z) : OutputCtx :=
  {| frame_size := frame_size o; video_pts := video_pts o; audio_pts := v |}.

(** [encode_write_video]: [frame->pts = o->video_pts++], then the frame goes to
    the H.264 encoder. *)
Definition encode_write_video (o : OutputCtx) (frame : picture)
  : OutputCtx * OutFrame :=
  (set_video_pts o (int64 (video_pts o + 1)), Video (video_pts o) frame).

Section AudioEncode.

(** The contents of freshly allocated sample memory: [av_frame_get_buffer]
    does not initialise it. *)
Variable uninit : nat -> fsample.

Definition av_frame_get_buffer (n : Z) : list fsample * list fsample :=
  (map uninit (seq 0 (Z.to_nat n)), map uninit (seq 0 (Z.to_nat n))).

(** Writing [src] at the start of the plane [dst], which is long enough. *)
Definition plane_write (dst src : list fsample) : list fsample :=
  src ++ skipn (length src) dst.

(** [memset(plane, 0, bytes)] on a plane of 4-byte floats. *)
Definition memset0 (plane : list fsample) (bytes : Z) : list fsample :=
  plane_write plane (repeat 0 (Z.to_nat (c_div bytes 4))).

(** [av_audio_fifo_read(fifo, (void ** )f->data, n)] into the two planes. *)
Definition read_into_planes (fifo : AVAudioFifo) (planes : list fsample * list fsample)
  (n : Z) : (list fsample * list fsample) * AVAudioFifo :=
  let '(got, fifo') := av_audio_fifo_read fifo n in
  ((plane_write (fst planes) (map fst got),
    plane_write (snd planes) (map snd got)), fifo').

Definition encode_one_audio_frame (o : OutputCtx) (fifo : AVAudioFifo)
  (aframe_sz : Z) : OutputCtx * AVAudioFifo * AudioFrame :=
  let planes := av_frame_get_buffer aframe_sz in
  let avail := av_audio_fifo_size fifo in
  let '(planes, fifo) :=
    if avail >=? aframe_sz then read_into_planes fifo planes aframe_sz
    else
      let plane_size := int32 (aframe_sz * 4) in
      let planes := (memset0 (fst planes) plane_size,
                     memset0 (snd planes) plane_size) in
      if avail >? 0 then read_into_planes fifo planes avail
      else (planes, fifo) in
  let f := {| nb_samples := aframe_sz; a_pts := audio_pts o;
              data0 := fst planes; data1 := snd planes |} in
  (set_audio_pts o (int64 (audio_pts o + aframe_sz)), fifo, f).

End AudioEncode.

(* ================================================================== *)
(** ** Status events ([jlog]) *)
(* ================================================================== *)

Inductive DropReason : Type := read_error | timeout.

Inductive Event : Type :=
| srt_connect_failed
| srt_connected
| srt_dropped (reason : DropReason)
| srt_active
| srt_grace
| bg_audio_on
| video_srt
| video_bg
| stats (fps : Z) (srt_conn : bool) (mode : AudioMode).

(* ================================================================== *)
(** ** The inbound reader thread ([srt_thread_func]) *)
(* ================================================================== *)

(** The critical sections of the reader on the shared slot, each taken under
    [sh->lock]: after a successful open (lines 271-276), after a read error or
    a liveness timeout (lines 283-286 and 339-342), after a scaled video frame
    (lines 298-304) and after resampled audio (lines 321-324). *)
Inductive ReaderOp : Type :=
| RdConnected (now : Z)
| RdDisconnected
| RdVideo (pic : picture) (now : Z)
| RdAudio (converted : list sample) (now : Z).

Definition reader_op (sh : SrtShared) (op : ReaderOp) : SrtShared :=
  match op with
  | RdConnected now =>
      {| video_data := video_data sh; has_video := false;
         audio_fifo := av_audio_fifo_reset (audio_fifo sh);
         last_frame_time := now; connected := true |}
  | RdDisconnected =>
      {| video_data := video_data sh; has_video := false;
         audio_fifo := audio_fifo sh;
         last_frame_time := last_frame_time sh; connected := false |}
  | RdVideo pic now =>
      {| video_data := pic; has_video := true;
         audio_fifo := audio_fifo sh;
         last_frame_time := now; connected := connected sh |}
  | RdAudio converted now =>
      {| video_data := video_data sh; has_video := has_video sh;
         audio_fifo := av_audio_fifo_write (audio_fifo sh) converted;
         last_frame_time := now; connected := connected sh |}
  end.

Definition reader_ops (sh : SrtShared) (ops : list ReaderOp) : SrtShared :=
  fold_left reader_op ops sh.

(** What [open_srt_source] did: it failed (and logged [srt_connect_failed] when
    it was [avformat_open_input] that failed), or it succeeded. *)
Inductive OpenResult : Type :=
| OpenFailed (logged : bool)
| OpenOk (now : Z).

(** What [av_read_frame] and the decoders gave for one packet: a read error; a
    video packet, with the scaled picture when a frame came out; an audio
    packet, with the converted samples when [swr_convert] returned a positive
    count; a packet of another stream. *)
Inductive Packet : Type :=
| PktReadError
| PktVideo (scaled : option picture) (now : Z)
| PktAudio (converted : option (list sample)) (now : Z)
| PktOther.

Record ReaderIn : Type := mkReaderIn {
  ri_open : OpenResult;
  ri_packet : Packet;
  ri_now : Z
}.

Definition packet_ops (p : Packet) : list ReaderOp :=
  match p with
  | PktVideo (Some pic) now => [RdVideo pic now]
  | PktAudio (Some converted) now => [RdAudio converted now]
  | _ => []
  end.

(** One iteration of [while (g_running)] in [srt_thread_func].  [src_open] is
    [src.fmt_ctx != NULL]; [sh] is the shared slot when the iteration starts.
    The result is the new [src_open], the critical sections executed, in order,
    and the events logged.  Only this thread writes [last_frame_time], so the
    liveness test reads the value its own operations left. *)
Definition srt_thread_iter (g_cfg : Config) (src_open : bool) (inp : ReaderIn)
  (sh : SrtShared) : bool * list ReaderOp * list Event :=
  let opened :=
    if src_open then Some ([], [])
    else match ri_open inp with
         | OpenFailed logged =>
             None
         | OpenOk now => Some ([RdConnected now], [srt_connected])
         end in
  match opened with
  | None =>
      (false, [],
       match ri_open inp with
       | OpenFailed true => [srt_connect_failed]
       | _ => []
       end)
  | Some (ops1, ev1) =>
      match ri_packet inp with
      | PktReadError =>
          (false, ops1 ++ [RdDisconnected], ev1 ++ [srt_dropped read_error])
      | pkt =>
          let ops2 := ops1 ++ packet_ops pkt in
          let elapsed :=
            int64 (ri_now inp - last_frame_time (reader_ops sh ops2)) in
          if elapsed >? srt_timeout_us g_cfg
          then (false, ops2 ++ [RdDisconnected], ev1 ++ [srt_dropped timeout])
          else (true, ops2, ev1)
      end
  end.

(* ================================================================== *)
(** ** The background source ([read_bg_frame]) *)
(* ================================================================== *)

(** What one packet of the background file gave: a read error or end of file; a
    decoded and scaled video frame; a decoded audio frame with the samples
    [swr_convert] produced (none when its count was not positive); nothing. *)
Inductive BgRead : Type :=
| BgReadError
| BgVideoFrame (pic : picture)
| BgAudioFrame (converted : list sample)
| BgNothing.

(** The result code, [scaled] and [afifo] after the call; [-1] stands for the
    library's negative error code. *)
Definition read_bg_frame (r : BgRead) (scaled : option picture)
  (afifo : AVAudioFifo) : Z * option picture * AVAudioFifo :=
  match r with
  | BgReadError => (-1, scaled, afifo)
  | BgVideoFrame pic => (1, Some pic, afifo)
  | BgAudioFrame converted => (2, scaled, av_audio_fifo_write afifo converted)
  | BgNothing => (0, scaled, afifo)
  end.

(* ================================================================== *)
(** ** The main encode loop ([main_loop]) *)
(* ================================================================== *)

(** The local variables of [main_loop] that live across ticks, with the
    application state. *)
Record LoopState : Type := mkLoopState {
  app : AppState;
  was_srt_video : bool;
  audio_mode : AudioMode;
  srt_drop_time : Z;
  stats_ticker : Z
}.

(** What one tick receives from outside the main thread: the clock readings
    ([t0], the reading stored in [srt_drop_time], the reading of the grace
    test, the reading before the sleep), the outcome of the [i]-th call of
    [read_bg_frame], and the reader operations that ran before the [k]-th
    critical section of the tick (counted from 0). *)
Record TickEnv : Type := mkTickEnv {
  now_t0 : Z;
  bg_reads : nat -> BgRead;
  reader : nat -> list ReaderOp;
  now_drop : Z;
  now_grace : Z;
  now_end : Z
}.

Record TickResult : Type := mkTickResult {
  next : LoopState;
  frames : list OutFrame;
  events : list Event;
  slept : option Z
}.

Definition set_out (a : AppState) (o : OutputCtx) : AppState :=
  {| out := o; shared := shared a; bg_frame := bg_frame a;
     out_frame := out_frame a; bg_audio_fifo := bg_audio_fifo a;
     srt_local_fifo := srt_local_fifo a |}.

Definition set_shared (a : AppState) (sh : SrtShared) : AppState :=
  {| out := out a; shared := sh; bg_frame := bg_frame a;
     out_frame := out_frame a; bg_audio_fifo := bg_audio_fifo a;
     srt_local_fifo := srt_local_fifo a |}.

Definition set_bg (a : AppState) (f : option picture) (q : AVAudioFifo)
  : AppState :=
  {| out := out a; shared := shared a; bg_frame := f;
     out_frame := out_frame a; bg_audio_fifo := q;
     srt_local_fifo := srt_local_fifo a |}.

Definition set_out_frame (a : AppState) (p : picture) : AppState :=
  {| out := out a; shared := shared a; bg_frame := bg_frame a;
     out_frame := p; bg_audio_fifo := bg_audio_fifo a;
     srt_local_fifo := srt_local_fifo a |}.

Definition set_bg_audio_fifo (a : AppState) (q : AVAudioFifo) : AppState :=
  set_bg a (bg_frame a) q.

Definition set_srt_local_fifo (a : AppState) (q : AVAudioFifo) : AppState :=
  {| out := out a; shared := shared a; bg_frame := bg_frame a;
     out_frame := out_frame a; bg_audio_fifo := bg_audio_fifo a;
     srt_local_fifo := q |}.

Definition set_audio_fifo (sh : SrtShared) (q : AVAudioFifo) : SrtShared :=
  {| video_data := video_data sh; has_video := has_video sh;
     audio_fifo := q; last_frame_time := last_frame_time sh;
     connected := connected sh |}.

(** [aframe_sz]: the encoder's frame size, 1024 when it reports none. *)
Definition aframe_size (o : OutputCtx) : Z :=
  if frame_size o <=? 0 then 1024 else frame_size o.

(** "Always decode background": [for (i = 0; i < 5 && !have_bg; i++)], with
    [n] iterations left.  [loop_bg], called on a read error, rewinds the file
    and changes nothing the loop keeps. *)
Fixpoint decode_background (n i : nat) (reads : nat -> BgRead)
  (have_bg : bool) (a : AppState) : bool * AppState :=
  match n with
  | O => (have_bg, a)
  | S n' =>
      if have_bg then (have_bg, a)
      else
        let '(r, scaled, afifo) :=
          read_bg_frame (reads i) (bg_frame a) (bg_audio_fifo a) in
        decode_background n' (S i) reads (r =? 1) (set_bg a scaled afifo)
  end.

(** "Check SRT shared buffer": under the lock, copy the slot's picture into
    [out_frame] when the reader is connected and has stored a frame. *)
Definition check_srt_shared (a : AppState) : bool * AppState :=
  if connected (shared a) && has_video (shared a)
  then (true, set_out_frame a (video_data (shared a)))
  else (false, a).

Section MainLoop.

Variable g_cfg : Config.
Variable uninit : nat -> fsample.

Definition bg_unmute_us : Z :=
  double_to_int64 (PrimFloat.mul (bg_unmute_delay g_cfg) 1e6%float).

(** "Audio mode state machine".  The result is the mode, [srt_drop_time], the
    background audio FIFO and the events logged, one per assignment to
    [audio_mode]. *)
Definition audio_mode_machine (use_srt_video : bool) (env : TickEnv)
  (mode : AudioMode) (drop_time : Z) (bgq : AVAudioFifo)
  : AudioMode * Z * AVAudioFifo * list Event :=
  if use_srt_video then
    match mode with
    | AUDIO_SRT => (mode, drop_time, bgq, [])
    | _ => (AUDIO_SRT, drop_time, av_audio_fifo_reset bgq, [srt_active])
    end
  else
    let '(mode1, drop1, ev1) :=
      match mode with
      | AUDIO_SRT => (AUDIO_GRACE, now_drop env, [srt_grace])
      | _ => (mode, drop_time, [])
      end in
    match mode1 with
    | AUDIO_GRACE =>
        let since_drop := int64 (now_grace env - drop1) in
        if since_drop >? bg_unmute_us
        then (AUDIO_BG, drop1, bgq, ev1 ++ [bg_audio_on])
        else (AUDIO_GRACE, drop1, bgq, ev1)
    | _ => (mode1, drop1, bgq, ev1)
    end.

Definition video_change_log (use_srt_video was : bool) : list Event :=
  if use_srt_video && negb was then [video_srt]
  else if negb use_srt_video && was then [video_bg]
  else [].

(** "Video output". *)
Definition video_output (use_srt_video have_bg : bool) (a : AppState)
  : AppState * list OutFrame :=
  if use_srt_video then
    let '(o, f) := encode_write_video (out a) (out_frame a) in
    (set_out a o, [f])
  else
    match have_bg, bg_frame a with
    | true, Some pic =>
        let a1 := set_out_frame a pic in
        let '(o, f) := encode_write_video (out a1) (out_frame a1) in
        (set_out a1 o, [f])
    | _, _ => (a, [])
    end.

Definition srt_max_buf : Z := c_div (int32 (sample_rate g_cfg * 300)) 1000.

(** The first block of "Audio" in SRT mode: move everything from the shared
    FIFO to the local one (under the lock, after the reader operations [ops]
    that ran before it), then discard the oldest samples over [srt_max_buf]. *)
Definition drain_and_trim (ops : list ReaderOp) (a : AppState) : AppState :=
  let sh := reader_ops (shared a) ops in
  let avail := av_audio_fifo_size (audio_fifo sh) in
  let '(shq, local) :=
    if avail >? 0 then
      let '(tbuf, shq) := av_audio_fifo_read (audio_fifo sh) avail in
      (shq, av_audio_fifo_write (srt_local_fifo a) tbuf)
    else (audio_fifo sh, srt_local_fifo a) in
  let local_sz := av_audio_fifo_size local in
  let local :=
    if local_sz >? srt_max_buf then
      let discard := int32 (local_sz - srt_max_buf) in
      snd (av_audio_fifo_read local discard)
    else local in
  set_srt_local_fifo (set_shared a (set_audio_fifo sh shq)) local.

Definition target_audio (o : OutputCtx) : Z :=
  c_div (int64 (video_pts o * sample_rate g_cfg)) (out_fps g_cfg).

(** One pass through the body of [while (audio_pts < target_audio)]: [None]
    for [goto audio_done], otherwise the state, the number of critical
    sections taken so far, and the frame encoded. *)
Definition audio_body (mode : AudioMode) (aframe_sz : Z) (env : TickEnv)
  (k : nat) (a : AppState) : option (AppState * nat * AudioFrame) :=
  match mode with
  | AUDIO_SRT =>
      if av_audio_fifo_size (srt_local_fifo a) >=? aframe_sz then
        let '(o, q, f) :=
          encode_one_audio_frame uninit (out a) (srt_local_fifo a) aframe_sz in
        Some (set_srt_local_fifo (set_out a o) q, k, f)
      else None
  | AUDIO_GRACE =>
      let '(o, q, f) :=
        encode_one_audio_frame uninit (out a) (srt_local_fifo a) aframe_sz in
      let a1 := set_srt_local_fifo (set_out a o) (av_audio_fifo_reset q) in
      let sh := reader_ops (shared a1) (reader env k) in
      let sh := set_audio_fifo sh (av_audio_fifo_reset (audio_fifo sh)) in
      Some (set_shared a1 sh, S k, f)
  | AUDIO_BG =>
      let '(o, q, f) :=
        encode_one_audio_frame uninit (out a) (bg_audio_fifo a) aframe_sz in
      Some (set_bg_audio_fifo (set_out a o) q, k, f)
  end.

(** [while (app->out.audio_pts < target_audio) { switch ... }] with at most
    [fuel] passes; [None] when the loop has not ended by then. *)
Fixpoint audio_loop (fuel : nat) (mode : AudioMode) (aframe_sz target : Z)
  (env : TickEnv) (k : nat) (a : AppState)
  : option (AppState * nat * list OutFrame) :=
  if audio_pts (out a) <? target then
    match fuel with
    | O => None
    | S fuel' =>
        match audio_body mode aframe_sz env k a with
        | None => Some (a, k, [])
        | Some (a1, k1, f) =>
            match audio_loop fuel' mode aframe_sz target env k1 a1 with
            | None => None
            | Some (a2, k2, fs) => Some (a2, k2, Audio f :: fs)
            end
        end
    end
  else Some (a, k, []).

(** "Stats every ~30 frames". *)
Definition stats_block (env : TickEnv) (k : nat) (mode : AudioMode)
  (ticker : Z) (a : AppState) : Z * AppState * list Event :=
  let ticker := int64 (ticker + 1) in
  if ticker >=? out_fps g_cfg then
    let sh := reader_ops (shared a) (reader env k) in
    (0, set_shared a sh, [stats (out_fps g_cfg) (connected sh) mode])
  else (ticker, a, []).

(** "Pace to target fps": the argument of [usleep], when it is called. *)
Definition pace (env : TickEnv) : option Z :=
  let frame_dur := c_div 1000000 (out_fps g_cfg) in
  let dt := int64 (now_end env - now_t0 env) in
  let sl := int64 (frame_dur - dt) in
  if sl >? 1000 then Some (uint32 sl) else None.

(** The tick up to the point where [target_audio] is computed: the flags
    [have_bg] and [use_srt_video], the audio mode and [srt_drop_time] after the
    state machine, the events logged, the video frame encoded, the application
    state, and the number of critical sections taken. *)
Record BeforeAudio : Type := mkBeforeAudio {
  have_bg : bool;
  use_srt_video : bool;
  mode_now : AudioMode;
  drop_time_now : Z;
  events_now : list Event;
  vframes : list OutFrame;
  app_now : AppState;
  sections : nat
}.

Definition before_audio (env : TickEnv) (s : LoopState) : BeforeAudio :=
  let '(have_bg, a) := decode_background 5 0 (bg_reads env) false (app s) in
  let '(use_srt_video, a) :=
    check_srt_shared (set_shared a (reader_ops (shared a) (reader env 0))) in
  let '(mode, drop_time, bgq, ev_audio) :=
    audio_mode_machine use_srt_video env (audio_mode s) (srt_drop_time s)
      (bg_audio_fifo a) in
  let a := set_bg_audio_fifo a bgq in
  let ev_video := video_change_log use_srt_video (was_srt_video s) in
  let '(a, vframes) := video_output use_srt_video have_bg a in
  let '(a, k) :=
    match mode with
    | AUDIO_SRT => (drain_and_trim (reader env 1) a, 2%nat)
    | _ => (a, 1%nat)
    end in
  {| have_bg := have_bg; use_srt_video := use_srt_video; mode_now := mode;
     drop_time_now := drop_time; events_now := ev_audio ++ ev_video;
     vframes := vframes; app_now := a; sections := k |}.

(** One iteration of [while (g_running)] in [main_loop].  The audio loop is
    given [target_audio - audio_pts] passes, enough while [audio_pts] does not
    wrap; the result is [None] when it needs more. *)
Definition tick (env : TickEnv) (s : LoopState) : option TickResult :=
  let aframe_sz := aframe_size (out (app s)) in
  let b := before_audio env s in
  let target := target_audio (out (app_now b)) in
  let fuel := Z.to_nat (target - audio_pts (out (app_now b))) in
  match audio_loop fuel (mode_now b) aframe_sz target env (sections b)
          (app_now b) with
  | None => None
  | Some (a, k, aframes) =>
      let '(ticker, a, ev_stats) :=
        stats_block env k (mode_now b) (stats_ticker s) a in
      Some {| next := {| app := a; was_srt_video := use_srt_video b;
                         audio_mode := mode_now b;
                         srt_drop_time := drop_time_now b;
                         stats_ticker := ticker |};
              frames := vframes b ++ aframes;
              events := events_now b ++ ev_stats;
              slept := pace env |}
  end.

(** The loop over the ticks that run before [g_running] is cleared, with the
    frames and the events of all of them ([running] and [stopped], logged
    around the loop, are left out). *)
Fixpoint main_loop (envs : list TickEnv) (s : LoopState)
  : option (LoopState * list OutFrame * list Event) :=
  match envs with
  | [] => Some (s, [], [])
  | env :: envs' =>
      match tick env s with
      | None => None
      | Some r =>
          match main_loop envs' (next r) with
          | None => None
          | Some (s', fs, evs) => Some (s', frames r ++ fs, events r ++ evs)
          end
      end
  end.

End MainLoop.

(** The state in which [main] enters [main_loop]: [open_output] has set both
    clocks to 0, the slot is disconnected and without a frame, the three FIFOs
    are empty, and the picture buffers hold what the allocator left there. *)
Definition initial_state (enc_frame_size : Z) (slot_pic out_pic : picture)
  : LoopState :=
  {| app := {| out := {| frame_size := enc_frame_size;
                         video_pts := 0; audio_pts := 0 |};
               shared := {| video_data := slot_pic; has_video := false;
                            audio_fifo := []; last_frame_time := 0;
                            connected := false |};
               bg_frame := None;
               out_frame := out_pic;
               bg_audio_fifo := [];
               srt_local_fifo := [] |};
     was_srt_video := false;
     audio_mode := AUDIO_BG;
     srt_drop_time := 0;
     stats_ticker := 0 |}.

(* ================================================================== *)
(** ** The configuration reader and the command line ([main]) *)
(* ================================================================== *)

(** C strings are values of [string]; a character is a byte. *)

Definition dquote : ascii := ascii_of_nat 34.
Definition tab : ascii := ascii_of_nat 9.
Definition nul : ascii := ascii_of_nat 0.

(** The C string that starts a buffer: the bytes before the first NUL. *)
Fixpoint c_str (bytes : string) : string :=
  match bytes with
  | EmptyString => EmptyString
  | String c rest => if Ascii.eqb c nul then EmptyString else String c (c_str rest)
  end.

(** [s + n]. *)
Fixpoint advance (n : nat) (s : string) : string :=
  match n, s with
  | O, _ => s
  | S n', String _ rest => advance n' rest
  | S _, EmptyString => EmptyString
  end.

(** The first [n] characters of [s]: what [strncpy(dst, s, n)] leaves as the
    string in a buffer whose byte [n] is NUL. *)
Fixpoint truncate (n : nat) (s : string) : string :=
  match n, s with
  | S n', String c rest => String c (truncate n' rest)
  | _, _ => EmptyString
  end.

(** [strstr(s, pat)]: the suffix of [s] at the first occurrence of [pat]. *)
Fixpoint strstr (s pat : string) : option string :=
  if String.prefix pat s then Some s
  else match s with
       | EmptyString => None
       | String _ rest => strstr rest pat
       end.

(** [strchr(s, c)] for a character [c] other than NUL. *)
Fixpoint strchr (s : string) (c : ascii) : option string :=
  match s with
  | EmptyString => None
  | String d rest => if Ascii.eqb d c then Some s else strchr rest c
  end.

(** [while ( *p == ':' || *p == ' ' || *p == '\t') p++;] *)
Fixpoint skip_separators (s : string) : string :=
  match s with
  | String c rest =>
      if Ascii.eqb c ":" || Ascii.eqb c " " || Ascii.eqb c tab
      then skip_separators rest else s
  | EmptyString => s
  end.

(** [snprintf(pattern, sizeof(pattern), "\"%s\"", key)] with [pattern[256]]. *)
Definition key_pattern (key : string) : string :=
  truncate 255 (String dquote (key ++ String dquote EmptyString)).

(** The number of characters of [s] before the suffix [e] of [s]: [e - s]. *)
Definition distance (s e : string) : nat := String.length s - String.length e.

(** [json_get_str]: the string left in [buf], a buffer of [size] bytes. *)
Definition json_get_str (json key : string) (size : nat) (def : string)
  : string :=
  let fallback := truncate (size - 1) def in
  match strstr json (key_pattern key) with
  | None => fallback
  | Some p =>
      match strchr (advance (String.length (key_pattern key)) p) ":" with
      | None => fallback
      | Some p =>
          match skip_separators p with
          | String c p =>
              if Ascii.eqb c dquote then
                match strchr p dquote with
                | None => fallback
                | Some e =>
                    let len := distance p e in
                    let len := if Nat.leb size len then (size - 1)%nat else len in
                    truncate len p
                end
              else fallback
          | EmptyString => fallback
          end
      end
  end.

(** The start of a number, for [json_get_int] and [json_get_double]: [None]
    when the default is returned. *)
Definition json_number_start (json key : string) : option string :=
  match strstr json (key_pattern key) with
  | None => None
  | Some p =>
      match strchr (advance (String.length (key_pattern key)) p) ":" with
      | None => None
      | Some p =>
          match skip_separators p with
          | String c rest =>
              if Ascii.eqb c dquote then None else Some (String c rest)
          | EmptyString => Some EmptyString
          end
      end
  end.

Definition isspace (c : ascii) : bool :=
  let n := nat_of_ascii c in
  Nat.eqb n 32 || (Nat.leb 9 n && Nat.leb n 13).

Fixpoint skip_space (s : string) : string :=
  match s with
  | String c rest => if isspace c then skip_space rest else s
  | EmptyString => s
  end.

Fixpoint decimal_digits (acc : Z) (s : string) : Z :=
  match s with
  | String c rest =>
      let n := nat_of_ascii c in
      if Nat.leb 48 n && Nat.leb n 57
      then decimal_digits (acc * 10 + Z.of_nat (n - 48)) rest
      else acc
  | EmptyString => acc
  end.

(** [strtol(s, NULL, 10)] with a 64-bit [long]: the value is clamped to the
    range of [long]. *)
Definition strtol (s : string) : Z :=
  let s := skip_space s in
  let '(neg, s) :=
    match s with
    | String c rest =>
        if Ascii.eqb c "-" then (true, rest)
        else if Ascii.eqb c "+" then (false, rest)
        else (false, s)
    | EmptyString => (false, s)
    end in
  let v := decimal_digits 0 s in
  let v := if neg then - v else v in
  Z.max INT64_MIN (Z.min INT64_MAX v).

Definition json_get_int (json key : string) (def : Z) : Z :=
  match json_number_start json key with
  | None => def
  | Some p => int32 (strtol p)
  end.

(** A line [main] or [load_config] writes to stderr before it returns. *)
Inductive Stderr : Type :=
| CannotOpenConfig (path : string)
| Usage (prog : string).

(** How [main] leaves its start-up code: it returns [code], or it goes on to
    open the background, the output and the reader thread with [cfg]. *)
Inductive Startup : Type :=
| Exit (code : Z) (err : list Stderr)
| Run (cfg : Config).

Section CommandLine.

(** [strtod] of the C library. *)
Variable strtod : string -> float.

(** The files that exist, by path, with their bytes. *)
Variable files : string -> option string.

Definition json_get_double (json key : string) (def : float) : float :=
  match json_number_start json key with
  | None => def
  | Some p => strtod p
  end.

(** [load_config]: the return value, [g_cfg] afterwards, and what was
    written to stderr. *)
Definition load_config (path : string) (cfg : Config)
  : Z * Config * list Stderr :=
  match files path with
  | None => (-1, cfg, [CannotOpenConfig path])
  | Some bytes =>
      let sz := Z.of_nat (String.length bytes) in
      if (sz <=? 0) || (sz >? 65536) then (-1, cfg, [])
      else
        let buf := c_str bytes in
        (0,
         {| srt_url := json_get_str buf "srt_url" 2048 "";
            bg_file := json_get_str buf "bg_file" 2048 "background.mp4";
            stream_id := json_get_str buf "stream_id" 256 "";
            out_width := json_get_int buf "out_width" 1280;
            out_height := json_get_int buf "out_height" 720;
            out_fps := json_get_int buf "out_fps" 30;
            video_bitrate := json_get_int buf "video_bitrate" 4000000;
            audio_bitrate := json_get_int buf "audio_bitrate" 128000;
            sample_rate := json_get_int buf "sample_rate" 48000;
            bg_unmute_delay := json_get_double buf "bg_unmute_delay" 5.0%float;
            out_channels := 2;
            srt_timeout_us := 2000000;
            srt_retry_us := 500000 |},
         [])
  end.

Definition set_srt_url (cfg : Config) (s : string) : Config :=
  {| srt_url := s; bg_file := bg_file cfg; stream_id := stream_id cfg;
     out_width := out_width cfg; out_height := out_height cfg;
     out_fps := out_fps cfg; video_bitrate := video_bitrate cfg;
     audio_bitrate := audio_bitrate cfg; sample_rate := sample_rate cfg;
     bg_unmute_delay := bg_unmute_delay cfg; out_channels := out_channels cfg;
     srt_timeout_us := srt_timeout_us cfg; srt_retry_us := srt_retry_us cfg |}.

Definition set_bg_file (cfg : Config) (s : string) : Config :=
  {| srt_url := srt_url cfg; bg_file := s; stream_id := stream_id cfg;
     out_width := out_width cfg; out_height := out_height cfg;
     out_fps := out_fps cfg; video_bitrate := video_bitrate cfg;
     audio_bitrate := audio_bitrate cfg; sample_rate := sample_rate cfg;
     bg_unmute_delay := bg_unmute_delay cfg; out_channels := out_channels cfg;
     srt_timeout_us := srt_timeout_us cfg; srt_retry_us := srt_retry_us cfg |}.

(** [s[0] != '-'] *)
Definition not_dash (s : string) : bool :=
  match s with
  | String c _ => negb (Ascii.eqb c "-")
  | EmptyString => true
  end.

(** [s[0]] is not NUL. *)
Definition nonempty (s : string) : bool :=
  match s with
  | String _ _ => true
  | EmptyString => false
  end.

(** "Parse arguments": the loop over [argv[i]], [i >= 1], on the arguments
    still to read. *)
Fixpoint parse_args (args : list string) (config_path : option string)
  (cfg : Config) : option string * Config :=
  match args with
  | [] => (config_path, cfg)
  | a :: rest =>
      match String.eqb a "--config", rest with
      | true, path :: rest' => parse_args rest' (Some path) cfg
      | _, _ =>
          if not_dash a && negb (nonempty (srt_url cfg))
          then parse_args rest config_path (set_srt_url cfg (truncate 2047 a))
          else if not_dash a && nonempty (srt_url cfg)
          then parse_args rest config_path (set_bg_file cfg (truncate 2047 a))
          else parse_args rest config_path cfg
      end
  end.

(** [g_cfg] after "Set defaults": the global starts zeroed. *)
Definition default_config : Config :=
  {| srt_url := ""; bg_file := "background.mp4"; stream_id := "";
     out_width := 1280; out_height := 720; out_fps := 30;
     video_bitrate := 4000000; audio_bitrate := 128000;
     sample_rate := 48000; bg_unmute_delay := 5.0%float;
     out_channels := 2; srt_timeout_us := 2000000;
     srt_retry_us := 500000 |}.

(** [main] up to the point where the signal handlers are installed. *)
Definition main (argv : list string) : Startup :=
  let prog := hd EmptyString argv in
  let '(config_path, cfg) := parse_args (tl argv) None default_config in
  let loaded :=
    match config_path with
    | Some path => load_config path cfg
    | None => (0, cfg, [])
    end in
  let '(ret, cfg, err) := loaded in
  if ret <? 0 then Exit 1 err
  else if negb (nonempty (srt_url cfg)) then Exit 1 [Usage prog]
  else Run cfg.

End CommandLine.

(* ================================================================== *)
(** ** The reader thread over its iterations *)
(* ================================================================== *)

(** The iterations of [while (g_running)] in [srt_thread_func] on the inputs
    [inps], from a source that is open or not and the slot [sh]: whether the
    source is open at the end, the slot, and the events logged.  The slot is
    followed through the reader's own operations: the main loop writes the
    slot's audio queue only, and no decision of the reader reads that
    queue. *)
Fixpoint srt_thread_func (g_cfg : Config) (inps : list ReaderIn)
  (src_open : bool) (sh : SrtShared) : bool * SrtShared * list Event :=
  match inps with
  | [] => (src_open, sh, [])
  | inp :: rest =>
      let '(o, ops, ev) := srt_thread_iter g_cfg src_open inp sh in
      let '(o', sh', ev') := srt_thread_func g_cfg rest o (reader_ops sh ops) in
      (o', sh', ev ++ ev')
  end.

(* ================================================================== *)
(** ** Opening and closing a source ([find_stream], [open_decoder],
       [make_resampler], [open_srt_source], [close_source]) *)
(* ================================================================== *)

Inductive AVMediaType : Type :=
| AVMEDIA_TYPE_UNKNOWN
| AVMEDIA_TYPE_VIDEO
| AVMEDIA_TYPE_AUDIO
| AVMEDIA_TYPE_DATA
| AVMEDIA_TYPE_SUBTITLE
| AVMEDIA_TYPE_ATTACHMENT.

Definition media_type_eqb (a b : AVMediaType) : bool :=
  match a, b with
  | AVMEDIA_TYPE_UNKNOWN, AVMEDIA_TYPE_UNKNOWN
  | AVMEDIA_TYPE_VIDEO, AVMEDIA_TYPE_VIDEO
  | AVMEDIA_TYPE_AUDIO, AVMEDIA_TYPE_AUDIO
  | AVMEDIA_TYPE_DATA, AVMEDIA_TYPE_DATA
  | AVMEDIA_TYPE_SUBTITLE, AVMEDIA_TYPE_SUBTITLE
  | AVMEDIA_TYPE_ATTACHMENT, AVMEDIA_TYPE_ATTACHMENT => true
  | _, _ => false
  end.

(** [for (unsigned i = ...; i < fmt->nb_streams; i++)] of [find_stream], on
    the [codec_type] of the streams from index [i] on; the index found is
    returned as [(int)i]. *)
Fixpoint find_stream_from (i : Z) (streams : list AVMediaType)
  (type : AVMediaType) : Z :=
  match streams with
  | [] => -1
  | t :: rest =>
      if media_type_eqb t type then int32 i
      else find_stream_from (i + 1) rest type
  end.

Definition find_stream (streams : list AVMediaType) (type : AVMediaType) : Z :=
  find_stream_from 0 streams type.

(** The pointers of a [SourceCtx], [true] for one that is not NULL, and its
    two stream indexes. *)
Record SourceCtx : Type := mkSourceCtx {
  fmt_ctx : bool;
  video_stream_idx : Z;
  audio_stream_idx : Z;
  video_dec_ctx : bool;
  audio_dec_ctx : bool;
  sws_ctx : bool;
  swr_ctx : bool
}.

(** The objects the media library allocates for a source, and the calls that
    allocate and free them. *)
Inductive LibObject : Type :=
| FormatContext
| CodecContext
| ScalerContext
| ResamplerContext
| Dictionary.

Inductive LibCall : Type :=
| Alloc (o : LibObject)
| Free (o : LibObject).

(** [if (p) { free(p); }] *)
Definition free_if (p : bool) (o : LibObject) : list LibCall :=
  if p then [Free o] else [].

(** [close_source]: the source afterwards and the calls made. *)
Definition close_source (src : SourceCtx) : SourceCtx * list LibCall :=
  ({| fmt_ctx := false; video_stream_idx := -1; audio_stream_idx := -1;
      video_dec_ctx := false; audio_dec_ctx := false;
      sws_ctx := false; swr_ctx := false |},
   free_if (sws_ctx src) ScalerContext
   ++ free_if (swr_ctx src) ResamplerContext
   ++ free_if (video_dec_ctx src) CodecContext
   ++ free_if (audio_dec_ctx src) CodecContext
   ++ free_if (fmt_ctx src) FormatContext).

(** What the library answers inside [open_decoder]: whether
    [avcodec_find_decoder] and [avcodec_alloc_context3] give an object, and
    the results of [avcodec_parameters_to_context] and [avcodec_open2]. *)
Record DecoderEnv : Type := mkDecoderEnv {
  find_decoder : bool;
  alloc_context3 : bool;
  parameters_to_context : Z;
  open2 : Z
}.

Definition ENOMEM : Z := 12.
Definition AVERROR (e : Z) : Z := - e.

(** [open_decoder(fmt, idx, ctx)]: the result, [*ctx] afterwards and the
    calls made. *)
Definition open_decoder (env : DecoderEnv) (ctx : bool)
  : Z * bool * list LibCall :=
  if negb (find_decoder env) then (-1, ctx, [])
  else if negb (alloc_context3 env) then (AVERROR ENOMEM, false, [])
  else if parameters_to_context env <? 0
       then (parameters_to_context env, true, [Alloc CodecContext])
  else (open2 env, true, [Alloc CodecContext]).

(** [make_resampler]: whether the result is not NULL, and the calls made;
    [swr_alloc] says whether [swr_alloc_set_opts] gave an object, [swr_init]
    is the result of the call of that name. *)
Definition make_resampler (swr_alloc : bool) (swr_init : Z)
  : bool * list LibCall :=
  if negb swr_alloc then (false, [])
  else if swr_init <? 0
       then (false, [Alloc ResamplerContext; Free ResamplerContext])
  else (true, [Alloc ResamplerContext]).

(** What the library answers inside [open_srt_source]: whether
    [avformat_alloc_context] gives an object, the results of
    [avformat_open_input] and [avformat_find_stream_info], the [codec_type]
    of the streams found, the answers for the two decoders, whether
    [sws_getContext] gives an object, and the answers for the resampler. *)
Record OpenEnv : Type := mkOpenEnv {
  alloc_context : bool;
  open_input : Z;
  find_stream_info : Z;
  streams : list AVMediaType;
  video_decoder : DecoderEnv;
  get_context : bool;
  audio_decoder : DecoderEnv;
  swr_alloc_set_opts : bool;
  swr_init : Z
}.

Definition set_stream_idx (s : SourceCtx) (v a : Z) : SourceCtx :=
  {| fmt_ctx := fmt_ctx s; video_stream_idx := v; audio_stream_idx := a;
     video_dec_ctx := video_dec_ctx s; audio_dec_ctx := audio_dec_ctx s;
     sws_ctx := sws_ctx s; swr_ctx := swr_ctx s |}.

Definition set_fmt_ctx (s : SourceCtx) (p : bool) : SourceCtx :=
  {| fmt_ctx := p; video_stream_idx := video_stream_idx s;
     audio_stream_idx := audio_stream_idx s;
     video_dec_ctx := video_dec_ctx s; audio_dec_ctx := audio_dec_ctx s;
     sws_ctx := sws_ctx s; swr_ctx := swr_ctx s |}.

Definition set_video_dec_ctx (s : SourceCtx) (p : bool) : SourceCtx :=
  {| fmt_ctx := fmt_ctx s; video_stream_idx := video_stream_idx s;
     audio_stream_idx := audio_stream_idx s;
     video_dec_ctx := p; audio_dec_ctx := audio_dec_ctx s;
     sws_ctx := sws_ctx s; swr_ctx := swr_ctx s |}.

Definition set_audio_dec_ctx (s : SourceCtx) (p : bool) : SourceCtx :=
  {| fmt_ctx := fmt_ctx s; video_stream_idx := video_stream_idx s;
     audio_stream_idx := audio_stream_idx s;
     video_dec_ctx := video_dec_ctx s; audio_dec_ctx := p;
     sws_ctx := sws_ctx s; swr_ctx := swr_ctx s |}.

Definition set_sws_ctx (s : SourceCtx) (p : bool) : SourceCtx :=
  {| fmt_ctx := fmt_ctx s; video_stream_idx := video_stream_idx s;
     audio_stream_idx := audio_stream_idx s;
     video_dec_ctx := video_dec_ctx s; audio_dec_ctx := audio_dec_ctx s;
     sws_ctx := p; swr_ctx := swr_ctx s |}.

Definition set_swr_ctx (s : SourceCtx) (p : bool) : SourceCtx :=
  {| fmt_ctx := fmt_ctx s; video_stream_idx := video_stream_idx s;
     audio_stream_idx := audio_stream_idx s;
     video_dec_ctx := video_dec_ctx s; audio_dec_ctx := audio_dec_ctx s;
     sws_ctx := sws_ctx s; swr_ctx := p |}.

(** [open_srt_source]: the result, the source afterwards, the events logged
    and the calls made.  The options are allocated by the first
    [av_dict_set] and freed by [av_dict_free]; [avformat_open_input] frees
    the context it was given when it fails. *)
Definition open_srt_source (env : OpenEnv) (s : SourceCtx)
  : Z * SourceCtx * list Event * list LibCall :=
  let s := set_stream_idx s (-1) (-1) in
  if negb (alloc_context env) then (AVERROR ENOMEM, set_fmt_ctx s false, [], [])
  else
    let s := set_fmt_ctx s true in
    let calls := [Alloc FormatContext; Alloc Dictionary] in
    let ret := open_input env in
    let calls := calls ++ [Free Dictionary] in
    if ret <? 0 then
      (ret, set_fmt_ctx s false, [srt_connect_failed],
       calls ++ [Free FormatContext])
    else
      let ret := find_stream_info env in
      if ret <? 0 then
        let '(s, closing) := close_source s in (ret, s, [], calls ++ closing)
      else
        let s :=
          set_stream_idx s (find_stream (streams env) AVMEDIA_TYPE_VIDEO)
            (find_stream (streams env) AVMEDIA_TYPE_AUDIO) in
        if video_stream_idx s <? 0 then
          let '(s, closing) := close_source s in (-1, s, [], calls ++ closing)
        else
          let '(ret, ctx, opening) :=
            open_decoder (video_decoder env) (video_dec_ctx s) in
          let s := set_video_dec_ctx s ctx in
          let calls := calls ++ opening in
          if ret <? 0 then
            let '(s, closing) := close_source s in (ret, s, [], calls ++ closing)
          else
            let s := set_sws_ctx s (get_context env) in
            let calls :=
              calls ++ (if get_context env then [Alloc ScalerContext] else []) in
            let '(s, calls) :=
              if audio_stream_idx s >=? 0 then
                let '(ret, ctx, opening) :=
                  open_decoder (audio_decoder env) (audio_dec_ctx s) in
                let s := set_audio_dec_ctx s ctx in
                if ret >=? 0 then
                  let '(swr, making) :=
                    make_resampler (swr_alloc_set_opts env) (swr_init env) in
                  (set_swr_ctx s swr, calls ++ opening ++ making)
                else (s, calls ++ opening)
              else (s, calls) in
            (0, s, [srt_connected], calls).

(* ================================================================== *)
(** ** Vocabulary of the statements *)
(* ================================================================== *)

(** The frames [fs] carry consecutive timestamps: the video frames count up by
    one from [v], the audio frames count up by [sz] from [a]. *)
Fixpoint pts_from (v a sz : Z) (fs : list OutFrame) : Prop :=
  match fs with
  | [] => True
  | Video pts _ :: rest => pts = v /\ pts_from (v + 1) a sz rest
  | Audio f :: rest => a_pts f = a /\ pts_from v (a + sz) sz rest
  end.

(** [n] frames of [sz] samples cut from the front of the queue [q], the first
    stamped [pts]: audio encoded in whole frames, with no padding. *)
Fixpoint whole_frames (sz pts : Z) (n : nat) (q : AVAudioFifo)
  : list AudioFrame :=
  match n with
  | O => []
  | S n' =>
      {| nb_samples := sz; a_pts := pts;
         data0 := map fst (firstn (Z.to_nat sz) q);
         data1 := map snd (firstn (Z.to_nat sz) q) |}
      :: whole_frames sz (pts + sz) n' (skipn (Z.to_nat sz) q)
  end.




(** The first video frame among the outcomes [reads i], ..., [reads (i+n-1)]
    of [read_bg_frame]: the background frame that arrives in a tick. *)
Fixpoint first_bg_video (n i : nat) (reads : nat -> BgRead) : option picture :=
  match n with
  | O => None
  | S n' =>
      match reads i with
      | BgVideoFrame pic => Some pic
      | _ => first_bg_video n' (S i) reads
      end
  end.

(** The shared slot as the tick finds it when it samples the video (its first
    critical section) and when it drains the audio (its second one, in SRT). *)
Definition slot_at_sample (env : TickEnv) (s : LoopState) : SrtShared :=
  reader_ops (shared (app s)) (reader env 0).

Definition slot_at_drain (env : TickEnv) (s : LoopState) : SrtShared :=
  reader_ops (slot_at_sample env s) (reader env 1).

(** The values of a state for which no counter of the next tick wraps. *)
Definition in_range (g_cfg : Config) (s : LoopState) : Prop :=
  0 < out_fps g_cfg /\ 0 < sample_rate g_cfg /\
  0 <= video_pts (out (app s)) /\
  (video_pts (out (app s)) + 1) * sample_rate g_cfg
    + aframe_size (out (app s)) <= INT64_MAX /\
  in_int64 (audio_pts (out (app s))).

(** Every character of [s] passes [ok]. *)
Fixpoint all_chars (ok : ascii -> bool) (s : string) : bool :=
  match s with
  | EmptyString => true
  | String c rest => ok c && all_chars ok rest
  end.

Definition is_not (c : ascii) : ascii -> bool :=
  fun d => negb (Ascii.eqb d c).

(** The characters [json_get_str] and [json_get_int] skip after the key. *)
Definition is_separator (c : ascii) : bool :=
  Ascii.eqb c ":" || Ascii.eqb c " " || Ascii.eqb c tab.

(** [pat] does not occur in [s] at any of the first [n] positions. *)
Fixpoint not_before (n : nat) (pat s : string) : bool :=
  match n with
  | O => true
  | S n' =>
      negb (String.prefix pat s)
      && match s with
         | EmptyString => true
         | String _ rest => not_before n' pat rest
         end
  end.

(** [s] between double quotes. *)
Definition quoted (s : string) : string :=
  String dquote (s ++ String dquote EmptyString).

(** A text in which the key [key], quoted, follows [pre]; then come [gap], a
    colon, [seps] and [value]. *)
Definition json_member (pre key gap seps value : string) : string :=
  (pre ++ quoted key ++ gap ++ String ":" (seps ++ value))%string.

(** The decimal text of [z], as [printf] writes it for [%d] and [%ld]. *)
Definition print_ld (z : Z) : string := NilEmpty.string_of_int (Z.to_int z).

Definition is_digit (c : ascii) : bool :=
  Nat.leb 48 (nat_of_ascii c) && Nat.leb (nat_of_ascii c) 57.

(** [s] does not start with a decimal digit. *)
Definition no_leading_digit (s : string) : bool :=
  match s with
  | EmptyString => true
  | String c _ => negb (is_digit c)
  end.

(** The strings of [cfg] fit their buffers in [Config] with the final NUL,
    the numbers are values of [int], and the three fields that no input
    sets hold their constants. *)
Definition config_fits (cfg : Config) : Prop :=
  (String.length (srt_url cfg) <= 2047)%nat /\
  (String.length (bg_file cfg) <= 2047)%nat /\
  (String.length (stream_id cfg) <= 255)%nat /\
  all_chars (is_not dquote) (stream_id cfg) = true /\
  in_int (out_width cfg) /\ in_int (out_height cfg) /\ in_int (out_fps cfg) /\
  in_int (video_bitrate cfg) /\ in_int (audio_bitrate cfg) /\
  in_int (sample_rate cfg) /\
  out_channels cfg = 2 /\ srt_timeout_us cfg = 2000000 /\
  srt_retry_us cfg = 500000.

Definition is_stats (e : Event) : bool :=
  match e with stats _ _ _ => true | _ => false end.

Definition count_stats (evs : list Event) : Z :=
  Z.of_nat (length (filter is_stats evs)).

Definition same_mode (a b : AudioMode) : bool :=
  match a, b with
  | AUDIO_SRT, AUDIO_SRT | AUDIO_GRACE, AUDIO_GRACE | AUDIO_BG, AUDIO_BG => true
  | _, _ => false
  end.

(** What a reader of the status log knows after the event [e], when it knew
    the audio mode and whether the inbound picture was on screen: [None]
    when the event cannot follow that state.  [stats] must report the frame
    rate of the configuration and the mode known. *)
Definition observe (g_cfg : Config) (st : AudioMode * bool) (e : Event)
  : option (AudioMode * bool) :=
  let '(mode, video) := st in
  match e with
  | srt_active =>
      match mode with AUDIO_SRT => None | _ => Some (AUDIO_SRT, video) end
  | srt_grace =>
      match mode with AUDIO_SRT => Some (AUDIO_GRACE, video) | _ => None end
  | bg_audio_on =>
      match mode with AUDIO_GRACE => Some (AUDIO_BG, video) | _ => None end
  | video_srt => if video then None else Some (mode, true)
  | video_bg => if video then Some (mode, false) else None
  | stats fps _ m =>
      if (fps =? out_fps g_cfg) && same_mode m mode then Some st else None
  | _ => Some st
  end.

Fixpoint replay (g_cfg : Config) (st : AudioMode * bool) (evs : list Event)
  : option (AudioMode * bool) :=
  match evs with
  | [] => Some st
  | e :: rest =>
      match observe g_cfg st e with
      | Some st' => replay g_cfg st' rest
      | None => None
      end
  end.

(** What a reader of the status log knows about the inbound session after the
    event [e], when it knew whether the session was up: [None] when the event
    cannot follow that state. *)
Definition link_event (up : bool) (e : Event) : option bool :=
  match e with
  | srt_connected => if up then None else Some true
  | srt_connect_failed => if up then None else Some false
  | srt_dropped _ => if up then Some false else None
  | _ => Some up
  end.

Fixpoint link_replay (up : bool) (evs : list Event) : option bool :=
  match evs with
  | [] => Some up
  | e :: rest =>
      match link_event up e with
      | Some up' => link_replay up' rest
      | None => None
      end
  end.

(** The fields of the shared slot that the reader thread writes and the main
    loop only reads. *)
Definition reader_fields (sh : SrtShared) : picture * bool * Z * bool :=
  (video_data sh, has_video sh, last_frame_time sh, connected sh).

(** The reader operations that ran before the first [k] critical sections of
    a tick. *)
Definition delivered (env : TickEnv) (k : nat) : list ReaderOp :=
  concat (map (reader env) (seq 0 k)).

Definition is_audio_op (op : ReaderOp) : bool :=
  match op with RdAudio _ _ => true | _ => false end.

(** The samples [swr_convert] gave for the background audio packets read in
    a tick: those among [reads i], ..., [reads (i+n-1)] that come before the
    first video frame. *)
Fixpoint bg_audio_read (n i : nat) (reads : nat -> BgRead) : list sample :=
  match n with
  | O => []
  | S n' =>
      match reads i with
      | BgVideoFrame _ => []
      | BgAudioFrame converted => converted ++ bg_audio_read n' (S i) reads
      | _ => bg_audio_read n' (S i) reads
      end
  end.

(** [n] frames of [sz] samples cut from the front of the queue [q], the first
    stamped [pts]; a frame the queue cannot fill is completed with zeros. *)
Fixpoint padded_frames (sz pts : Z) (n : nat) (q : AVAudioFifo)
  : list AudioFrame :=
  match n with
  | O => []
  | S n' =>
      {| nb_samples := sz; a_pts := pts;
         data0 := map fst (firstn (Z.to_nat sz) q)
                  ++ repeat 0 (Z.to_nat sz - length q);
         data1 := map snd (firstn (Z.to_nat sz) q)
                  ++ repeat 0 (Z.to_nat sz - length q) |}
      :: padded_frames sz (pts + sz) n' (skipn (Z.to_nat sz) q)
  end.

Definition same_object (a b : LibObject) : bool :=
  match a, b with
  | FormatContext, FormatContext | CodecContext, CodecContext
  | ScalerContext, ScalerContext | ResamplerContext, ResamplerContext
  | Dictionary, Dictionary => true
  | _, _ => false
  end.

(** The number of objects of kind [o] that the calls leave allocated. *)
Fixpoint live (o : LibObject) (calls : list LibCall) : Z :=
  match calls with
  | [] => 0
  | Alloc o' :: rest => (if same_object o o' then 1 else 0) + live o rest
  | Free o' :: rest => live o rest - (if same_object o o' then 1 else 0)
  end.

(** The number of objects of kind [o] that the pointers of [s] hold. *)
Definition held (o : LibObject) (s : SourceCtx) : Z :=
  match o with
  | FormatContext => Z.b2z (fmt_ctx s)
  | CodecContext => Z.b2z (video_dec_ctx s) + Z.b2z (audio_dec_ctx s)
  | ScalerContext => Z.b2z (sws_ctx s)
  | ResamplerContext => Z.b2z (swr_ctx s)
  | Dictionary => 0
  end.

(** Every pointer of [s] is NULL. *)
Definition closed (s : SourceCtx) : bool :=
  negb (fmt_ctx s) && negb (video_dec_ctx s) && negb (audio_dec_ctx s)
  && negb (sws_ctx s) && negb (swr_ctx s).

(* ================================================================== *)
(** ** Concrete inputs *)
(* ================================================================== *)

(** Allocator leftovers that are not silence. *)
Definition junk : nat -> fsample := fun i => Z.of_nat i + 1.

Definition no_reader : nat -> list ReaderOp := fun _ => [].

(** A tick in which the first background packet decodes to a video frame and
    the reader thread does nothing. *)
Definition bg_video_env : TickEnv :=
  {| now_t0 := 0; bg_reads := fun _ => BgVideoFrame [16; 128; 128];
     reader := no_reader; now_drop := 0; now_grace := 0; now_end := 2000 |}.

(** A tick in which the background file yields five audio packets in a row. *)
Definition bg_audio_env : TickEnv :=
  {| now_t0 := 40000; bg_reads := fun _ => BgAudioFrame [(1, 1)];
     reader := no_reader; now_drop := 40000; now_grace := 40000;
     now_end := 42000 |}.

(** The bit pattern of [1.0f]. *)
Definition one_f : fsample := 1065353216.

(** A tick before which the reader connected, stored a picture and queued a
    burst of 15000 samples (312.5 ms at 48 kHz), all of value [1.0f]. *)
Definition srt_burst_env : TickEnv :=
  {| now_t0 := 0; bg_reads := fun _ => BgVideoFrame [16; 128; 128];
     reader := fun k =>
       match k with
       | O => [RdConnected 100; RdVideo [235; 128; 128] 200;
               RdAudio (repeat (one_f, one_f) (Z.to_nat 15000)) 300]
       | _ => []
       end;
     now_drop := 1000; now_grace := 1000; now_end := 2000 |}.

(** A tick before which the reader connected, stored a picture and queued
    4000 samples, all of value [1.0f]. *)
Definition srt_talk_env : TickEnv :=
  {| now_t0 := 0; bg_reads := fun _ => BgVideoFrame [16; 128; 128];
     reader := fun k =>
       match k with
       | O => [RdConnected 100; RdVideo [235; 128; 128] 200;
               RdAudio (repeat (one_f, one_f) (Z.to_nat 4000)) 300]
       | _ => []
       end;
     now_drop := 1000; now_grace := 1000; now_end := 2000 |}.

(** A tick before which the reader connected and stored a picture, with 500
    samples queued: less than one audio frame. *)
Definition srt_thin_env : TickEnv :=
  {| now_t0 := 0; bg_reads := fun _ => BgVideoFrame [16; 128; 128];
     reader := fun k =>
       match k with
       | O => [RdConnected 100; RdVideo [235; 128; 128] 200;
               RdAudio (repeat (one_f, one_f) (Z.to_nat 500)) 300]
       | _ => []
       end;
     now_drop := 1000; now_grace := 1000; now_end := 2000 |}.

(** The next tick, before which the reader saw a read error. *)
Definition srt_lost_env : TickEnv :=
  {| now_t0 := 33333; bg_reads := fun _ => BgVideoFrame [16; 128; 128];
     reader := fun k =>
       match k with
       | O => [RdDisconnected]
       | _ => []
       end;
     now_drop := 33400; now_grace := 33410; now_end := 35000 |}.

(** A connected slot that holds a picture and one queued sample. *)
Definition live_slot : SrtShared :=
  {| video_data := [235; 128; 128]; has_video := true;
     audio_fifo := [(one_f, one_f)]; last_frame_time := 900;
     connected := true |}.

(** An iteration of the reader in which [av_read_frame] fails. *)
Definition read_fails : ReaderIn :=
  {| ri_open := OpenFailed false; ri_packet := PktReadError; ri_now := 1000 |}.

(** An iteration of the reader that reads a packet of another stream more
    than two seconds after the last decoded frame. *)
Definition goes_quiet : ReaderIn :=
  {| ri_open := OpenFailed false; ri_packet := PktOther; ri_now := 3000000 |}.

(** A configuration file without the key [srt_url]:
    [{"bg_file": "loop.mp4", "out_fps": 25}]. *)
Definition config_without_url : string :=
  ("{" ++ String dquote "bg_file" ++ String dquote ": "
   ++ String dquote "loop.mp4" ++ String dquote ", "
   ++ String dquote "out_fps" ++ String dquote ": 25}")%string.

(** The only file is [stream.json], with that content. *)
Definition one_config_file (path : string) : option string :=
  if String.eqb path "stream.json" then Some config_without_url else None.

(** A [strtod] for whole seconds: the integer it reads, as a double. *)
Definition strtod_whole (s : string) : float :=
  match strtol s with
  | Z0 => 0%float
  | Zpos p => PrimFloat.of_uint63 (Uint63.of_Z (Zpos p))
  | Zneg p => PrimFloat.opp (PrimFloat.of_uint63 (Uint63.of_Z (Zpos p)))
  end.

(** An application state with three stale samples in the local queue, one
    sample in the slot's queue, and the audio clock 8 samples short. *)
Definition stale_app : AppState :=
  {| out := {| frame_size := 4; video_pts := 1; audio_pts := 0 |};
     shared := live_slot;
     bg_frame := None;
     out_frame := [];
     bg_audio_fifo := [];
     srt_local_fifo := [(one_f, one_f); (one_f, one_f); (one_f, one_f)] |}.

(** The state in which [main] enters the loop with the AAC encoder's frame
    size of 1024 samples. *)
Definition start : LoopState := initial_state 1024 [] [].

(** A configuration file with an inbound URL and a stream id:
    [{"srt_url": "srt://origin:9000", "stream_id": "cam1"}]. *)
Definition config_with_url : string :=
  ("{" ++ quoted "srt_url" ++ ": " ++ quoted "srt://origin:9000" ++ ", "
   ++ quoted "stream_id" ++ ": " ++ quoted "cam1" ++ "}")%string.

(** The default configuration at two frames per second. *)
Definition two_fps_config : Config :=
  {| srt_url := ""; bg_file := "background.mp4"; stream_id := "";
     out_width := 1280; out_height := 720; out_fps := 2;
     video_bitrate := 4000000; audio_bitrate := 128000;
     sample_rate := 48000; bg_unmute_delay := 5.0%float;
     out_channels := 2; srt_timeout_us := 2000000;
     srt_retry_us := 500000 |}.

(** The loop in SRT, on the state [stale_app]. *)
Definition in_srt : LoopState :=
  {| app := stale_app; was_srt_video := true; audio_mode := AUDIO_SRT;
     srt_drop_time := 0; stats_ticker := 0 |}.

(** An iteration of the reader that opens the source and decodes a picture. *)
Definition connects : ReaderIn :=
  {| ri_open := OpenOk 100; ri_packet := PktVideo (Some [235; 128; 128]) 200;
     ri_now := 300 |}.

(** A session is dropped and a new one stores a picture and a sample. *)
Definition new_session : list ReaderOp :=
  [RdDisconnected; RdConnected 100; RdVideo [235; 128; 128] 200;
   RdAudio [(one_f, one_f)] 300].

(** The source of the reader thread before its first iteration. *)
Definition closed_source : SourceCtx :=
  {| fmt_ctx := false; video_stream_idx := -1; audio_stream_idx := -1;
     video_dec_ctx := false; audio_dec_ctx := false;
     sws_ctx := false; swr_ctx := false |}.

Definition decoder_opens : DecoderEnv :=
  {| find_decoder := true; alloc_context3 := true;
     parameters_to_context := 0; open2 := 0 |}.

(** An inbound session that carries only an audio stream. *)
Definition audio_only_session : OpenEnv :=
  {| alloc_context := true; open_input := 0; find_stream_info := 0;
     streams := [AVMEDIA_TYPE_AUDIO];
     video_decoder := decoder_opens; get_context := true;
     audio_decoder := decoder_opens;
     swr_alloc_set_opts := true; swr_init := 0 |}.

(** The [n] audio frames of a tick in GRACE, the first stamped [pts]: the
    first is cut from the queue [q] and completed with zeros, the others are
    zeros throughout. *)
Definition grace_frames (sz pts : Z) (n : nat) (q : AVAudioFifo)
  : list AudioFrame :=
  match n with
  | O => []
  | S m => padded_frames sz pts 1 q ++ padded_frames sz (pts + sz) m []
  end.



(** The loop in GRACE, on the state [stale_app]. *)
Definition in_grace : LoopState :=
  {| app := stale_app; was_srt_video := false; audio_mode := AUDIO_GRACE;
     srt_drop_time := 0; stats_ticker := 0 |}.

(** A tick before which the reader saw a read error, with a background
    frame, 10 microseconds after the drop. *)
Definition grace_env : TickEnv :=
  {| now_t0 := 0; bg_reads := fun _ => BgVideoFrame [16; 128; 128];
     reader := fun k =>
       match k with
       | O => [RdDisconnected]
       | _ => []
       end;
     now_drop := 0; now_grace := 10; now_end := 2000 |}.

(* ================================================================== *)
(** * Facts about the C integers and the FIFO *)
(* ================================================================== *)

Lemma int64_in_range (z : Z) : in_int64 z -> int64 z = z.
Proof.
  unfold in_int64, INT64_MIN, INT64_MAX, int64, wrap_signed.
  change (2 ^ (64 - 1)) with 9223372036854775808.
  change (2 ^ 64) with 18446744073709551616.
  change (2 ^ 63) with 9223372036854775808.
  intros H. rewrite Z.mod_small; lia.
Qed.

Lemma int32_in_range (z : Z) : in_int z -> int32 z = z.
Proof.
  unfold in_int, INT_MIN, INT_MAX, int32, wrap_signed.
  change (2 ^ (32 - 1)) with 2147483648.
  change (2 ^ 32) with 4294967296.
  change (2 ^ 31) with 2147483648.
  intros H. rewrite Z.mod_small; lia.
Qed.

Lemma fifo_size_nonneg (af : AVAudioFifo) : 0 <= av_audio_fifo_size af.
Proof. unfold av_audio_fifo_size. lia. Qed.

Lemma fifo_read_whole (af : AVAudioFifo) :
  av_audio_fifo_read af (av_audio_fifo_size af) = (af, []).
Proof.
  unfold av_audio_fifo_read, av_audio_fifo_size.
  destruct (Z.ltb_spec (Z.of_nat (length af)) 0) as [H | _]; [lia |].
  rewrite Nat2Z.id, firstn_all, skipn_all. reflexivity.
Qed.

Lemma plane_write_exact (dst src : list fsample) :
  length dst = length src -> plane_write dst src = src.
Proof.
  intros H. unfold plane_write. rewrite <- H, skipn_all. apply app_nil_r.
Qed.

Lemma uninit_planes_length (uninit : nat -> fsample) (n : Z) :
  length (fst (av_frame_get_buffer uninit n)) = Z.to_nat n /\
  length (snd (av_frame_get_buffer uninit n)) = Z.to_nat n.
Proof.
  unfold av_frame_get_buffer. cbn [fst snd].
  rewrite length_map, length_seq. split; reflexivity.
Qed.

Lemma memset0_whole (plane : list fsample) (n : Z) :
  0 <= n -> n * 4 <= INT_MAX -> length plane = Z.to_nat n ->
  memset0 plane (int32 (n * 4)) = repeat 0 (Z.to_nat n).
Proof.
  intros Hn Hmax Hlen. unfold memset0.
  rewrite int32_in_range by (unfold in_int, INT_MIN, INT_MAX in *; lia).
  unfold c_div. rewrite Z.quot_mul by lia.
  apply plane_write_exact. rewrite repeat_length. exact Hlen.
Qed.

Lemma plane_write_prefix (k : nat) (src : list fsample) :
  (length src <= k)%nat ->
  plane_write (repeat 0 k) src = src ++ repeat 0 (k - length src).
Proof.
  intros H. unfold plane_write. f_equal.
  replace k with (length src + (k - length src))%nat at 1 by lia.
  rewrite repeat_app, skipn_app, repeat_length, Nat.sub_diag.
  rewrite skipn_all2 by (rewrite repeat_length; lia).
  reflexivity.
Qed.

(* ================================================================== *)
(** * The encode helpers *)
(* ================================================================== *)

(** A queue that holds a whole frame gives its [sz] oldest samples. *)
Lemma encode_whole_frame (uninit : nat -> fsample) (o : OutputCtx)
  (fifo : AVAudioFifo) (sz : Z) :
  0 < sz -> sz <= av_audio_fifo_size fifo ->
  encode_one_audio_frame uninit o fifo sz
  = (set_audio_pts o (int64 (audio_pts o + sz)),
     skipn (Z.to_nat sz) fifo,
     {| nb_samples := sz; a_pts := audio_pts o;
        data0 := map fst (firstn (Z.to_nat sz) fifo);
        data1 := map snd (firstn (Z.to_nat sz) fifo) |}).
Proof.
  intros Hpos Hge.
  destruct (uninit_planes_length uninit sz) as [L0 L1].
  unfold encode_one_audio_frame.
  destruct (Z.geb_spec (av_audio_fifo_size fifo) sz) as [_ | Hlt]; [| lia].
  unfold read_into_planes, av_audio_fifo_read.
  destruct (Z.ltb_spec sz 0) as [Hneg | _]; [lia |].
  cbn [fst snd].
  assert (Hlen : length (firstn (Z.to_nat sz) fifo) = Z.to_nat sz).
  { rewrite length_firstn. unfold av_audio_fifo_size in Hge. lia. }
  rewrite !plane_write_exact
    by (transitivity (Z.to_nat sz);
        [first [exact L0 | exact L1]
        | symmetry; rewrite length_map; exact Hlen]).
  reflexivity.
Qed.

(** A shorter queue gives all it has, followed by zeros, and is left empty. *)
Lemma encode_short_frame (uninit : nat -> fsample) (o : OutputCtx)
  (fifo : AVAudioFifo) (sz : Z) :
  0 < sz -> sz * 4 <= INT_MAX -> av_audio_fifo_size fifo < sz ->
  encode_one_audio_frame uninit o fifo sz
  = (set_audio_pts o (int64 (audio_pts o + sz)),
     [],
     {| nb_samples := sz; a_pts := audio_pts o;
        data0 := map fst fifo ++ repeat 0 (Z.to_nat sz - length fifo);
        data1 := map snd fifo ++ repeat 0 (Z.to_nat sz - length fifo) |}).
Proof.
  intros Hpos Hmax Hlt.
  destruct (uninit_planes_length uninit sz) as [L0 L1].
  unfold encode_one_audio_frame.
  destruct (Z.geb_spec (av_audio_fifo_size fifo) sz) as [Hge | _]; [lia |].
  rewrite !memset0_whole by (lia || assumption).
  assert (Hshort : (length fifo < Z.to_nat sz)%nat)
    by (unfold av_audio_fifo_size in Hlt; lia).
  assert (Hdata :
    forall (pr : sample -> fsample),
      plane_write (repeat 0 (Z.to_nat sz)) (map pr fifo)
      = map pr fifo ++ repeat 0 (Z.to_nat sz - length fifo)).
  { intros pr. rewrite plane_write_prefix by (rewrite length_map; lia).
    rewrite length_map. reflexivity. }
  destruct (Z.gtb_spec (av_audio_fifo_size fifo) 0) as [Hsome | Hnone].
  - unfold read_into_planes.
    rewrite fifo_read_whole. cbn [fst snd].
    rewrite !Hdata. reflexivity.
  - assert (fifo = []) as ->.
    { destruct fifo; [reflexivity |].
      unfold av_audio_fifo_size in Hnone. cbn in Hnone. lia. }
    cbn [fst snd map length List.app]. rewrite Nat.sub_0_r. reflexivity.
Qed.

(** C8.  [encode_one_audio_frame] on a queue [fifo] with frame size [sz]: when
    the queue holds at least [sz] samples the frame is exactly the [sz] oldest
    ones and they leave the queue; otherwise the frame is the whole queue
    followed by zeros up to [sz] samples (whatever memory the allocator gave)
    and the queue is left empty; in both cases the frame's pts is [audio_pts]
    and [audio_pts] grows by exactly [sz]. *)
Theorem encode_one_audio_frame_spec (uninit : nat -> fsample) (o : OutputCtx)
  (fifo : AVAudioFifo) (sz : Z) (o' : OutputCtx) (fifo' : AVAudioFifo)
  (f : AudioFrame) :
  0 < sz -> sz * 4 <= INT_MAX -> in_int64 (audio_pts o + sz) ->
  encode_one_audio_frame uninit o fifo sz = (o', fifo', f) ->
  (sz <= av_audio_fifo_size fifo ->
     data0 f = map fst (firstn (Z.to_nat sz) fifo) /\
     data1 f = map snd (firstn (Z.to_nat sz) fifo) /\
     fifo' = skipn (Z.to_nat sz) fifo) /\
  (av_audio_fifo_size fifo < sz ->
     data0 f = map fst fifo ++ repeat 0 (Z.to_nat sz - length fifo) /\
     data1 f = map snd fifo ++ repeat 0 (Z.to_nat sz - length fifo) /\
     fifo' = []) /\
  length (data0 f) = Z.to_nat sz /\
  length (data1 f) = Z.to_nat sz /\
  nb_samples f = sz /\
  a_pts f = audio_pts o /\
  audio_pts o' = audio_pts o + sz /\
  video_pts o' = video_pts o /\
  frame_size o' = frame_size o.
Proof.
  intros Hpos Hmax Hpts Henc.
  destruct (Z.le_gt_cases sz (av_audio_fifo_size fifo)) as [Hge | Hlt].
  - rewrite encode_whole_frame in Henc by assumption.
    injection Henc as <- <- <-. cbn.
    rewrite int64_in_range by exact Hpts.
    assert (Hlen : length (firstn (Z.to_nat sz) fifo) = Z.to_nat sz).
    { rewrite length_firstn. unfold av_audio_fifo_size in Hge. lia. }
    repeat (split || intro);
      first [reflexivity | lia | rewrite length_map; exact Hlen].
  - rewrite encode_short_frame in Henc by assumption.
    injection Henc as <- <- <-. cbn.
    rewrite int64_in_range by exact Hpts.
    assert (Hshort : (length fifo < Z.to_nat sz)%nat)
      by (unfold av_audio_fifo_size in Hlt; lia).
    repeat (split || intro);
      first [ reflexivity | lia
            | rewrite length_app, length_map, repeat_length;
              unfold sample, fsample in *; lia ].
Qed.

(** A queue of two samples and a frame of four: the frame is the two samples
    and two zeros, not the allocator's leftovers, and the queue is empty. *)
Lemma encode_one_audio_frame_spec_witness :
  (0 < 4 /\ 4 * 4 <= INT_MAX /\ in_int64 (2048 + 4)) /\
  encode_one_audio_frame junk
    {| frame_size := 4; video_pts := 2; audio_pts := 2048 |}
    [(11, 12); (21, 22)] 4
  = ({| frame_size := 4; video_pts := 2; audio_pts := 2052 |}, [],
     {| nb_samples := 4; a_pts := 2048;
        data0 := [11; 21; 0; 0]; data1 := [12; 22; 0; 0] |}) /\
  audio_pts {| frame_size := 4; video_pts := 2; audio_pts := 2052 |}
  = audio_pts {| frame_size := 4; video_pts := 2; audio_pts := 2048 |} + 4.
Proof.
  assert (H1 : 0 < 4) by lia.
  assert (H2 : 4 * 4 <= INT_MAX) by (vm_compute; discriminate).
  assert (H3 : in_int64 (2048 + 4))
    by (split; vm_compute; discriminate).
  assert (H4 : encode_one_audio_frame junk
                 {| frame_size := 4; video_pts := 2; audio_pts := 2048 |}
                 [(11, 12); (21, 22)] 4
               = ({| frame_size := 4; video_pts := 2; audio_pts := 2052 |}, [],
                  {| nb_samples := 4; a_pts := 2048;
                     data0 := [11; 21; 0; 0]; data1 := [12; 22; 0; 0] |}))
    by (vm_compute; reflexivity).
  split; [repeat split; assumption |].
  split; [exact H4 |].
  destruct (encode_one_audio_frame_spec junk
              {| frame_size := 4; video_pts := 2; audio_pts := 2048 |}
              [(11, 12); (21, 22)] 4
              {| frame_size := 4; video_pts := 2; audio_pts := 2052 |} []
              {| nb_samples := 4; a_pts := 2048;
                 data0 := [11; 21; 0; 0]; data1 := [12; 22; 0; 0] |}
              H1 H2 H3 H4)
    as (_ & _ & _ & _ & _ & _ & Hpts & _).
  exact Hpts.
Defined.


Lemma encode_one_audio_frame_out (uninit : nat -> fsample) (o : OutputCtx)
  (fifo : AVAudioFifo) (sz : Z) :
  fst (fst (encode_one_audio_frame uninit o fifo sz))
  = set_audio_pts o (int64 (audio_pts o + sz)) /\
  a_pts (snd (encode_one_audio_frame uninit o fifo sz)) = audio_pts o.
Proof.
  unfold encode_one_audio_frame.
  destruct (av_audio_fifo_size fifo >=? sz).
  - destruct (read_into_planes _ _ _) as [pl q]. split; reflexivity.
  - destruct (av_audio_fifo_size fifo >? 0).
    + destruct (read_into_planes _ _ _) as [pl q]. split; reflexivity.
    + split; reflexivity.
Qed.

(* ================================================================== *)
(** * The tick before its audio loop *)
(* ================================================================== *)

Lemma decode_background_keeps (n i : nat) (reads : nat -> BgRead) (hb : bool)
  (a : AppState) :
  let a' := snd (decode_background n i reads hb a) in
  out a' = out a /\ shared a' = shared a /\
  srt_local_fifo a' = srt_local_fifo a /\ out_frame a' = out_frame a.
Proof.
  revert i hb a. induction n as [| n IH]; intros i hb a; cbn.
  - repeat split.
  - destruct hb; [repeat split |].
    destruct (read_bg_frame (reads i) (bg_frame a) (bg_audio_fifo a))
      as [[r scaled] afifo].
    specialize (IH (S i) (r =? 1) (set_bg a scaled afifo)).
    cbn in IH. exact IH.
Qed.

Lemma check_srt_shared_keeps (a : AppState) :
  let a' := snd (check_srt_shared a) in
  out a' = out a /\ shared a' = shared a /\
  srt_local_fifo a' = srt_local_fifo a /\
  bg_frame a' = bg_frame a /\ bg_audio_fifo a' = bg_audio_fifo a.
Proof.
  unfold check_srt_shared.
  destruct (connected (shared a) && has_video (shared a)); cbn; repeat split.
Qed.

Section TickFacts.

Variable g_cfg : Config.
Variable uninit : nat -> fsample.

(** The machine leaves the tick in SRT exactly when the slot gave a frame. *)
Lemma audio_mode_machine_srt (use : bool) (env : TickEnv) (mode : AudioMode)
  (drop : Z) (bgq : AVAudioFifo) :
  fst (fst (fst (audio_mode_machine g_cfg use env mode drop bgq))) = AUDIO_SRT
  <-> use = true.
Proof.
  unfold audio_mode_machine.
  destruct use.
  - destruct mode; cbn; split; reflexivity.
  - destruct mode; cbn;
      try destruct (int64 _ >? bg_unmute_us g_cfg); cbn;
      split; discriminate.
Qed.

Lemma video_output_cases (use hb : bool) (a : AppState) :
  let r := video_output use hb a in
  srt_local_fifo (fst r) = srt_local_fifo a /\
  shared (fst r) = shared a /\
  bg_audio_fifo (fst r) = bg_audio_fifo a /\
  ((snd r = [] /\ out (fst r) = out a) \/
   (exists pic,
      snd r = [Video (video_pts (out a)) pic] /\
      out (fst r) = set_video_pts (out a) (int64 (video_pts (out a) + 1)))).
Proof.
  unfold video_output. destruct use.
  - cbn. repeat split. right. eexists. split; reflexivity.
  - destruct hb; [destruct (bg_frame a) as [pic |] |]; cbn; repeat split;
      solve [left; split; reflexivity
            | right; eexists; split; reflexivity].
Qed.

Lemma drain_and_trim_keeps (ops : list ReaderOp) (a : AppState) :
  out (drain_and_trim g_cfg ops a) = out a /\
  bg_audio_fifo (drain_and_trim g_cfg ops a) = bg_audio_fifo a.
Proof.
  unfold drain_and_trim.
  destruct (av_audio_fifo_size _ >? 0);
    [destruct (av_audio_fifo_read _ _) as [tbuf shq] |];
    cbn; split; reflexivity.
Qed.

(** The clock before the audio loop: at most one video frame was encoded, with
    the old [video_pts], and [audio_pts] has not moved. *)
Lemma before_audio_clock (env : TickEnv) (s : LoopState) :
  let b := before_audio g_cfg env s in
  let o := out (app s) in
  (vframes b = [] /\ out (app_now b) = o) \/
  (exists pic,
     vframes b = [Video (video_pts o) pic] /\
     out (app_now b) = set_video_pts o (int64 (video_pts o + 1))).
Proof.
  unfold before_audio.
  pose proof (decode_background_keeps 5 0 (bg_reads env) false (app s)) as Hd.
  destruct (decode_background 5 0 (bg_reads env) false (app s)) as [hb a1].
  cbn [snd] in Hd. destruct Hd as (Ho1 & _).
  pose proof (check_srt_shared_keeps
                (set_shared a1 (reader_ops (shared a1) (reader env 0)))) as Hc.
  destruct (check_srt_shared _) as [use a2].
  cbn [snd] in Hc. destruct Hc as (Ho2 & _). cbn in Ho2.
  destruct (audio_mode_machine g_cfg use env (audio_mode s) (srt_drop_time s)
              (bg_audio_fifo a2)) as [[[mode dt] bgq] ev].
  pose proof (video_output_cases use hb (set_bg_audio_fifo a2 bgq)) as Hv.
  destruct (video_output use hb (set_bg_audio_fifo a2 bgq)) as [a3 vf].
  cbn [fst snd] in Hv. destruct Hv as (_ & _ & _ & Hv). cbn in Hv.
  rewrite Ho2, Ho1 in Hv.
  destruct mode; cbn;
    rewrite ?(proj1 (drain_and_trim_keeps _ _)); exact Hv.
Qed.

(** Every field of [before_audio], by the phase that computes it. *)
Lemma before_audio_fields (env : TickEnv) (s : LoopState) :
  let d := decode_background 5 0 (bg_reads env) false (app s) in
  let c := check_srt_shared
             (set_shared (snd d) (reader_ops (shared (snd d)) (reader env 0))) in
  let m := audio_mode_machine g_cfg (fst c) env (audio_mode s)
             (srt_drop_time s) (bg_audio_fifo (snd c)) in
  let v := video_output (fst c) (fst d)
             (set_bg_audio_fifo (snd c) (snd (fst m))) in
  before_audio g_cfg env s =
  {| have_bg := fst d;
     use_srt_video := fst c;
     mode_now := fst (fst (fst m));
     drop_time_now := snd (fst (fst m));
     events_now := snd m ++ video_change_log (fst c) (was_srt_video s);
     vframes := snd v;
     app_now := match fst (fst (fst m)) with
                | AUDIO_SRT => drain_and_trim g_cfg (reader env 1) (fst v)
                | _ => fst v
                end;
     sections := match fst (fst (fst m)) with
                 | AUDIO_SRT => 2%nat
                 | _ => 1%nat
                 end |}.
Proof.
  unfold before_audio.
  destruct (decode_background 5 0 (bg_reads env) false (app s)) as [hb a1].
  cbn [fst snd].
  destruct (check_srt_shared _) as [use a2]. cbn [fst snd].
  destruct (audio_mode_machine g_cfg use env (audio_mode s) (srt_drop_time s)
              (bg_audio_fifo a2)) as [[[mode dt] bgq] ev].
  cbn [fst snd].
  destruct (video_output use hb (set_bg_audio_fifo a2 bgq)) as [a3 vf].
  cbn [fst snd]. destruct mode; reflexivity.
Qed.

(** The slot is sampled as the reader left it: the background phase does not
    touch it. *)
Lemma before_audio_use (env : TickEnv) (s : LoopState) :
  use_srt_video (before_audio g_cfg env s)
  = connected (slot_at_sample env s) && has_video (slot_at_sample env s).
Proof.
  rewrite before_audio_fields. cbn [use_srt_video].
  destruct (decode_background_keeps 5 0 (bg_reads env) false (app s))
    as (_ & Hsh & _).
  unfold slot_at_sample, check_srt_shared. rewrite Hsh.
  cbn [shared set_shared].
  destruct (connected _ && has_video _); reflexivity.
Qed.

Lemma before_audio_mode (env : TickEnv) (s : LoopState) :
  mode_now (before_audio g_cfg env s) = AUDIO_SRT
  <-> use_srt_video (before_audio g_cfg env s) = true.
Proof.
  rewrite before_audio_fields. cbn [mode_now use_srt_video].
  apply audio_mode_machine_srt.
Qed.

(** [have_bg] says whether a video frame arrived within the five packets, and
    then [bg_frame] holds it. *)
Lemma decode_background_first (n i : nat) (reads : nat -> BgRead)
  (a : AppState) :
  match first_bg_video n i reads with
  | Some pic =>
      fst (decode_background n i reads false a) = true /\
      bg_frame (snd (decode_background n i reads false a)) = Some pic
  | None => fst (decode_background n i reads false a) = false
  end.
Proof.
  revert i a. induction n as [| n IH]; intros i a; cbn; [reflexivity |].
  destruct (reads i) as [| pic | converted |]; cbn.
  - apply IH.
  - destruct n; cbn; split; reflexivity.
  - apply IH.
  - apply IH.
Qed.

(** The video frame of a tick: the slot's picture when the slot is used, else
    the background frame of this tick when one arrived, else none. *)
Lemma before_audio_vframes (env : TickEnv) (s : LoopState) :
  vframes (before_audio g_cfg env s) =
  if use_srt_video (before_audio g_cfg env s)
  then [Video (video_pts (out (app s))) (video_data (slot_at_sample env s))]
  else match first_bg_video 5 0 (bg_reads env) with
       | Some pic => [Video (video_pts (out (app s))) pic]
       | None => []
       end.
Proof.
  rewrite before_audio_use.
  rewrite before_audio_fields. cbn [vframes].
  pose proof (decode_background_first 5 0 (bg_reads env) (app s)) as Hfirst.
  destruct (decode_background_keeps 5 0 (bg_reads env) false (app s))
    as (Ho & Hsh & _).
  destruct (decode_background 5 0 (bg_reads env) false (app s)) as [hb a1].
  cbn [fst snd] in *.
  unfold slot_at_sample, check_srt_shared. rewrite Hsh.
  cbn [shared set_shared].
  destruct (connected _ && has_video _); cbn [fst snd].
  - unfold video_output. cbn. rewrite Ho. reflexivity.
  - unfold video_output. cbn [bg_frame set_bg_audio_fifo set_bg set_shared].
    destruct (first_bg_video 5 0 (bg_reads env)) as [pic |].
    + destruct Hfirst as [-> ->]. cbn. rewrite Ho. reflexivity.
    + rewrite Hfirst. reflexivity.
Qed.

End TickFacts.

(* ================================================================== *)
(** * The audio loop *)
(* ================================================================== *)

(** The loop stops without a frame: every fact about the frames is about
    the empty list. *)
Ltac loop_ends :=
  cbn; repeat split;
  first [ constructor | lia | intros ?; contradiction | intros ?; congruence ].

Section AudioLoopFacts.

Variable g_cfg : Config.
Variable uninit : nat -> fsample.

Lemma audio_body_clock (mode : AudioMode) (sz : Z) (env : TickEnv) (k : nat)
  (a a1 : AppState) (k1 : nat) (f : AudioFrame) :
  audio_body uninit mode sz env k a = Some (a1, k1, f) ->
  out a1 = set_audio_pts (out a) (int64 (audio_pts (out a) + sz)) /\
  a_pts f = audio_pts (out a).
Proof.
  unfold audio_body. intros H.
  destruct mode.
  - destruct (av_audio_fifo_size (srt_local_fifo a) >=? sz); [| discriminate].
    pose proof (encode_one_audio_frame_out uninit (out a) (srt_local_fifo a) sz)
      as [Ho Hp].
    destruct (encode_one_audio_frame _ _ _ _) as [[o q] f0].
    injection H as <- _ <-. cbn in *. split; assumption.
  - pose proof (encode_one_audio_frame_out uninit (out a) (srt_local_fifo a) sz)
      as [Ho Hp].
    destruct (encode_one_audio_frame _ _ _ _) as [[o q] f0].
    injection H as <- _ <-. cbn in *. split; assumption.
  - pose proof (encode_one_audio_frame_out uninit (out a) (bg_audio_fifo a) sz)
      as [Ho Hp].
    destruct (encode_one_audio_frame _ _ _ _) as [[o q] f0].
    injection H as <- _ <-. cbn in *. split; assumption.
Qed.

Lemma audio_body_none (mode : AudioMode) (sz : Z) (env : TickEnv) (k : nat)
  (a : AppState) :
  audio_body uninit mode sz env k a = None ->
  mode = AUDIO_SRT /\ av_audio_fifo_size (srt_local_fifo a) < sz.
Proof.
  unfold audio_body. destruct mode.
  - destruct (Z.geb_spec (av_audio_fifo_size (srt_local_fifo a)) sz).
    + destruct (encode_one_audio_frame _ _ _ _) as [[o q] f0]. discriminate.
    + intros _. split; [reflexivity | assumption].
  - destruct (encode_one_audio_frame _ _ _ _) as [[o q] f0]. discriminate.
  - destruct (encode_one_audio_frame _ _ _ _) as [[o q] f0]. discriminate.
Qed.

(** The loop ends within the passes [tick] gives it, and accounts for every
    frame on the audio clock. *)
Lemma audio_loop_clock (mode : AudioMode) (sz target : Z) (env : TickEnv) :
  0 < sz -> target + sz <= INT64_MAX + 1 ->
  forall (fuel k : nat) (a : AppState),
    in_int64 (audio_pts (out a)) ->
    (Z.to_nat (target - audio_pts (out a)) <= fuel)%nat ->
    exists a' k' fs,
      audio_loop uninit fuel mode sz target env k a = Some (a', k', fs) /\
      Forall (fun x => is_audio x = true) fs /\
      pts_from (video_pts (out a)) (audio_pts (out a)) sz fs /\
      video_pts (out a') = video_pts (out a) /\
      frame_size (out a') = frame_size (out a) /\
      audio_pts (out a') = audio_pts (out a) + sz * Z.of_nat (length fs) /\
      (fs <> [] -> audio_pts (out a') < target + sz) /\
      (mode <> AUDIO_SRT -> target <= audio_pts (out a')).
Proof.
  intros Hsz Htarget.
  induction fuel as [| fuel IH]; intros k a Hin Hfuel.
  - (* no pass is allowed: the guard is already false *)
    assert (Hdone : target <= audio_pts (out a)) by lia.
    cbn. destruct (Z.ltb_spec (audio_pts (out a)) target); [lia |].
    exists a, k, []. loop_ends.
  - cbn [audio_loop].
    destruct (Z.ltb_spec (audio_pts (out a)) target) as [Hlt | Hge].
    + destruct (audio_body uninit mode sz env k a) as [[[a1 k1] f] |] eqn:Hbody.
      * destruct (audio_body_clock _ _ _ _ _ _ _ _ Hbody) as [Ho Hp].
        assert (Hadd : audio_pts (out a1) = audio_pts (out a) + sz).
        { rewrite Ho. cbn. apply int64_in_range.
          unfold in_int64, INT64_MIN, INT64_MAX in *. lia. }
        assert (Hv : video_pts (out a1) = video_pts (out a))
          by (rewrite Ho; reflexivity).
        assert (Hf : frame_size (out a1) = frame_size (out a))
          by (rewrite Ho; reflexivity).
        destruct (IH k1 a1) as (a' & k' & fs & Hloop & Hall & Hpts & Hv' & Hf'
                                & Ha' & Hover & Hcatch).
        { rewrite Hadd. unfold in_int64, INT64_MIN, INT64_MAX in *. lia. }
        { rewrite Hadd. lia. }
        rewrite Hloop. exists a', k', (Audio f :: fs).
        split; [reflexivity |].
        split; [constructor; [reflexivity | exact Hall] |].
        split; [cbn; split; [exact Hp | rewrite <- Hv, <- Hadd; exact Hpts] |].
        split; [congruence |]. split; [congruence |].
        split; [rewrite Ha', Hadd; cbn [length]; lia |].
        split; [| exact Hcatch].
        intros _. destruct fs as [| x fs'].
        -- rewrite Ha', Hadd. cbn [length]. lia.
        -- apply Hover. discriminate.
      * destruct (audio_body_none _ _ _ _ _ Hbody) as [Hmode _].
        exists a, k, []. loop_ends.
    + exists a, k, []. loop_ends.
Qed.

End AudioLoopFacts.

(* ================================================================== *)
(** * One tick on the output clock *)
(* ================================================================== *)

Lemma aframe_size_pos (o : OutputCtx) : 0 < aframe_size o.
Proof.
  unfold aframe_size. destruct (Z.leb_spec (frame_size o) 0); lia.
Qed.

Lemma only_audio_counts (fs : list OutFrame) :
  Forall (fun x => is_audio x = true) fs ->
  video_count fs = 0 /\ audio_count fs = Z.of_nat (length fs).
Proof.
  unfold video_count, audio_count.
  induction 1 as [| x l Hx _ [IHv IHa]]; [split; reflexivity |].
  destruct x; [discriminate |]. cbn. split; [exact IHv | lia].
Qed.

Lemma pts_from_app (v a sz : Z) (l1 l2 : list OutFrame) :
  pts_from v a sz (l1 ++ l2) <->
  pts_from v a sz l1 /\
  pts_from (v + video_count l1) (a + sz * audio_count l1) sz l2.
Proof.
  unfold video_count, audio_count.
  revert v a. induction l1 as [| x l1 IH]; intros v a.
  - cbn. rewrite Z.add_0_r, Z.mul_0_r, Z.add_0_r. tauto.
  - destruct x as [pts pic | f]; cbn [List.app pts_from filter is_video is_audio length].
    + rewrite IH.
      replace (v + Z.of_nat (S (length (filter is_video l1))))
        with (v + 1 + Z.of_nat (length (filter is_video l1))) by lia.
      tauto.
    + rewrite IH.
      replace (a + sz * Z.of_nat (S (length (filter is_audio l1))))
        with (a + sz + sz * Z.of_nat (length (filter is_audio l1))) by lia.
      tauto.
Qed.

Lemma count_app (l1 l2 : list OutFrame) :
  video_count (l1 ++ l2) = video_count l1 + video_count l2 /\
  audio_count (l1 ++ l2) = audio_count l1 + audio_count l2.
Proof.
  unfold video_count, audio_count.
  rewrite !filter_app, !length_app. lia.
Qed.

Lemma count_nonneg (l : list OutFrame) :
  0 <= video_count l /\ 0 <= audio_count l.
Proof. unfold video_count, audio_count. lia. Qed.

Section ClockFacts.

Variable g_cfg : Config.
Variable uninit : nat -> fsample.

(** [target_audio] is the mathematical quotient while the product fits, and
    it grows with [video_pts]. *)
Lemma target_audio_value (o : OutputCtx) :
  0 < out_fps g_cfg -> 0 < sample_rate g_cfg -> 0 <= video_pts o ->
  video_pts o * sample_rate g_cfg <= INT64_MAX ->
  target_audio g_cfg o = video_pts o * sample_rate g_cfg / out_fps g_cfg /\
  0 <= target_audio g_cfg o <= video_pts o * sample_rate g_cfg.
Proof.
  intros Hfps Hsr Hv Hmax. unfold target_audio, c_div.
  rewrite int64_in_range
    by (unfold in_int64, INT64_MIN, INT64_MAX in *; nia).
  rewrite Z.quot_div_nonneg by nia.
  split; [reflexivity |]. split.
  - apply Z.div_pos; nia.
  - apply Z.div_le_upper_bound; nia.
Qed.

Lemma stats_block_keeps (env : TickEnv) (k : nat) (mode : AudioMode)
  (ticker : Z) (a : AppState) :
  out (snd (fst (stats_block g_cfg env k mode ticker a))) = out a /\
  srt_local_fifo (snd (fst (stats_block g_cfg env k mode ticker a)))
  = srt_local_fifo a.
Proof.
  unfold stats_block.
  destruct (int64 (ticker + 1) >=? out_fps g_cfg); split; reflexivity.
Qed.

(** A tick in range ends, and its frames account for both clocks. *)
Lemma tick_clock (env : TickEnv) (s : LoopState) :
  in_range g_cfg s ->
  exists r,
    tick g_cfg uninit env s = Some r /\
    pts_from (video_pts (out (app s))) (audio_pts (out (app s)))
      (aframe_size (out (app s))) (frames r) /\
    video_pts (out (app (next r)))
    = video_pts (out (app s)) + video_count (frames r) /\
    audio_pts (out (app (next r)))
    = audio_pts (out (app s))
      + aframe_size (out (app s)) * audio_count (frames r) /\
    frame_size (out (app (next r))) = frame_size (out (app s)) /\
    video_count (frames r) <= 1 /\
    (audio_pts (out (app s))
       < target_audio g_cfg (out (app s)) + aframe_size (out (app s)) ->
     audio_pts (out (app (next r)))
       < target_audio g_cfg (out (app (next r)))
         + aframe_size (out (app s))) /\
    (audio_mode (next r) <> AUDIO_SRT ->
     target_audio g_cfg (out (app (next r)))
       <= audio_pts (out (app (next r)))).
Proof.
  intros (Hfps & Hsr & Hv & Hmax & Hin).
  pose proof (aframe_size_pos (out (app s))) as Hsz.
  unfold tick.
  set (b := before_audio g_cfg env s).
  set (sz := aframe_size (out (app s))) in *.
  set (o := out (app s)) in *.
  assert (Hb : exists n : Z,
             0 <= n <= 1 /\ video_count (vframes b) = n /\
             video_pts (out (app_now b)) = video_pts o + n /\
             audio_pts (out (app_now b)) = audio_pts o /\
             frame_size (out (app_now b)) = frame_size o /\
             pts_from (video_pts o) (audio_pts o) sz (vframes b)).
  { destruct (before_audio_clock g_cfg env s) as [[Hvf Ho] | (pic & Hvf & Ho)];
      fold b in Hvf, Ho; fold o in Hvf, Ho; rewrite Hvf, Ho.
    - exists 0. cbn. repeat split; lia.
    - exists 1. cbn. rewrite int64_in_range
        by (unfold in_int64, INT64_MIN, INT64_MAX in *; nia).
      repeat split; lia. }
  destruct Hb as (n & Hn & Hcount & Hvb & Hab & Hfb & Hptsb).
  set (ob := out (app_now b)) in *.
  destruct (target_audio_value ob Hfps Hsr) as [_ Htb]; [lia | nia |].
  destruct (audio_loop_clock uninit (mode_now b) sz (target_audio g_cfg ob) env
              Hsz ltac:(nia) (Z.to_nat (target_audio g_cfg ob - audio_pts ob))
              (sections b) (app_now b))
    as (a' & k' & fs & Hloop & Hall & Hpts & Hv' & Hf' & Ha' & Hover & Hcatch).
  { fold ob. rewrite Hab. exact Hin. }
  { fold ob. lia. }
  fold ob in Hpts, Hv', Hf', Ha'.
  rewrite Hloop.
  pose proof (stats_block_keeps env k' (mode_now b) (stats_ticker s) a')
    as [Hso _].
  destruct (stats_block g_cfg env k' (mode_now b) (stats_ticker s) a')
    as [[ticker a''] evs].
  cbn [fst snd] in Hso.
  eexists. split; [reflexivity |]. cbn [next frames app audio_mode].
  destruct (only_audio_counts fs Hall) as [Hfv Hfa].
  destruct (count_app (vframes b) fs) as [Hcv Hca].
  assert (Hvfa : audio_count (vframes b) = 0).
  { destruct (before_audio_clock g_cfg env s) as [[Hvf _] | (pic & Hvf & _)];
      fold b in Hvf; rewrite Hvf; reflexivity. }
  assert (Hsame : target_audio g_cfg (out a'') = target_audio g_cfg ob).
  { unfold target_audio. rewrite Hso, Hv'. reflexivity. }
  rewrite Hsame, Hso.
  split.
  { apply pts_from_app. split; [exact Hptsb |].
    rewrite Hcount, Hvfa, Z.mul_0_r, Z.add_0_r, <- Hvb, <- Hab. exact Hpts. }
  split; [rewrite Hv', Hvb, Hcv, Hfv, Hcount; lia |].
  split; [rewrite Ha', Hab, Hca, Hfa, Hvfa; lia |].
  split; [congruence |].
  split; [rewrite Hcv, Hfv, Hcount; lia |].
  split; [| exact Hcatch].
  intros Hbefore.
  destruct fs as [| x fs'].
  - rewrite Ha', Hab. cbn [length].
    assert (target_audio g_cfg o <= target_audio g_cfg ob).
    { destruct (target_audio_value o Hfps Hsr Hv ltac:(nia)) as [-> _].
      destruct (target_audio_value ob Hfps Hsr ltac:(lia) ltac:(nia)) as [-> _].
      apply Z.div_le_mono; [lia |]. rewrite Hvb. nia. }
    lia.
  - apply Hover. discriminate.
Qed.

End ClockFacts.

(* ================================================================== *)
(** * Runs of the loop *)
(* ================================================================== *)

Section RunFacts.

Variable g_cfg : Config.
Variable uninit : nat -> fsample.

Lemma main_loop_app (e1 e2 : list TickEnv) (s : LoopState) :
  main_loop g_cfg uninit (e1 ++ e2) s =
  match main_loop g_cfg uninit e1 s with
  | None => None
  | Some (s1, f1, v1) =>
      match main_loop g_cfg uninit e2 s1 with
      | None => None
      | Some (s2, f2, v2) => Some (s2, f1 ++ f2, v1 ++ v2)
      end
  end.
Proof.
  revert s. induction e1 as [| env e1 IH]; intros s.
  - cbn. destruct (main_loop g_cfg uninit e2 s) as [[[s2 f2] v2] |]; reflexivity.
  - cbn. destruct (tick g_cfg uninit env s) as [r |]; [| reflexivity].
    rewrite IH.
    destruct (main_loop g_cfg uninit e1 (next r)) as [[[s1 f1] v1] |];
      [| reflexivity].
    destruct (main_loop g_cfg uninit e2 s1) as [[[s2 f2] v2] |];
      [| reflexivity].
    rewrite !app_assoc. reflexivity.
Qed.

(** Every run that stays in range ends; its frames account for both clocks,
    and the audio clock is never a whole frame ahead of its target. *)
Lemma main_loop_clock (envs : list TickEnv) :
  0 < out_fps g_cfg -> 0 < sample_rate g_cfg ->
  forall s : LoopState,
    0 <= video_pts (out (app s)) ->
    in_int64 (audio_pts (out (app s))) ->
    (video_pts (out (app s)) + Z.of_nat (length envs)) * sample_rate g_cfg
      + aframe_size (out (app s)) <= INT64_MAX ->
    audio_pts (out (app s))
      < target_audio g_cfg (out (app s)) + aframe_size (out (app s)) ->
    exists s' fs evs,
      main_loop g_cfg uninit envs s = Some (s', fs, evs) /\
      pts_from (video_pts (out (app s))) (audio_pts (out (app s)))
        (aframe_size (out (app s))) fs /\
      video_pts (out (app s')) = video_pts (out (app s)) + video_count fs /\
      audio_pts (out (app s'))
      = audio_pts (out (app s)) + aframe_size (out (app s)) * audio_count fs /\
      frame_size (out (app s')) = frame_size (out (app s)) /\
      video_count fs <= Z.of_nat (length envs) /\
      audio_pts (out (app s'))
        < target_audio g_cfg (out (app s')) + aframe_size (out (app s)) /\
      (envs <> [] -> audio_mode s' <> AUDIO_SRT ->
       target_audio g_cfg (out (app s')) <= audio_pts (out (app s'))).
Proof.
  intros Hfps Hsr.
  induction envs as [| env envs IH]; intros s Hv Hin Hmax Hbefore.
  - exists s, [], []. cbn.
    repeat split; try lia; try assumption.
    intros H; contradiction.
  - pose proof (aframe_size_pos (out (app s))) as Hsz.
    cbn [length] in Hmax.
    destruct (tick_clock g_cfg uninit env s) as
      (r & Htick & Hpts & Hv1 & Ha1 & Hf1 & Hc1 & Hover & Hcatch).
    { unfold in_range. repeat split; try assumption; try apply Hin. nia. }
    specialize (Hover Hbefore).
    destruct (count_nonneg (frames r)) as [Hcv Hca].
    assert (Hsz1 : aframe_size (out (app (next r))) = aframe_size (out (app s)))
      by (unfold aframe_size; rewrite Hf1; reflexivity).
    destruct (target_audio_value g_cfg (out (app (next r))) Hfps Hsr)
      as [_ Ht1]; [lia | nia |].
    destruct (IH (next r)) as
      (s' & fs & evs & Hrun & Hpts' & Hv' & Ha' & Hf' & Hc' & Hover' & Hcatch').
    { lia. }
    { unfold in_int64, INT64_MIN, INT64_MAX in *. nia. }
    { rewrite Hsz1. nia. }
    { rewrite Hsz1. exact Hover. }
    rewrite Hsz1 in *.
    cbn [main_loop]. rewrite Htick, Hrun.
    exists s', (frames r ++ fs), (events r ++ evs).
    destruct (count_app (frames r) fs) as [Hcav Hcaa].
    split; [reflexivity |].
    split.
    { apply pts_from_app. split; [exact Hpts |].
      rewrite <- Hv1, <- Ha1. exact Hpts'. }
    split; [lia |]. split; [nia |]. split; [congruence |].
    split; [cbn [length]; lia |].
    split; [exact Hover' |].
    intros _ Hmode. destruct envs as [| env' envs'].
    + cbn in Hrun. injection Hrun as <- _ _. apply Hcatch. exact Hmode.
    + apply Hcatch'; [discriminate | exact Hmode].
Qed.

End RunFacts.

(* ================================================================== *)
(** * The output clock *)
(* ================================================================== *)

(** C9.  From the state in which [main] starts the loop, over any ticks and
    whatever the background file, the clock and the reader thread deliver:
    both clocks start at 0; the frames handed to the encoders carry
    [video_pts] counting up by 1 from 0 and [audio_pts] counting up by the
    frame size from 0, so the counters at the end are the number of video
    frames and the frame size times the number of audio frames; and neither
    counter ever decreases from one tick boundary to a later one. *)
Theorem output_clock (g_cfg : Config) (uninit : nat -> fsample)
  (enc_frame_size : Z) (slot_pic out_pic : picture) (envs : list TickEnv) :
  0 < out_fps g_cfg -> 0 < sample_rate g_cfg ->
  Z.of_nat (length envs) * sample_rate g_cfg
  + aframe_size (out (app (initial_state enc_frame_size slot_pic out_pic)))
  <= INT64_MAX ->
  video_pts (out (app (initial_state enc_frame_size slot_pic out_pic))) = 0 /\
  audio_pts (out (app (initial_state enc_frame_size slot_pic out_pic))) = 0 /\
  exists s fs evs,
    main_loop g_cfg uninit envs
      (initial_state enc_frame_size slot_pic out_pic) = Some (s, fs, evs) /\
    pts_from 0 0
      (aframe_size (out (app (initial_state enc_frame_size slot_pic out_pic))))
      fs /\
    video_pts (out (app s)) = video_count fs /\
    audio_pts (out (app s))
    = aframe_size (out (app (initial_state enc_frame_size slot_pic out_pic)))
      * audio_count fs /\
    forall e1 e2 : list TickEnv,
      envs = e1 ++ e2 ->
      exists s1 fs1 evs1,
        main_loop g_cfg uninit e1
          (initial_state enc_frame_size slot_pic out_pic)
        = Some (s1, fs1, evs1) /\
        video_pts (out (app s1)) <= video_pts (out (app s)) /\
        audio_pts (out (app s1)) <= audio_pts (out (app s)).
Proof.
  intros Hfps Hsr Hmax.
  set (s0 := initial_state enc_frame_size slot_pic out_pic) in *.
  set (sz := aframe_size (out (app s0))) in *.
  assert (Hsz : 0 < sz) by apply aframe_size_pos.
  assert (Hinit : video_pts (out (app s0)) = 0 /\ audio_pts (out (app s0)) = 0)
    by (split; reflexivity).
  destruct Hinit as [Hv0 Ha0].
  assert (Ht0 : target_audio g_cfg (out (app s0)) = 0).
  { unfold target_audio. rewrite Hv0. reflexivity. }
  assert (Hin0 : in_int64 (audio_pts (out (app s0)))).
  { rewrite Ha0. unfold in_int64, INT64_MIN, INT64_MAX. lia. }
  split; [exact Hv0 |]. split; [exact Ha0 |].
  destruct (main_loop_clock g_cfg uninit envs Hfps Hsr s0) as
    (s & fs & evs & Hrun & Hpts & Hv & Ha & _ & _ & _ & _);
    [lia | exact Hin0 | fold sz; lia | fold sz; lia |].
  fold sz in Hpts, Ha. rewrite Hv0 in Hpts, Hv. rewrite Ha0 in Hpts, Ha.
  exists s, fs, evs.
  split; [exact Hrun |]. split; [exact Hpts |].
  split; [lia |]. split; [lia |].
  intros e1 e2 Hsplit.
  assert (Hlen : (length e1 <= length envs)%nat)
    by (rewrite Hsplit, length_app; lia).
  destruct (main_loop_clock g_cfg uninit e1 Hfps Hsr s0) as
    (s1 & fs1 & evs1 & Hrun1 & _ & Hv1 & Ha1 & Hf1 & Hcnt1 & Hover1 & _);
    [lia | exact Hin0 | fold sz; nia | fold sz; lia |].
  fold sz in Ha1, Hover1.
  exists s1, fs1, evs1. split; [exact Hrun1 |].
  (* the rest of the run starts from [s1] *)
  rewrite Hsplit, main_loop_app, Hrun1 in Hrun.
  destruct (count_nonneg fs1) as [Hc1 Hc1'].
  assert (Hsz1 : aframe_size (out (app s1)) = sz)
    by (unfold sz, aframe_size; rewrite Hf1; reflexivity).
  assert (Hlen2 : Z.of_nat (length envs)
                  = Z.of_nat (length e1) + Z.of_nat (length e2))
    by (rewrite Hsplit, length_app; lia).
  assert (Hv1' : 0 <= video_pts (out (app s1)) <= Z.of_nat (length e1)) by lia.
  assert (Hfit : (video_pts (out (app s1)) + Z.of_nat (length e2))
                 * sample_rate g_cfg + sz <= INT64_MAX) by nia.
  destruct (target_audio_value g_cfg (out (app s1)) Hfps Hsr) as [_ Ht1];
    [lia | nia |].
  destruct (main_loop_clock g_cfg uninit e2 Hfps Hsr s1) as
    (s2 & fs2 & evs2 & Hrun2 & _ & Hv2 & Ha2 & _);
    [ lia
    | unfold in_int64, INT64_MIN, INT64_MAX in *; nia
    | rewrite Hsz1; exact Hfit
    | rewrite Hsz1; exact Hover1 |].
  rewrite Hrun2 in Hrun. injection Hrun as <- _ _.
  destruct (count_nonneg fs2) as [Hc2 Hc2'].
  rewrite Hsz1 in Ha2. split; nia.
Qed.

Lemma output_clock_witness :
  (0 < out_fps default_config /\ 0 < sample_rate default_config /\
   2 * sample_rate default_config + 1024 <= INT64_MAX) /\
  exists s fs evs,
    main_loop default_config junk [bg_video_env; bg_audio_env] start
    = Some (s, fs, evs) /\
    pts_from 0 0 1024 fs /\
    video_pts (out (app s)) = video_count fs /\
    audio_pts (out (app s)) = 1024 * audio_count fs.
Proof.
  assert (H1 : 0 < out_fps default_config) by reflexivity.
  assert (H2 : 0 < sample_rate default_config) by reflexivity.
  assert (H3 : 2 * sample_rate default_config + 1024 <= INT64_MAX)
    by (vm_compute; discriminate).
  split; [repeat split; assumption |].
  destruct (output_clock default_config junk 1024 [] []
              [bg_video_env; bg_audio_env] H1 H2 H3)
    as (_ & _ & s & fs & evs & Hrun & Hpts & Hv & Ha & _).
  exists s, fs, evs. repeat split; assumption.
Defined.

(** The first tick of a run with the default configuration already leaves
    the audio clock ahead of the video clock: one video frame puts the target
    at 1600 samples, and two audio frames of 1024 samples are encoded to
    reach it. *)
Lemma audio_overshoots_first_tick :
  exists r,
    tick default_config junk bg_video_env start = Some r /\
    audio_mode (next r) = AUDIO_BG /\
    video_pts (out (app (next r))) = 1 /\
    target_audio default_config (out (app (next r))) = 1600 /\
    audio_pts (out (app (next r))) = 2048 /\
    ~ audio_pts (out (app (next r)))
      <= target_audio default_config (out (app (next r))).
Proof.
  destruct (tick default_config junk bg_video_env start) as [r |] eqn:Htick;
    [| vm_compute in Htick; discriminate].
  exists r. split; [reflexivity |].
  assert (Hr : (audio_mode (next r), video_pts (out (app (next r))),
                audio_pts (out (app (next r))))
               = (AUDIO_BG, 1, 2048)).
  { vm_compute in Htick. injection Htick as <-. reflexivity. }
  injection Hr as Hm Hv Ha.
  assert (Ht : target_audio default_config (out (app (next r))) = 1600)
    by (unfold target_audio; rewrite Hv; reflexivity).
  repeat split; try assumption. rewrite Ha, Ht. lia.
Qed.

(** C1, as the loop is written.  After every tick of a run from the start
    state the audio clock is less than one audio frame ahead of its target
    [(video_pts * sample_rate) / fps]; after a tick that ends in BG or in GRACE
    it has reached the target, and after a tick in SRT it may be short of it. *)
Theorem audio_clock_within_one_frame (g_cfg : Config)
  (uninit : nat -> fsample) (enc_frame_size : Z) (slot_pic out_pic : picture)
  (envs : list TickEnv) :
  0 < out_fps g_cfg -> 0 < sample_rate g_cfg ->
  Z.of_nat (length envs) * sample_rate g_cfg
  + aframe_size (out (app (initial_state enc_frame_size slot_pic out_pic)))
  <= INT64_MAX ->
  exists s fs evs,
    main_loop g_cfg uninit envs
      (initial_state enc_frame_size slot_pic out_pic) = Some (s, fs, evs) /\
    audio_pts (out (app s))
      < target_audio g_cfg (out (app s)) + aframe_size (out (app s)) /\
    (envs <> [] -> audio_mode s <> AUDIO_SRT ->
     target_audio g_cfg (out (app s)) <= audio_pts (out (app s))).
Proof.
  intros Hfps Hsr Hmax.
  set (s0 := initial_state enc_frame_size slot_pic out_pic) in *.
  pose proof (aframe_size_pos (out (app s0))) as Hsz.
  destruct (main_loop_clock g_cfg uninit envs Hfps Hsr s0) as
    (s & fs & evs & Hrun & _ & _ & _ & Hf & _ & Hover & Hcatch).
  - cbn. lia.
  - cbn. unfold in_int64, INT64_MIN, INT64_MAX. lia.
  - exact Hmax.
  - assert (Ht0 : target_audio g_cfg (out (app s0)) = 0)
      by (unfold target_audio; reflexivity).
    rewrite Ht0. change (audio_pts (out (app s0))) with 0. lia.
  - exists s, fs, evs. split; [exact Hrun |].
    replace (aframe_size (out (app s))) with (aframe_size (out (app s0)))
      by (unfold aframe_size; rewrite Hf; reflexivity).
    split; assumption.
Qed.

Lemma audio_clock_within_one_frame_witness :
  (0 < out_fps default_config /\ 0 < sample_rate default_config /\
   2 * sample_rate default_config + 1024 <= INT64_MAX) /\
  exists s fs evs,
    main_loop default_config junk [bg_video_env; bg_audio_env] start
    = Some (s, fs, evs) /\
    audio_pts (out (app s))
      < target_audio default_config (out (app s)) + aframe_size (out (app s)).
Proof.
  assert (H1 : 0 < out_fps default_config) by reflexivity.
  assert (H2 : 0 < sample_rate default_config) by reflexivity.
  assert (H3 : 2 * sample_rate default_config + 1024 <= INT64_MAX)
    by (vm_compute; discriminate).
  split; [repeat split; assumption |].
  destruct (audio_clock_within_one_frame default_config junk 1024 [] []
              [bg_video_env; bg_audio_env] H1 H2 H3)
    as (s & fs & evs & Hrun & Hover & _).
  exists s, fs, evs. split; assumption.
Defined.

(* ================================================================== *)
(** * The video frame of a tick *)
(* ================================================================== *)

Section FrameFacts.

Variable g_cfg : Config.
Variable uninit : nat -> fsample.

Lemma audio_loop_only_audio (mode : AudioMode) (sz target : Z) (env : TickEnv)
  (fuel k : nat) (a a' : AppState) (k' : nat) (fs : list OutFrame) :
  audio_loop uninit fuel mode sz target env k a = Some (a', k', fs) ->
  filter is_video fs = [].
Proof.
  revert k a a' k' fs.
  induction fuel as [| fuel IH]; intros k a a' k' fs; cbn [audio_loop].
  - destruct (audio_pts (out a) <? target); [discriminate |].
    intros H. injection H as _ _ <-. reflexivity.
  - destruct (audio_pts (out a) <? target).
    + destruct (audio_body uninit mode sz env k a) as [[[a1 k1] f] |].
      * destruct (audio_loop uninit fuel mode sz target env k1 a1)
          as [[[a2 k2] fs2] |] eqn:Hrest; [| discriminate].
        intros H. injection H as _ _ <-. cbn.
        exact (IH _ _ _ _ _ Hrest).
      * intros H. injection H as _ _ <-. reflexivity.
    + intros H. injection H as _ _ <-. reflexivity.
Qed.

(** What a finished tick is made of. *)
Lemma tick_parts (env : TickEnv) (s : LoopState) (r : TickResult) :
  tick g_cfg uninit env s = Some r ->
  exists a k aframes,
    audio_loop uninit
      (Z.to_nat (target_audio g_cfg (out (app_now (before_audio g_cfg env s)))
                 - audio_pts (out (app_now (before_audio g_cfg env s)))))
      (mode_now (before_audio g_cfg env s)) (aframe_size (out (app s)))
      (target_audio g_cfg (out (app_now (before_audio g_cfg env s)))) env
      (sections (before_audio g_cfg env s))
      (app_now (before_audio g_cfg env s)) = Some (a, k, aframes) /\
    frames r = vframes (before_audio g_cfg env s) ++ aframes /\
    audio_mode (next r) = mode_now (before_audio g_cfg env s) /\
    srt_drop_time (next r) = drop_time_now (before_audio g_cfg env s) /\
    out (app (next r)) = out a /\
    srt_local_fifo (app (next r)) = srt_local_fifo a.
Proof.
  unfold tick.
  destruct (audio_loop _ _ _ _ _ _ _ _) as [[[a k] aframes] |] eqn:Hloop;
    [| discriminate].
  pose proof (stats_block_keeps g_cfg env k
                (mode_now (before_audio g_cfg env s)) (stats_ticker s) a)
    as [Hso Hsq].
  destruct (stats_block _ _ _ _ _ _) as [[ticker a''] evs].
  intros H. injection H as <-. cbn [fst snd] in *.
  exists a, k, aframes. cbn. repeat split; assumption || reflexivity.
Qed.

(** The video frame of a tick, as the loop is written.  A tick in range
    ends and encodes at most one video frame: the picture sampled from the
    shared slot when the reader is connected and has stored one; otherwise
    the background frame decoded in this tick, when one of its five packets
    gave one; otherwise no video frame at all, on whichever tick that
    happens.  [video_pts] advances by the number of video frames encoded. *)
Theorem video_frame_of_tick (env : TickEnv) (s : LoopState) :
  in_range g_cfg s ->
  exists r,
    tick g_cfg uninit env s = Some r /\
    filter is_video (frames r) =
      (if connected (slot_at_sample env s) && has_video (slot_at_sample env s)
       then [Video (video_pts (out (app s)))
               (video_data (slot_at_sample env s))]
       else match first_bg_video 5 0 (bg_reads env) with
            | Some pic => [Video (video_pts (out (app s))) pic]
            | None => []
            end) /\
    video_count (frames r) <= 1 /\
    video_pts (out (app (next r)))
    = video_pts (out (app s)) + video_count (frames r).
Proof.
  intros Hrange.
  destruct (tick_clock g_cfg uninit env s Hrange)
    as (r & Htick & _ & Hv & _ & _ & Hle & _).
  exists r. split; [exact Htick |].
  split; [| split; assumption].
  destruct (tick_parts env s r Htick) as (a & k & aframes & Hloop & Hfr & _).
  rewrite Hfr, filter_app, (audio_loop_only_audio _ _ _ _ _ _ _ _ _ _ Hloop).
  rewrite app_nil_r, before_audio_vframes, before_audio_use.
  destruct (connected _ && has_video _); [reflexivity |].
  destruct (first_bg_video 5 0 (bg_reads env)); reflexivity.
Qed.

End FrameFacts.

Lemma video_frame_of_tick_witness :
  in_range default_config start /\
  exists r,
    tick default_config junk bg_video_env start = Some r /\
    filter is_video (frames r) = [Video 0 [16; 128; 128]] /\
    video_pts (out (app (next r))) = 1.
Proof.
  assert (Hrange : in_range default_config start).
  { unfold in_range. repeat split; vm_compute; reflexivity || discriminate. }
  split; [exact Hrange |].
  destruct (video_frame_of_tick default_config junk bg_video_env start Hrange)
    as (r & Htick & Hvideo & _ & Hpts).
  exists r. split; [exact Htick |].
  split; [exact Hvideo |].
  rewrite Hpts. unfold video_count. rewrite Hvideo. reflexivity.
Defined.

(** C3, where the loop departs from it.  After a first tick that encoded a
    background frame, a tick in which the five background packets are all
    audio, with the reader not connected, encodes no video frame:
    [video_pts] stays at 1, where one frame per tick would make it 2.  The
    last picture is not encoded again, although [out_frame] still holds
    it. *)
Lemma later_tick_without_video :
  exists r1 r2,
    tick default_config junk bg_video_env start = Some r1 /\
    video_count (frames r1) = 1 /\
    tick default_config junk bg_audio_env (next r1) = Some r2 /\
    video_count (frames r2) = 0 /\
    video_pts (out (app (next r2))) = 1 /\
    out_frame (app (next r2)) = [16; 128; 128].
Proof.
  destruct (tick default_config junk bg_video_env start) as [r1 |] eqn:H1;
    [| vm_compute in H1; discriminate].
  destruct (tick default_config junk bg_audio_env (next r1)) as [r2 |] eqn:H2;
    [| vm_compute in H1; injection H1 as <-;
       vm_compute in H2; discriminate].
  exists r1, r2.
  vm_compute in H1. injection H1 as <-.
  vm_compute in H2. injection H2 as <-.
  repeat split; reflexivity.
Qed.

(* ================================================================== *)
(** * Audio in the SRT state *)
(* ================================================================== *)

Section SrtFacts.

Variable g_cfg : Config.
Variable uninit : nat -> fsample.

(** The first block of "Audio" in SRT mode keeps the newest [srt_max_buf]
    samples of the local queue followed by the slot's queue, and empties the
    slot's queue. *)
Lemma drain_and_trim_spec (ops : list ReaderOp) (a : AppState) :
  0 <= sample_rate g_cfg <= 7158278 ->
  av_audio_fifo_size
    (srt_local_fifo a ++ audio_fifo (reader_ops (shared a) ops)) <= INT_MAX ->
  srt_max_buf g_cfg = sample_rate g_cfg * 300 / 1000 /\
  srt_local_fifo (drain_and_trim g_cfg ops a)
  = skipn (length (srt_local_fifo a ++ audio_fifo (reader_ops (shared a) ops))
           - Z.to_nat (srt_max_buf g_cfg))
      (srt_local_fifo a ++ audio_fifo (reader_ops (shared a) ops)) /\
  audio_fifo (shared (drain_and_trim g_cfg ops a)) = [].
Proof.
  intros Hsr Hfit.
  assert (Hmax : srt_max_buf g_cfg = sample_rate g_cfg * 300 / 1000).
  { unfold srt_max_buf, c_div.
    rewrite int32_in_range by (unfold in_int, INT_MIN, INT_MAX; lia).
    apply Z.quot_div_nonneg; lia. }
  assert (Hmax0 : 0 <= srt_max_buf g_cfg)
    by (rewrite Hmax; apply Z.div_pos; lia).
  split; [exact Hmax |].
  unfold drain_and_trim.
  set (sh := reader_ops (shared a) ops) in *.
  set (m := srt_max_buf g_cfg) in *.
  assert (Hdrain :
    (if av_audio_fifo_size (audio_fifo sh) >? 0
     then let '(tbuf, shq) :=
            av_audio_fifo_read (audio_fifo sh)
              (av_audio_fifo_size (audio_fifo sh)) in
          (shq, av_audio_fifo_write (srt_local_fifo a) tbuf)
     else (audio_fifo sh, srt_local_fifo a))
    = ([], srt_local_fifo a ++ audio_fifo sh)).
  { destruct (Z.gtb_spec (av_audio_fifo_size (audio_fifo sh)) 0) as [Hpos | H0].
    - rewrite fifo_read_whole. reflexivity.
    - destruct (audio_fifo sh) as [| x q].
      + rewrite app_nil_r. reflexivity.
      + unfold av_audio_fifo_size in H0. cbn in H0. lia. }
  rewrite Hdrain. clear Hdrain.
  set (all := srt_local_fifo a ++ audio_fifo sh) in *.
  cbn [shared audio_fifo srt_local_fifo set_srt_local_fifo set_shared
       set_audio_fifo].
  split; [| reflexivity].
  unfold av_audio_fifo_size in *.
  destruct (Z.gtb_spec (Z.of_nat (length all)) m) as [Hover | Hfits].
  - rewrite int32_in_range by (unfold in_int, INT_MIN, INT_MAX in *; lia).
    unfold av_audio_fifo_read.
    destruct (Z.ltb_spec (Z.of_nat (length all) - m) 0) as [Hneg | _]; [lia |].
    cbn [snd]. f_equal. lia.
  - replace (length all - Z.to_nat m)%nat with 0%nat by lia. reflexivity.
Qed.

(** The state the drain starts from in a tick that is in SRT. *)
Lemma before_audio_srt (env : TickEnv) (s : LoopState) :
  mode_now (before_audio g_cfg env s) = AUDIO_SRT ->
  exists a,
    app_now (before_audio g_cfg env s)
    = drain_and_trim g_cfg (reader env 1) a /\
    srt_local_fifo a = srt_local_fifo (app s) /\
    shared a = slot_at_sample env s.
Proof.
  rewrite before_audio_fields. cbn [mode_now app_now]. intros ->.
  eexists. split; [reflexivity |].
  destruct (decode_background_keeps 5 0 (bg_reads env) false (app s))
    as (_ & Hsh & Hq & _).
  set (a1 := snd (decode_background 5 0 (bg_reads env) false (app s))) in *.
  destruct (check_srt_shared_keeps
              (set_shared a1 (reader_ops (shared a1) (reader env 0))))
    as (_ & Hsh2 & Hq2 & _).
  set (c := check_srt_shared _) in *.
  match goal with
  | |- context [video_output ?u ?h ?x] =>
      destruct (video_output_cases u h x) as (Hq3 & Hsh3 & _)
  end.
  split.
  - rewrite Hq3. cbn. rewrite Hq2. cbn. exact Hq.
  - rewrite Hsh3. cbn. rewrite Hsh2. cbn. unfold slot_at_sample.
    rewrite Hsh. reflexivity.
Qed.

(** C7.  In a tick that is in SRT, when the encode phase begins the local
    queue holds at most [(sample_rate * 300) / 1000] samples: it is what is
    left of the old local queue followed by everything the slot held, after
    the oldest samples in excess were dropped; the slot's queue is empty. *)
Theorem srt_local_queue_bounded (env : TickEnv) (s : LoopState) :
  0 <= sample_rate g_cfg <= 7158278 ->
  av_audio_fifo_size
    (srt_local_fifo (app s) ++ audio_fifo (slot_at_drain env s)) <= INT_MAX ->
  mode_now (before_audio g_cfg env s) = AUDIO_SRT ->
  av_audio_fifo_size (srt_local_fifo (app_now (before_audio g_cfg env s)))
    <= sample_rate g_cfg * 300 / 1000 /\
  (exists dropped,
     srt_local_fifo (app s) ++ audio_fifo (slot_at_drain env s)
     = dropped ++ srt_local_fifo (app_now (before_audio g_cfg env s)) /\
     (dropped = [] \/
      av_audio_fifo_size (srt_local_fifo (app_now (before_audio g_cfg env s)))
      = sample_rate g_cfg * 300 / 1000)) /\
  audio_fifo (shared (app_now (before_audio g_cfg env s))) = [].
Proof.
  intros Hsr Hfit Hmode.
  destruct (before_audio_srt env s Hmode) as (a & -> & Hq & Hsh).
  unfold slot_at_drain in *. rewrite <- Hsh, <- Hq in *.
  destruct (drain_and_trim_spec (reader env 1) a Hsr Hfit)
    as (Hmax & -> & Hempty).
  set (all := srt_local_fifo a ++ audio_fifo (reader_ops (shared a) (reader env 1)))
    in *.
  rewrite <- Hmax.
  assert (Hmax0 : 0 <= srt_max_buf g_cfg)
    by (rewrite Hmax; apply Z.div_pos; lia).
  split; [| split; [| exact Hempty]].
  - unfold av_audio_fifo_size. rewrite length_skipn. lia.
  - exists (firstn (length all - Z.to_nat (srt_max_buf g_cfg)) all).
    split; [symmetry; apply firstn_skipn |].
    destruct (Nat.le_gt_cases (length all) (Z.to_nat (srt_max_buf g_cfg)))
      as [Hle | Hgt].
    + left. replace (length all - Z.to_nat (srt_max_buf g_cfg))%nat
        with 0%nat by lia. reflexivity.
    + right. unfold av_audio_fifo_size. rewrite length_skipn. lia.
Qed.

End SrtFacts.

Lemma srt_local_queue_bounded_witness :
  (0 <= sample_rate default_config <= 7158278 /\
   mode_now (before_audio default_config srt_burst_env start) = AUDIO_SRT) /\
  av_audio_fifo_size
    (srt_local_fifo (app_now (before_audio default_config srt_burst_env start)))
  <= 14400.
Proof.
  assert (H1 : 0 <= sample_rate default_config <= 7158278)
    by (split; vm_compute; discriminate).
  assert (H2 : av_audio_fifo_size
                 (srt_local_fifo (app start)
                  ++ audio_fifo (slot_at_drain srt_burst_env start))
               <= INT_MAX) by (vm_compute; discriminate).
  assert (H3 : mode_now (before_audio default_config srt_burst_env start)
               = AUDIO_SRT) by (vm_compute; reflexivity).
  split; [split; assumption |].
  destruct (srt_local_queue_bounded default_config srt_burst_env start H1 H2 H3)
    as (Hbound & _).
  exact Hbound.
Defined.

Section SrtLoopFacts.

Variable g_cfg : Config.
Variable uninit : nat -> fsample.

(** In SRT the loop cuts whole frames from the local queue and stops as soon
    as the clock has caught up or less than a frame is left; it touches
    nothing else. *)
Lemma audio_loop_srt (sz target : Z) (env : TickEnv) :
  0 < sz -> target + sz <= INT64_MAX + 1 ->
  forall (fuel k : nat) (a : AppState),
    in_int64 (audio_pts (out a)) ->
    (Z.to_nat (target - audio_pts (out a)) <= fuel)%nat ->
    exists (n : nat) (a' : AppState),
      audio_loop uninit fuel AUDIO_SRT sz target env k a
      = Some (a', k,
              map Audio (whole_frames sz (audio_pts (out a)) n
                           (srt_local_fifo a))) /\
      Z.of_nat n * sz <= av_audio_fifo_size (srt_local_fifo a) /\
      srt_local_fifo a' = skipn (n * Z.to_nat sz) (srt_local_fifo a) /\
      (target <= audio_pts (out a') \/
       av_audio_fifo_size (srt_local_fifo a') < sz).
Proof.
  intros Hsz Htarget.
  induction fuel as [| fuel IH]; intros k a Hin Hfuel; cbn [audio_loop].
  - destruct (Z.ltb_spec (audio_pts (out a)) target) as [Hlt | Hge]; [lia |].
    exists 0%nat, a. cbn. pose proof (fifo_size_nonneg (srt_local_fifo a)).
    repeat split; lia.
  - destruct (Z.ltb_spec (audio_pts (out a)) target) as [Hlt | Hge].
    + unfold audio_body.
      destruct (Z.geb_spec (av_audio_fifo_size (srt_local_fifo a)) sz)
        as [Hwhole | Hshort].
      * rewrite encode_whole_frame by lia.
        set (a1 := set_srt_local_fifo _ _).
        assert (Hadd : audio_pts (out a1) = audio_pts (out a) + sz).
        { cbn. apply int64_in_range.
          unfold in_int64, INT64_MIN, INT64_MAX in *. lia. }
        destruct (IH k a1) as (n & a' & Hloop & Hn & Hq & Hstop).
        { rewrite Hadd. unfold in_int64, INT64_MIN, INT64_MAX in *. lia. }
        { rewrite Hadd. lia. }
        rewrite Hloop. exists (S n), a'.
        assert (Hq1 : srt_local_fifo a1 = skipn (Z.to_nat sz) (srt_local_fifo a))
          by reflexivity.
        rewrite Hq1 in *. rewrite Hadd.
        split; [reflexivity |].
        split.
        { unfold av_audio_fifo_size in *. rewrite length_skipn in Hn. lia. }
        split; [| exact Hstop].
        rewrite Hq, skipn_skipn. f_equal. lia.
      * exists 0%nat, a. cbn.
        pose proof (fifo_size_nonneg (srt_local_fifo a)).
        repeat split; lia.
    + exists 0%nat, a. cbn. pose proof (fifo_size_nonneg (srt_local_fifo a)).
      repeat split; lia.
Qed.

(** C5.  A tick in range whose audio state is SRT ends; it encodes its video
    frame, the picture sampled from the slot, and then only whole audio
    frames cut from the local queue as it stood when the encode phase began,
    never a padded one; the samples not encoded stay queued.  With less than
    one frame queued it encodes no audio frame at all.  The audio loop stops
    because the clock has caught up or because less than a frame is left. *)
Theorem srt_whole_frames_only (env : TickEnv) (s : LoopState) :
  in_range g_cfg s ->
  mode_now (before_audio g_cfg env s) = AUDIO_SRT ->
  exists (r : TickResult) (n : nat),
    tick g_cfg uninit env s = Some r /\
    audio_mode (next r) = AUDIO_SRT /\
    frames r
    = Video (video_pts (out (app s))) (video_data (slot_at_sample env s))
      :: map Audio
           (whole_frames (aframe_size (out (app s))) (audio_pts (out (app s)))
              n (srt_local_fifo (app_now (before_audio g_cfg env s)))) /\
    Z.of_nat n * aframe_size (out (app s))
    <= av_audio_fifo_size
         (srt_local_fifo (app_now (before_audio g_cfg env s))) /\
    srt_local_fifo (app (next r))
    = skipn (n * Z.to_nat (aframe_size (out (app s))))
        (srt_local_fifo (app_now (before_audio g_cfg env s))) /\
    (av_audio_fifo_size (srt_local_fifo (app_now (before_audio g_cfg env s)))
       < aframe_size (out (app s)) ->
     frames r
     = [Video (video_pts (out (app s))) (video_data (slot_at_sample env s))]
     /\ audio_pts (out (app (next r))) = audio_pts (out (app s))) /\
    (target_audio g_cfg (out (app (next r))) <= audio_pts (out (app (next r)))
     \/ av_audio_fifo_size (srt_local_fifo (app (next r)))
        < aframe_size (out (app s))).
Proof.
  intros Hrange Hmode.
  pose proof Hrange as (Hfps & Hsr & Hv & Hmax & Hin).
  pose proof (aframe_size_pos (out (app s))) as Hsz.
  destruct (tick_clock g_cfg uninit env s Hrange)
    as (r & Htick & _ & _ & Hapts & _).
  destruct (tick_parts g_cfg uninit env s r Htick)
    as (a & k & aframes & Hloop & Hfr & Hm & _ & Ho & Hq).
  set (b := before_audio g_cfg env s) in *.
  set (sz := aframe_size (out (app s))) in *.
  (* the frame of the slot has been encoded *)
  assert (Huse : use_srt_video b = true) by (apply before_audio_mode; exact Hmode).
  assert (Hvf : vframes b
                = [Video (video_pts (out (app s)))
                     (video_data (slot_at_sample env s))]).
  { unfold b. rewrite before_audio_vframes. fold b. rewrite Huse. reflexivity. }
  assert (Hob : out (app_now b)
                = set_video_pts (out (app s))
                    (int64 (video_pts (out (app s)) + 1))).
  { destruct (before_audio_clock g_cfg env s) as [[Hnil _] | (pic & _ & Hob)];
      [fold b in Hnil; rewrite Hvf in Hnil; discriminate | exact Hob]. }
  assert (Hvb : video_pts (out (app_now b)) = video_pts (out (app s)) + 1).
  { rewrite Hob. cbn. apply int64_in_range.
    unfold in_int64, INT64_MIN, INT64_MAX in *. nia. }
  assert (Hab : audio_pts (out (app_now b)) = audio_pts (out (app s)))
    by (rewrite Hob; reflexivity).
  destruct (target_audio_value g_cfg (out (app_now b)) Hfps Hsr) as [_ Htb];
    [lia | rewrite Hvb; nia |].
  rewrite Hmode in Hloop.
  destruct (audio_loop_srt sz (target_audio g_cfg (out (app_now b))) env Hsz
              ltac:(rewrite Hvb in Htb; fold sz in Hmax; nia)
              (Z.to_nat (target_audio g_cfg (out (app_now b))
                         - audio_pts (out (app_now b))))
              (sections b) (app_now b))
    as (n & a' & Hloop' & Hn & Hq' & Hstop).
  { rewrite Hab. exact Hin. }
  { lia. }
  rewrite Hloop' in Hloop. injection Hloop as <- _ <-.
  rewrite Hab in *.
  assert (Htarget : target_audio g_cfg (out (app (next r)))
                    = target_audio g_cfg (out (app_now b))).
  { unfold target_audio. rewrite Ho.
    assert (Hva : video_pts (out a') = video_pts (out (app_now b))).
    { destruct (audio_loop_clock uninit AUDIO_SRT sz
                  (target_audio g_cfg (out (app_now b))) env Hsz
                  ltac:(rewrite Hvb in Htb; fold sz in Hmax; nia)
                  (Z.to_nat (target_audio g_cfg (out (app_now b))
                             - audio_pts (out (app s))))
                  (sections b) (app_now b))
        as (a2 & k2 & fs2 & Hloop2 & _ & _ & Hv2 & _);
        [rewrite Hab; exact Hin | rewrite Hab; lia |].
      rewrite Hloop' in Hloop2. injection Hloop2 as <- _ _. exact Hv2. }
    rewrite Hva. reflexivity. }
  exists r, n.
  split; [exact Htick |]. split; [congruence |].
  split; [rewrite Hfr, Hvf; reflexivity |].
  split; [exact Hn |].
  split; [rewrite Hq; exact Hq' |].
  split.
  - intros Hthin.
    assert (n = 0%nat) as -> by nia.
    split; [rewrite Hfr, Hvf; reflexivity |].
    rewrite Hapts, Hfr, Hvf. cbn. lia.
  - rewrite Htarget, Ho, Hq. exact Hstop.
Qed.

End SrtLoopFacts.

Lemma srt_whole_frames_only_witness :
  (in_range default_config start /\
   mode_now (before_audio default_config srt_thin_env start) = AUDIO_SRT /\
   av_audio_fifo_size
     (srt_local_fifo (app_now (before_audio default_config srt_thin_env start)))
   = 500) /\
  exists r,
    tick default_config junk srt_thin_env start = Some r /\
    frames r = [Video 0 [235; 128; 128]] /\
    audio_pts (out (app (next r))) = 0 /\
    av_audio_fifo_size (srt_local_fifo (app (next r))) = 500.
Proof.
  assert (H1 : in_range default_config start).
  { unfold in_range. repeat split; vm_compute; reflexivity || discriminate. }
  assert (H2 : mode_now (before_audio default_config srt_thin_env start)
               = AUDIO_SRT) by (vm_compute; reflexivity).
  assert (H3 : av_audio_fifo_size
                 (srt_local_fifo
                    (app_now (before_audio default_config srt_thin_env start)))
               = 500) by (vm_compute; reflexivity).
  split; [split; [exact H1 | split; [exact H2 | exact H3]] |].
  destruct (srt_whole_frames_only default_config junk srt_thin_env start H1 H2)
    as (r & n & Htick & _ & _ & Hn & Hq & Hthin & _).
  exists r. split; [exact Htick |].
  rewrite H3 in Hn, Hthin.
  destruct Hthin as [Hfr Hpts]; [vm_compute; reflexivity |].
  assert (n = 0%nat) as ->
    by (change (aframe_size (out (app start))) with 1024 in Hn; lia).
  rewrite Hq. split; [exact Hfr |]. split; [exact Hpts | exact H3].
Defined.

(* ================================================================== *)
(** * The audio source machine *)
(* ================================================================== *)



(* ================================================================== *)
(** * The reader's disconnect *)
(* ================================================================== *)

(** On a read error, and on a liveness timeout, the reader's last critical
    section clears [connected] and [has_video] and nothing else: the sample
    queued in the slot is still there. *)
Lemma disconnect_keeps_audio :
  snd (fst (srt_thread_iter default_config true read_fails live_slot))
  = [RdDisconnected] /\
  snd (fst (srt_thread_iter default_config true goes_quiet live_slot))
  = [RdDisconnected] /\
  connected (reader_ops live_slot [RdDisconnected]) = false /\
  has_video (reader_ops live_slot [RdDisconnected]) = false /\
  audio_fifo (reader_ops live_slot [RdDisconnected]) = [(one_f, one_f)] /\
  audio_fifo (reader_ops live_slot [RdDisconnected]) <> [].
Proof.
  repeat split; try (vm_compute; reflexivity).
  vm_compute. discriminate.
Qed.

(** C4, as the reader is written.  The disconnect taken on a read error and
    on a liveness timeout sets [connected] to false and clears [has_video];
    it leaves the slot's audio queue, picture and activity time as they are.
    It is the last critical section of every iteration that logs
    [srt_dropped]: a read error on an open session does, and so does an
    elapsed time above [srt_timeout_us].  The audio queue is reset when the
    reader connects. *)
Theorem reader_disconnect (g_cfg : Config) (sh : SrtShared) :
  (connected (reader_op sh RdDisconnected) = false /\
   has_video (reader_op sh RdDisconnected) = false /\
   audio_fifo (reader_op sh RdDisconnected) = audio_fifo sh /\
   video_data (reader_op sh RdDisconnected) = video_data sh /\
   last_frame_time (reader_op sh RdDisconnected) = last_frame_time sh) /\
  (forall now,
     connected (reader_op sh (RdConnected now)) = true /\
     has_video (reader_op sh (RdConnected now)) = false /\
     audio_fifo (reader_op sh (RdConnected now)) = []) /\
  (forall (src_open : bool) (inp : ReaderIn) (reason : DropReason),
     In (srt_dropped reason) (snd (srt_thread_iter g_cfg src_open inp sh)) ->
     fst (fst (srt_thread_iter g_cfg src_open inp sh)) = false /\
     exists ops,
       snd (fst (srt_thread_iter g_cfg src_open inp sh))
       = ops ++ [RdDisconnected]) /\
  (forall inp : ReaderIn,
     ri_packet inp = PktReadError ->
     In (srt_dropped read_error)
        (snd (srt_thread_iter g_cfg true inp sh))) /\
  (forall inp : ReaderIn,
     ri_packet inp <> PktReadError ->
     int64 (ri_now inp
            - last_frame_time (reader_ops sh (packet_ops (ri_packet inp))))
       > srt_timeout_us g_cfg ->
     In (srt_dropped timeout) (snd (srt_thread_iter g_cfg true inp sh))).
Proof.
  split; [repeat split |].
  split; [intros now; repeat split |].
  split; [| split].
  - intros src_open inp reason Hin.
    unfold srt_thread_iter in *.
    set (opened := if src_open then Some ([], []) else _) in *.
    assert (Hev : forall ops1 ev1,
               opened = Some (ops1, ev1) -> ~ In (srt_dropped reason) ev1).
    { unfold opened. intros ops1 ev1.
      destruct src_open; [| destruct (ri_open inp)];
        intros H; inversion H; subst; cbn; intuition discriminate. }
    destruct opened as [[ops1 ev1] |].
    + specialize (Hev ops1 ev1 eq_refl).
      destruct (ri_packet inp) as [| scaled t | converted t |].
      * split; [reflexivity | exists ops1; reflexivity].
      * destruct (_ >? _); cbn [fst snd] in *;
          [split; [reflexivity | eexists; reflexivity] | contradiction].
      * destruct (_ >? _); cbn [fst snd] in *;
          [split; [reflexivity | eexists; reflexivity] | contradiction].
      * destruct (_ >? _); cbn [fst snd] in *;
          [split; [reflexivity | eexists; reflexivity] | contradiction].
    + destruct (ri_open inp) as [[|] | now]; cbn in Hin;
        intuition discriminate.
  - intros inp Hpkt. unfold srt_thread_iter. rewrite Hpkt. cbn.
    left. reflexivity.
  - intros inp Hpkt Hlate. unfold srt_thread_iter.
    cbn [List.app] in *.
    destruct (ri_packet inp) as [| scaled t | converted t |];
      [contradiction | | |];
      match goal with
      | |- context [?x >? ?y] => destruct (Z.gtb_spec x y) as [_ | Hle]
      end;
      solve [cbn; left; reflexivity | lia].
Qed.

(* ================================================================== *)
(** * Audio in the GRACE state *)
(* ================================================================== *)

(** Each pass of the loop in GRACE leaves the local queue and the slot's queue
    empty, and a frame encoded from an empty local queue is silence. *)
Lemma grace_pass (uninit : nat -> fsample) (sz : Z) (env : TickEnv) (k : nat)
  (a a1 : AppState) (k1 : nat) (f : AudioFrame) :
  audio_body uninit AUDIO_GRACE sz env k a = Some (a1, k1, f) ->
  srt_local_fifo a1 = [] /\
  audio_fifo (shared a1) = [] /\
  (0 < sz -> sz * 4 <= INT_MAX -> srt_local_fifo a = [] -> silent_frame f).
Proof.
  unfold audio_body. intros H.
  destruct (encode_one_audio_frame uninit (out a) (srt_local_fifo a) sz)
    as [[o q] f0] eqn:Henc.
  injection H as <- _ <-. cbn.
  split; [reflexivity |]. split; [reflexivity |].
  intros Hsz Hmax Hempty. rewrite Hempty in Henc.
  rewrite encode_short_frame in Henc by (cbn; lia).
  injection Henc as _ _ <-. unfold silent_frame, silent. cbn.
  split; apply Forall_forall; intros x Hx; apply repeat_spec in Hx; exact Hx.
Qed.

Lemma silent_zeros (p : list fsample) (n : nat) : p = repeat 0 n -> silent p.
Proof.
  intros ->. unfold silent. apply Forall_forall.
  intros x Hx. apply repeat_spec in Hx. exact Hx.
Qed.

(** C2, where the loop departs from it.  A tick in SRT leaves 1952 inbound
    samples in the local queue; before the next tick the reader drops the
    session.  That tick is in GRACE, and its first audio frame is read from
    the local queue before the queue is reset: it carries 1024 of the stale
    samples (here all [1.0f]), not silence.  The second frame of the tick is
    silence, and both queues are empty afterwards. *)
Theorem grace_first_frame_is_stale :
  exists r1 r2 f g,
    tick default_config junk srt_talk_env start = Some r1 /\
    audio_mode (next r1) = AUDIO_SRT /\
    av_audio_fifo_size (srt_local_fifo (app (next r1))) = 1952 /\
    tick default_config junk srt_lost_env (next r1) = Some r2 /\
    audio_mode (next r2) = AUDIO_GRACE /\
    filter is_audio (frames r2) = [Audio f; Audio g] /\
    data0 f = repeat one_f (Z.to_nat 1024) /\
    data1 f = repeat one_f (Z.to_nat 1024) /\
    ~ silent_frame f /\
    silent_frame g /\
    srt_local_fifo (app (next r2)) = [] /\
    audio_fifo (shared (app (next r2))) = [].
Proof.
  do 4 eexists.
  split; [vm_compute; reflexivity |].
  split; [reflexivity |].
  split; [vm_compute; reflexivity |].
  split; [vm_compute; reflexivity |].
  split; [reflexivity |].
  split; [vm_compute; reflexivity |].
  split; [vm_compute; reflexivity |].
  split; [vm_compute; reflexivity |].
  split.
  { intros [Hsilent _]. cbn [data0] in Hsilent.
    inversion Hsilent as [| x l Hx _]. discriminate Hx. }
  split.
  { split; apply (silent_zeros _ (Z.to_nat 1024)); vm_compute; reflexivity. }
  split; reflexivity.
Qed.

(** A loop that encoded nothing changed nothing. *)
Lemma audio_loop_no_frame (uninit : nat -> fsample) (mode : AudioMode)
  (sz target : Z) (env : TickEnv) (fuel k : nat) (a a' : AppState) (k' : nat) :
  audio_loop uninit fuel mode sz target env k a = Some (a', k', []) ->
  a' = a /\ k' = k.
Proof.
  destruct fuel as [| fuel]; cbn [audio_loop];
    destruct (audio_pts (out a) <? target); try discriminate;
    try (intros H; injection H as <- <-; split; reflexivity).
  destruct (audio_body uninit mode sz env k a) as [[[a1 k1] f] |].
  - destruct (audio_loop uninit fuel mode sz target env k1 a1)
      as [[[a2 k2] fs2] |]; discriminate.
  - intros H; injection H as <- <-; split; reflexivity.
Qed.

(** After the first pass of the loop in GRACE the local queue is empty, so
    every later frame of the loop is silence; the loop leaves both queues
    empty when it encoded at least one frame. *)
Lemma audio_loop_grace (uninit : nat -> fsample) (sz target : Z)
  (env : TickEnv) :
  0 < sz -> sz * 4 <= INT_MAX ->
  forall (fuel k : nat) (a a' : AppState) (k' : nat) (fs : list OutFrame),
    audio_loop uninit fuel AUDIO_GRACE sz target env k a = Some (a', k', fs) ->
    fs = [] \/
    exists f rest,
      fs = Audio f :: map Audio rest /\
      Forall silent_frame rest /\
      (srt_local_fifo a = [] -> silent_frame f) /\
      srt_local_fifo a' = [] /\
      audio_fifo (shared a') = [].
Proof.
  intros Hsz Hmax.
  induction fuel as [| fuel IH]; intros k a a' k' fs; cbn [audio_loop].
  - destruct (audio_pts (out a) <? target); [discriminate |].
    intros H. injection H as _ _ <-. left. reflexivity.
  - destruct (audio_pts (out a) <? target).
    + destruct (audio_body uninit AUDIO_GRACE sz env k a)
        as [[[a1 k1] f] |] eqn:Hbody.
      * destruct (grace_pass _ _ _ _ _ _ _ _ Hbody) as (Hq1 & Hs1 & Hf).
        destruct (audio_loop uninit fuel AUDIO_GRACE sz target env k1 a1)
          as [[[a2 k2] fs2] |] eqn:Hrest; [| discriminate].
        intros H. injection H as <- _ <-. right.
        destruct (IH _ _ _ _ _ Hrest)
          as [-> | (g & rest & -> & Hall & Hg & Hq2 & Hs2)].
        -- destruct (audio_loop_no_frame _ _ _ _ _ _ _ _ _ _ Hrest) as [-> _].
           exists f, [].
           split; [reflexivity |]. split; [constructor |].
           split; [exact (Hf Hsz Hmax) |]. split; assumption.
        -- exists f, (g :: rest).
           split; [reflexivity |].
           split; [constructor; [apply Hg; exact Hq1 | exact Hall] |].
           split; [exact (Hf Hsz Hmax) |]. split; assumption.
      * apply audio_body_none in Hbody. destruct Hbody as [Hbody _].
        discriminate Hbody.
    + intros H. injection H as _ _ <-. left. reflexivity.
Qed.

(** Two frames of four samples in GRACE, starting with three stale samples
    queued: the first frame carries them, the second is silence, and both
    queues end empty. *)
Lemma audio_loop_grace_witness :
  (0 < 4 /\ 4 * 4 <= INT_MAX) /\
  exists a' k' f g,
    audio_loop junk 8 AUDIO_GRACE 4 8 bg_video_env 1 stale_app
    = Some (a', k', [Audio f; Audio g]) /\
    data0 f = [one_f; one_f; one_f; 0] /\
    silent_frame g /\
    srt_local_fifo a' = [] /\
    audio_fifo (shared a') = [].
Proof.
  assert (H1 : 0 < 4) by lia.
  assert (H2 : 4 * 4 <= INT_MAX) by (vm_compute; discriminate).
  split; [split; assumption |].
  destruct (audio_loop junk 8 AUDIO_GRACE 4 8 bg_video_env 1 stale_app)
    as [[[a' k'] fs] |] eqn:Hloop; [| vm_compute in Hloop; discriminate].
  destruct (audio_loop_grace junk 4 8 bg_video_env H1 H2 8%nat 1%nat stale_app
              a' k' fs Hloop)
    as [-> | (f & rest & -> & Hall & _ & Hq & Hs)];
    [vm_compute in Hloop; discriminate |].
  vm_compute in Hloop.
  destruct rest as [| g [| h rest]]; try discriminate.
  injection Hloop as Ha Hk Hf Hg.
  exists a', k', f, g.
  split; [reflexivity |].
  split; [rewrite <- Hf; reflexivity |].
  split; [inversion Hall; assumption |].
  split; assumption.
Defined.

(* ================================================================== *)
(** * The command line *)
(* ================================================================== *)



(** X21.  A configuration file that cannot be loaded (it does not open, it
    is empty or it is larger than 65536 bytes) makes [main] return 1 before
    it looks at [srt_url]; the usage text is not printed. *)
Lemma config_not_loaded (strtod : string -> float)
  (files : string -> option string) (argv : list string) (path : string)
  (cfg : Config) :
  parse_args (tl argv) None default_config = (Some path, cfg) ->
  match files path with
  | None => main strtod files argv = Exit 1 [CannotOpenConfig path]
  | Some bytes =>
      Z.of_nat (String.length bytes) <= 0
      \/ 65536 < Z.of_nat (String.length bytes) ->
      main strtod files argv = Exit 1 []
  end.
Proof.
  intros Hparse. unfold main. rewrite Hparse. unfold load_config.
  destruct (files path) as [bytes |]; [| reflexivity].
  intros Hsize.
  destruct (Z.leb_spec (Z.of_nat (String.length bytes)) 0) as [H0 | H0];
    [reflexivity |].
  destruct (Z.gtb_spec (Z.of_nat (String.length bytes)) 65536) as [H1 | H1];
    [reflexivity | lia].
Qed.

(** Whatever the command line and the configuration file, the loop runs with
    two channels. *)
Lemma parse_args_out_channels (n : nat) :
  forall (args : list string) (path : option string) (cfg : Config),
    (length args <= n)%nat ->
    out_channels (snd (parse_args args path cfg)) = out_channels cfg.
Proof.
  induction n as [| n IH]; intros args path cfg Hlen;
    destruct args as [| a rest]; try reflexivity; cbn [length] in Hlen;
    [lia |].
  cbn [parse_args].
  assert (Hpos :
    out_channels
      (snd (if not_dash a && negb (nonempty (srt_url cfg))
            then parse_args rest path (set_srt_url cfg (truncate 2047 a))
            else if not_dash a && nonempty (srt_url cfg)
            then parse_args rest path (set_bg_file cfg (truncate 2047 a))
            else parse_args rest path cfg))
    = out_channels cfg).
  { destruct (not_dash a && negb (nonempty (srt_url cfg)));
      [| destruct (not_dash a && nonempty (srt_url cfg))];
      rewrite IH by lia; reflexivity. }
  destruct (String.eqb a "--config"); [| exact Hpos].
  destruct rest as [| p rest']; [exact Hpos |].
  apply IH. cbn [length] in Hlen. lia.
Qed.

Lemma main_out_channels (strtod : string -> float)
  (files : string -> option string) (argv : list string) (cfg : Config) :
  main strtod files argv = Run cfg -> out_channels cfg = 2.
Proof.
  unfold main.
  pose proof (parse_args_out_channels (length (tl argv)) (tl argv) None
                default_config (Nat.le_refl _)) as Hparse.
  destruct (parse_args (tl argv) None default_config) as [path cfg0].
  cbn [snd] in Hparse.
  destruct path as [path |].
  - unfold load_config. destruct (files path) as [bytes |].
    + destruct ((Z.of_nat (String.length bytes) <=? 0)
                || (Z.of_nat (String.length bytes) >? 65536)).
      * cbn. discriminate.
      * cbn [Z.ltb Z.compare]. cbv iota.
        destruct (nonempty _); [| discriminate].
        intros H. injection H as <-. reflexivity.
    + cbn. discriminate.
  - cbn [Z.ltb Z.compare]. cbv iota.
    destruct (nonempty (srt_url cfg0)); [| discriminate].
    intros H. injection H as <-. exact Hparse.
Qed.

(* ================================================================== *)
(** * The configuration reader *)
(* ================================================================== *)

Lemma str_app_assoc (a b c : string) :
  ((a ++ b) ++ c = a ++ (b ++ c))%string.
Proof.
  induction a as [| x a IH]; cbn; [reflexivity | rewrite IH; reflexivity].
Qed.

Lemma str_length_app (a b : string) :
  String.length (a ++ b) = (String.length a + String.length b)%nat.
Proof.
  induction a as [| x a IH]; cbn; [reflexivity | rewrite IH; reflexivity].
Qed.

Lemma truncate_length (n : nat) (s : string) :
  (String.length (truncate n s) <= n)%nat.
Proof.
  revert s. induction n as [| n IH]; intros s; destruct s as [| c s]; cbn;
    try lia. specialize (IH s). lia.
Qed.

Lemma truncate_all (n : nat) (s : string) :
  (String.length s <= n)%nat -> truncate n s = s.
Proof.
  revert s. induction n as [| n IH]; intros s H; destruct s as [| c s];
    cbn in *; try reflexivity; try lia. rewrite IH by lia. reflexivity.
Qed.

Lemma truncate_app (n : nat) (a b : string) :
  (n <= String.length a)%nat -> truncate n (a ++ b) = truncate n a.
Proof.
  revert a. induction n as [| n IH]; intros a H; destruct a as [| c a];
    cbn in *; try reflexivity; try lia. rewrite IH by lia. reflexivity.
Qed.

Lemma all_chars_truncate (ok : ascii -> bool) (n : nat) (s : string) :
  all_chars ok s = true -> all_chars ok (truncate n s) = true.
Proof.
  revert s. induction n as [| n IH]; intros s H; destruct s as [| c s];
    cbn in *; try reflexivity.
  apply andb_prop in H. destruct H as [Hc Hs]. rewrite Hc. cbn. apply IH, Hs.
Qed.

Lemma distance_app (v e : string) : distance (v ++ e) e = String.length v.
Proof. unfold distance. rewrite str_length_app. lia. Qed.

(** Where [strchr] stops, and what it passed. *)
Lemma strchr_split (p e : string) (c : ascii) :
  strchr p c = Some e ->
  exists v, p = (v ++ e)%string /\ all_chars (is_not c) v = true.
Proof.
  revert e. induction p as [| d p IH]; intros e; cbn [strchr]; [discriminate |].
  destruct (Ascii.eqb d c) eqn:Hd.
  - intros H. injection H as <-. exists EmptyString. split; reflexivity.
  - intros H. destruct (IH e H) as (v & -> & Hv).
    exists (String d v). split; [reflexivity |].
    cbn. unfold is_not at 1. rewrite Hd. exact Hv.
Qed.

(** On every path [json_get_str] copies at most [size - 1] characters. *)
Lemma json_get_str_length (json key : string) (size : nat) (def : string) :
  (String.length (json_get_str json key size def) <= size - 1)%nat.
Proof.
  unfold json_get_str.
  destruct (strstr json (key_pattern key)) as [p |]; [| apply truncate_length].
  destruct (strchr _ ":") as [q |]; [| apply truncate_length].
  destruct (skip_separators q) as [| c r]; [apply truncate_length |].
  destruct (Ascii.eqb c dquote); [| apply truncate_length].
  destruct (strchr r dquote) as [e |]; [| apply truncate_length].
  destruct (Nat.leb_spec size (distance r e)).
  - apply truncate_length.
  - pose proof (truncate_length (distance r e) r). lia.
Qed.

(** What [json_get_str] copies from the text stops before a double quote. *)
Lemma json_get_str_quote_free (json key : string) (size : nat) (def : string) :
  all_chars (is_not dquote) def = true ->
  all_chars (is_not dquote) (json_get_str json key size def) = true.
Proof.
  intros Hdef.
  pose proof (all_chars_truncate (is_not dquote) (size - 1) def Hdef) as Hfall.
  unfold json_get_str.
  destruct (strstr json (key_pattern key)) as [p |]; [| exact Hfall].
  destruct (strchr _ ":") as [q |]; [| exact Hfall].
  destruct (skip_separators q) as [| c r]; [exact Hfall |].
  destruct (Ascii.eqb c dquote); [| exact Hfall].
  destruct (strchr r dquote) as [e |] eqn:He; [| exact Hfall].
  destruct (strchr_split _ _ _ He) as (v & -> & Hv).
  rewrite distance_app.
  destruct (Nat.leb_spec size (String.length v));
    rewrite truncate_app by lia; apply all_chars_truncate, Hv.
Qed.

(** X1.  Whatever the text and the key, the string [json_get_str] leaves in
    a buffer of [size] bytes, [size] at least 1, fits the buffer together
    with its final NUL; and it contains no double quote when the default
    contains none. *)
Theorem json_get_str_result (json key : string) (size : nat) (def : string) :
  (1 <= size)%nat ->
  (String.length (json_get_str json key size def) < size)%nat /\
  (all_chars (is_not dquote) def = true ->
   all_chars (is_not dquote) (json_get_str json key size def) = true).
Proof.
  intros Hsize. split.
  - pose proof (json_get_str_length json key size def). lia.
  - apply json_get_str_quote_free.
Qed.

(** [bg_file] read from [{"bg_file": "loop.mp4", "out_fps": 25}] into the
    2048 bytes of [g_cfg.bg_file]. *)
Lemma json_get_str_result_witness :
  ((1 <= 2048)%nat /\ all_chars (is_not dquote) "background.mp4" = true) /\
  (String.length
     (json_get_str config_without_url "bg_file" 2048 "background.mp4")
   < 2048)%nat /\
  all_chars (is_not dquote)
    (json_get_str config_without_url "bg_file" 2048 "background.mp4") = true.
Proof.
  assert (H1 : (1 <= 2048)%nat) by (apply Nat.leb_le; reflexivity).
  assert (H2 : all_chars (is_not dquote) "background.mp4" = true)
    by reflexivity.
  destruct (json_get_str_result config_without_url "bg_file" 2048
              "background.mp4" H1) as [Hlen Hquote].
  split; [split; assumption |].
  split; [exact Hlen | exact (Hquote H2)].
Defined.

Lemma prefix_empty (s : string) : String.prefix EmptyString s = true.
Proof. destruct s; reflexivity. Qed.

Lemma prefix_app (pat post : string) : String.prefix pat (pat ++ post) = true.
Proof.
  induction pat as [| c pat IH]; [apply prefix_empty |].
  cbn. destruct (ascii_dec c c) as [_ | H]; [exact IH | contradiction].
Qed.

Lemma strstr_here (s pat : string) :
  String.prefix pat s = true -> strstr s pat = Some s.
Proof. intros H. destruct s; cbn [strstr]; rewrite H; reflexivity. Qed.

Lemma strstr_first (pre pat post : string) :
  not_before (String.length pre) pat (pre ++ pat ++ post) = true ->
  strstr (pre ++ pat ++ post) pat = Some (pat ++ post)%string.
Proof.
  induction pre as [| c pre IH]; cbn [String.append String.length not_before].
  - intros _. apply strstr_here, prefix_app.
  - intros H. apply andb_prop in H. destruct H as [Hhere Hrest].
    apply negb_true_iff in Hhere.
    cbn [strstr]. rewrite Hhere. apply IH. exact Hrest.
Qed.

Lemma advance_app (a b : string) : advance (String.length a) (a ++ b) = b.
Proof.
  induction a as [| c a IH]; cbn; [destruct b; reflexivity | exact IH].
Qed.

Lemma strchr_first (v rest : string) (c : ascii) :
  all_chars (is_not c) v = true ->
  strchr (v ++ String c rest) c = Some (String c rest).
Proof.
  induction v as [| d v IH]; cbn [String.append strchr all_chars].
  - intros _. rewrite Ascii.eqb_refl. reflexivity.
  - intros H. apply andb_prop in H. destruct H as [Hd Hv].
    unfold is_not in Hd. apply negb_true_iff in Hd. rewrite Hd.
    apply IH. exact Hv.
Qed.

Lemma skip_separators_app (seps rest : string) (c : ascii) :
  all_chars is_separator seps = true -> is_separator c = false ->
  skip_separators (seps ++ String c rest) = String c rest.
Proof.
  intros Hs Hc. induction seps as [| d seps IH];
    cbn [String.append skip_separators].
  - unfold is_separator in Hc. rewrite Hc. reflexivity.
  - cbn [all_chars] in Hs. apply andb_prop in Hs. destruct Hs as [Hd Hs].
    unfold is_separator in Hd. rewrite Hd. apply IH. exact Hs.
Qed.

(** A key of at most 253 characters fits [pattern] with its two quotes. *)
Lemma key_pattern_short (key : string) :
  (String.length key <= 253)%nat -> key_pattern key = quoted key.
Proof.
  intros H. unfold key_pattern, quoted. apply truncate_all.
  cbn. rewrite str_length_app. cbn. lia.
Qed.

Lemma quoted_app (v rest : string) :
  (quoted v ++ rest)%string = String dquote (v ++ String dquote rest).
Proof. unfold quoted. cbn. rewrite str_app_assoc. reflexivity. Qed.

(** The three readers up to the value: they stop on the first character
    after the colon that is not a separator. *)
Lemma value_found (pre key gap seps rest : string) (c : ascii) :
  (String.length key <= 253)%nat ->
  not_before (String.length pre) (quoted key)
    (json_member pre key gap seps (String c rest)) = true ->
  all_chars (is_not ":") gap = true ->
  all_chars is_separator seps = true ->
  is_separator c = false ->
  match strstr (json_member pre key gap seps (String c rest)) (key_pattern key)
  with
  | Some p =>
      match strchr (advance (String.length (key_pattern key)) p) ":" with
      | Some q => skip_separators q = String c rest
      | None => False
      end
  | None => False
  end.
Proof.
  intros Hkey Hfirst Hgap Hseps Hc. unfold json_member in *.
  rewrite (key_pattern_short key Hkey).
  rewrite (strstr_first _ _ _ Hfirst), advance_app.
  rewrite (strchr_first _ _ _ Hgap).
  change (String ":" (seps ++ String c rest))%string
    with (String ":" seps ++ String c rest)%string.
  apply skip_separators_app; [cbn; exact Hseps | exact Hc].
Qed.

(** X2.  Round trip of a string member.  In a text where the quoted key
    (at most 253 characters) first occurs after [pre], followed by a gap
    without a colon, a colon, separators (colons, spaces, tabs) and a quoted
    value without a double quote, [json_get_str] gives the value, cut to
    [size - 1] characters; the default is not used. *)
Theorem json_get_str_round_trip (pre key gap seps value rest : string)
  (size : nat) (def : string) :
  (String.length key <= 253)%nat ->
  not_before (String.length pre) (quoted key)
    (json_member pre key gap seps (quoted value ++ rest)) = true ->
  all_chars (is_not ":") gap = true ->
  all_chars is_separator seps = true ->
  all_chars (is_not dquote) value = true ->
  json_get_str (json_member pre key gap seps (quoted value ++ rest))
    key size def
  = truncate (size - 1) value.
Proof.
  intros Hkey Hfirst Hgap Hseps Hvalue.
  rewrite quoted_app in *.
  pose proof (value_found pre key gap seps _ dquote Hkey Hfirst Hgap Hseps
                eq_refl) as Hfound.
  unfold json_get_str.
  destruct (strstr _ (key_pattern key)) as [p |]; [| contradiction].
  destruct (strchr _ ":") as [q |]; [| contradiction].
  rewrite Hfound.
  rewrite Ascii.eqb_refl, (strchr_first _ _ _ Hvalue), distance_app.
  destruct (Nat.leb_spec size (String.length value)).
  - apply truncate_app. lia.
  - rewrite truncate_app by lia. rewrite !truncate_all by lia. reflexivity.
Qed.

(** [srt_url] read from
    [{"srt_url": "srt://origin:9000", "stream_id": "cam1"}]. *)
Lemma json_get_str_round_trip_witness :
  ((String.length "srt_url" <= 253)%nat /\
   not_before 1 (quoted "srt_url") config_with_url = true /\
   all_chars (is_not ":") "" = true /\
   all_chars is_separator " " = true /\
   all_chars (is_not dquote) "srt://origin:9000" = true) /\
  json_get_str config_with_url "srt_url" 2048 "" = "srt://origin:9000"%string.
Proof.
  assert (H1 : (String.length "srt_url" <= 253)%nat)
    by (apply Nat.leb_le; reflexivity).
  assert (H2 : not_before (String.length "{") (quoted "srt_url")
                 (json_member "{" "srt_url" "" " "
                    (quoted "srt://origin:9000"
                     ++ ", " ++ quoted "stream_id" ++ ": " ++ quoted "cam1"
                     ++ "}")) = true) by reflexivity.
  assert (H3 : all_chars (is_not ":") "" = true) by reflexivity.
  assert (H4 : all_chars is_separator " " = true) by reflexivity.
  assert (H5 : all_chars (is_not dquote) "srt://origin:9000" = true)
    by reflexivity.
  split; [repeat split; assumption |].
  exact (json_get_str_round_trip "{" "srt_url" "" " " "srt://origin:9000"
           (", " ++ quoted "stream_id" ++ ": " ++ quoted "cam1" ++ "}")
           2048 "" H1 H2 H3 H4 H5).
Defined.

Lemma decimal_digits_stop (acc : Z) (s : string) :
  no_leading_digit s = true -> decimal_digits acc s = acc.
Proof.
  destruct s as [| c s]; [reflexivity |].
  cbn [no_leading_digit decimal_digits].
  unfold is_digit. intros H. apply negb_true_iff in H. cbv zeta. rewrite H.
  reflexivity.
Qed.

(** Reading the digits that [printf] wrote for a positive number. *)
Lemma decimal_digits_acc (d : Decimal.uint) (p : positive) (rest : string) :
  decimal_digits (Z.pos p) (NilEmpty.string_of_uint d ++ rest)
  = decimal_digits (Z.pos (Pos.of_uint_acc d p)) rest.
Proof.
  revert p. induction d as [| d IH | d IH | d IH | d IH | d IH | d IH | d IH
                            | d IH | d IH | d IH]; intros p;
    [reflexivity | ..];
    cbn [NilEmpty.string_of_uint String.append Pos.of_uint_acc];
    rewrite <- IH; cbn [decimal_digits]; cbv zeta;
    match goal with
    | |- context [nat_of_ascii ?c] =>
        let n := eval vm_compute in (nat_of_ascii c) in
        change (nat_of_ascii c) with n
    end;
    cbn [Nat.leb andb Nat.sub Z.of_nat Pos.of_succ_nat Pos.succ]; f_equal; lia.
Qed.

Lemma decimal_digits_uint (d : Decimal.uint) (rest : string) :
  decimal_digits 0 (NilEmpty.string_of_uint d ++ rest)
  = decimal_digits (Z.of_N (Pos.of_uint d)) rest.
Proof.
  induction d as [| d IH | d IH | d IH | d IH | d IH | d IH | d IH
                  | d IH | d IH | d IH];
    [reflexivity | ..];
    cbn [NilEmpty.string_of_uint String.append Pos.of_uint Z.of_N];
    try rewrite <- decimal_digits_acc; try rewrite <- IH;
    cbn [decimal_digits]; cbv zeta;
    match goal with
    | |- context [nat_of_ascii ?c] =>
        let n := eval vm_compute in (nat_of_ascii c) in
        change (nat_of_ascii c) with n
    end;
    cbn [Nat.leb andb Nat.sub Z.of_nat Pos.of_succ_nat Pos.succ]; reflexivity.
Qed.

Lemma strtol_unsigned (d : Decimal.uint) (rest : string) :
  d <> Decimal.Nil ->
  strtol (NilEmpty.string_of_uint d ++ rest)
  = Z.max INT64_MIN
      (Z.min INT64_MAX
         (decimal_digits 0 (NilEmpty.string_of_uint d ++ rest))).
Proof.
  intros Hd. destruct d; [contradiction | ..]; reflexivity.
Qed.

Lemma strtol_negative (d : Decimal.uint) (rest : string) :
  strtol (String "-" (NilEmpty.string_of_uint d ++ rest))
  = Z.max INT64_MIN
      (Z.min INT64_MAX
         (- decimal_digits 0 (NilEmpty.string_of_uint d ++ rest))).
Proof. reflexivity. Qed.

(** [strtol] reads back what [printf] wrote for a [long]. *)
Lemma strtol_print_ld (n : Z) (rest : string) :
  in_int64 n -> no_leading_digit rest = true ->
  strtol (print_ld n ++ rest) = n.
Proof.
  intros Hn Hrest. unfold in_int64 in Hn.
  assert (Hclamp : Z.max INT64_MIN (Z.min INT64_MAX n) = n) by lia.
  destruct n as [| p | p]; unfold print_ld;
    cbn [Z.to_int NilEmpty.string_of_int].
  - rewrite strtol_unsigned by discriminate.
    rewrite decimal_digits_uint, decimal_digits_stop by exact Hrest.
    exact Hclamp.
  - rewrite strtol_unsigned by apply Unsigned.to_uint_nonnil.
    rewrite decimal_digits_uint, decimal_digits_stop by exact Hrest.
    rewrite Unsigned.of_to. exact Hclamp.
  - cbn [String.append]. rewrite strtol_negative.
    rewrite decimal_digits_uint, decimal_digits_stop by exact Hrest.
    rewrite Unsigned.of_to. exact Hclamp.
Qed.

(** A decimal text starts with a digit or a minus sign. *)
Lemma print_ld_head (n : Z) :
  exists c s, print_ld n = String c s /\ is_separator c = false
              /\ Ascii.eqb c dquote = false.
Proof.
  destruct n as [| p | p]; unfold print_ld;
    cbn [Z.to_int NilEmpty.string_of_int].
  - do 2 eexists. split; [reflexivity | split; reflexivity].
  - pose proof (Unsigned.to_uint_nonnil p) as Hp.
    destruct (Pos.to_uint p); [contradiction | ..];
      do 2 eexists; (split; [reflexivity | split; reflexivity]).
  - do 2 eexists. split; [reflexivity | split; reflexivity].
Qed.

Lemma json_number_start_found (pre key gap seps rest : string) (c : ascii) :
  (String.length key <= 253)%nat ->
  not_before (String.length pre) (quoted key)
    (json_member pre key gap seps (String c rest)) = true ->
  all_chars (is_not ":") gap = true ->
  all_chars is_separator seps = true ->
  is_separator c = false ->
  json_number_start (json_member pre key gap seps (String c rest)) key
  = if Ascii.eqb c dquote then None else Some (String c rest).
Proof.
  intros Hkey Hfirst Hgap Hseps Hc.
  pose proof (value_found pre key gap seps rest c Hkey Hfirst Hgap Hseps Hc)
    as Hfound.
  unfold json_number_start.
  destruct (strstr _ (key_pattern key)) as [p |]; [| contradiction].
  destruct (strchr _ ":") as [q |]; [| contradiction].
  rewrite Hfound. reflexivity.
Qed.

(** X3.  Round trip of a number member.  In a text where the quoted key
    first occurs after [pre], followed by a gap without a colon, a colon,
    separators and the decimal text of [n], with no digit after it,
    [json_get_int] gives [n] converted to [int]: [n] itself when it is in
    the range of [int], its low 32 bits otherwise. *)
Theorem json_get_int_round_trip (pre key gap seps rest : string) (n def : Z) :
  (String.length key <= 253)%nat ->
  not_before (String.length pre) (quoted key)
    (json_member pre key gap seps (print_ld n ++ rest)) = true ->
  all_chars (is_not ":") gap = true ->
  all_chars is_separator seps = true ->
  in_int64 n ->
  no_leading_digit rest = true ->
  json_get_int (json_member pre key gap seps (print_ld n ++ rest)) key def
  = int32 n
  /\ (in_int n ->
      json_get_int (json_member pre key gap seps (print_ld n ++ rest)) key def
      = n).
Proof.
  intros Hkey Hfirst Hgap Hseps Hn Hrest.
  assert (Hget :
    json_get_int (json_member pre key gap seps (print_ld n ++ rest)) key def
    = int32 n).
  { pose proof (strtol_print_ld n rest Hn Hrest) as Hval.
    destruct (print_ld_head n) as (c & s & Hhead & Hc & Hq).
    rewrite Hhead in *. cbn [String.append] in *.
    unfold json_get_int.
    rewrite (json_number_start_found _ _ _ _ _ _ Hkey Hfirst Hgap Hseps Hc).
    rewrite Hq, Hval. reflexivity. }
  split; [exact Hget |].
  intros Hint. rewrite Hget. apply int32_in_range. exact Hint.
Qed.

(** [out_fps] read from [{"bg_file": "loop.mp4", "out_fps": 25}]. *)
Lemma json_get_int_round_trip_witness :
  ((String.length "out_fps" <= 253)%nat /\
   not_before 24 (quoted "out_fps") config_without_url = true /\
   all_chars (is_not ":") "" = true /\
   all_chars is_separator " " = true /\
   in_int64 25 /\
   no_leading_digit "}" = true) /\
  json_get_int config_without_url "out_fps" 30 = 25.
Proof.
  assert (H1 : (String.length "out_fps" <= 253)%nat)
    by (apply Nat.leb_le; reflexivity).
  assert (H2 : not_before
                 (String.length
                    ("{" ++ quoted "bg_file" ++ ": " ++ quoted "loop.mp4"
                     ++ ", "))
                 (quoted "out_fps")
                 (json_member
                    ("{" ++ quoted "bg_file" ++ ": " ++ quoted "loop.mp4"
                     ++ ", ")
                    "out_fps" "" " " (print_ld 25 ++ "}")) = true)
    by reflexivity.
  assert (H3 : all_chars (is_not ":") "" = true) by reflexivity.
  assert (H4 : all_chars is_separator " " = true) by reflexivity.
  assert (H5 : in_int64 25) by (split; vm_compute; discriminate).
  assert (H6 : no_leading_digit "}" = true) by reflexivity.
  assert (H7 : in_int 25) by (split; vm_compute; discriminate).
  split; [repeat split; first [assumption | apply H5] |].
  exact (proj2 (json_get_int_round_trip
                  ("{" ++ quoted "bg_file" ++ ": " ++ quoted "loop.mp4"
                   ++ ", ")
                  "out_fps" "" " " "}" 25 30 H1 H2 H3 H4 H5 H6) H7).
Defined.

(** X4.  A value of the other kind gives the default.  In a text where
    the quoted key first occurs after [pre], followed by a gap without a
    colon, a colon, separators and a value that starts with [c]: when [c] is
    a double quote, [json_get_int] and [json_get_double] return their
    default; when it is not, [json_get_str] leaves its default, cut to
    [size - 1] characters. *)
Theorem json_wrong_kind_gives_default (strtod : string -> float)
  (pre key gap seps rest : string) (c : ascii) (size : nat) (def : string)
  (idef : Z) (ddef : float) :
  (String.length key <= 253)%nat ->
  not_before (String.length pre) (quoted key)
    (json_member pre key gap seps (String c rest)) = true ->
  all_chars (is_not ":") gap = true ->
  all_chars is_separator seps = true ->
  is_separator c = false ->
  if Ascii.eqb c dquote
  then json_get_int (json_member pre key gap seps (String c rest)) key idef
       = idef
       /\ json_get_double strtod
            (json_member pre key gap seps (String c rest)) key ddef
          = ddef
  else json_get_str (json_member pre key gap seps (String c rest)) key size def
       = truncate (size - 1) def.
Proof.
  intros Hkey Hfirst Hgap Hseps Hc.
  pose proof (json_number_start_found _ _ _ _ _ _ Hkey Hfirst Hgap Hseps Hc)
    as Hnum.
  pose proof (value_found pre key gap seps rest c Hkey Hfirst Hgap Hseps Hc)
    as Hfound.
  destruct (Ascii.eqb c dquote) eqn:Hq.
  - unfold json_get_int, json_get_double. rewrite Hnum. split; reflexivity.
  - unfold json_get_str.
    destruct (strstr _ (key_pattern key)) as [p |]; [| contradiction].
    destruct (strchr _ ":") as [q |]; [| contradiction].
    rewrite Hfound, Hq. reflexivity.
Qed.

(** [bg_file], a string in [{"bg_file": "loop.mp4", "out_fps": 25}], read
    as a number. *)
Lemma json_wrong_kind_gives_default_witness :
  ((String.length "bg_file" <= 253)%nat /\
   not_before 1 (quoted "bg_file") config_without_url = true /\
   all_chars (is_not ":") "" = true /\
   all_chars is_separator " " = true /\
   is_separator dquote = false) /\
  json_get_int config_without_url "bg_file" 7 = 7 /\
  json_get_double strtod_whole config_without_url "bg_file" 5.0%float
  = 5.0%float.
Proof.
  assert (H1 : (String.length "bg_file" <= 253)%nat)
    by (apply Nat.leb_le; reflexivity).
  assert (H2 : not_before (String.length "{") (quoted "bg_file")
                 (json_member "{" "bg_file" "" " "
                    (String dquote
                       ("loop.mp4" ++ String dquote ", "
                        ++ quoted "out_fps" ++ ": 25}"))) = true)
    by reflexivity.
  assert (H3 : all_chars (is_not ":") "" = true) by reflexivity.
  assert (H4 : all_chars is_separator " " = true) by reflexivity.
  assert (H5 : is_separator dquote = false) by reflexivity.
  split; [repeat split; assumption |].
  exact (json_wrong_kind_gives_default strtod_whole "{" "bg_file" "" " "
           ("loop.mp4" ++ String dquote ", " ++ quoted "out_fps" ++ ": 25}")
           dquote 2048 "" 7 5.0%float H1 H2 H3 H4 H5).
Defined.

(* ================================================================== *)
(** * The configuration [main] runs with *)
(* ================================================================== *)

Lemma int32_is_int (z : Z) : in_int (int32 z).
Proof.
  unfold in_int, int32, wrap_signed, INT_MIN, INT_MAX.
  pose proof (Z.mod_pos_bound (z + 2 ^ (32 - 1)) (2 ^ 32) ltac:(lia)). lia.
Qed.

Lemma json_get_int_is_int (json key : string) (def : Z) :
  in_int def -> in_int (json_get_int json key def).
Proof.
  intros Hdef. unfold json_get_int.
  destruct (json_number_start json key); [apply int32_is_int | exact Hdef].
Qed.

Lemma default_config_fits : config_fits default_config.
Proof.
  unfold config_fits, in_int, INT_MIN, INT_MAX. cbn.
  repeat split; lia.
Qed.

(** The positional arguments are cut to the 2047 characters of their
    buffers; nothing else of the configuration moves. *)
Lemma parse_args_fits (n : nat) :
  forall (args : list string) (path : option string) (cfg : Config),
    (length args <= n)%nat -> config_fits cfg ->
    config_fits (snd (parse_args args path cfg)).
Proof.
  induction n as [| n IH]; intros args path cfg Hlen Hcfg;
    destruct args as [| a rest]; try exact Hcfg; cbn [length] in Hlen;
    [lia |].
  cbn [parse_args].
  assert (Hurl : config_fits (set_srt_url cfg (truncate 2047 a))).
  { unfold config_fits in *. cbn. pose proof (truncate_length 2047 a).
    intuition. }
  assert (Hbg : config_fits (set_bg_file cfg (truncate 2047 a))).
  { unfold config_fits in *. cbn. pose proof (truncate_length 2047 a).
    intuition. }
  assert (Hpos :
    config_fits
      (snd (if not_dash a && negb (nonempty (srt_url cfg))
            then parse_args rest path (set_srt_url cfg (truncate 2047 a))
            else if not_dash a && nonempty (srt_url cfg)
            then parse_args rest path (set_bg_file cfg (truncate 2047 a))
            else parse_args rest path cfg))).
  { destruct (not_dash a && negb (nonempty (srt_url cfg)));
      [| destruct (not_dash a && nonempty (srt_url cfg))];
      apply IH; try lia; assumption. }
  destruct (String.eqb a "--config"); [| exact Hpos].
  destruct rest as [| p rest']; [exact Hpos |].
  apply IH; [cbn [length] in Hlen; lia | exact Hcfg].
Qed.

Lemma load_config_fits (strtod : string -> float)
  (files : string -> option string) (path : string) (cfg : Config) :
  config_fits cfg ->
  config_fits (snd (fst (load_config strtod files path cfg))).
Proof.
  intros Hcfg. unfold load_config.
  destruct (files path) as [bytes |]; [| exact Hcfg].
  destruct ((Z.of_nat (String.length bytes) <=? 0)
            || (Z.of_nat (String.length bytes) >? 65536)); [exact Hcfg |].
  unfold config_fits. cbn [fst snd srt_url bg_file stream_id out_width
    out_height out_fps video_bitrate audio_bitrate sample_rate out_channels
    srt_timeout_us srt_retry_us].
  assert (Hi : forall d, INT_MIN <= d <= INT_MAX -> in_int d)
    by (intros; assumption).
  split; [apply (json_get_str_length _ _ 2048) |].
  split; [apply (json_get_str_length _ _ 2048) |].
  split; [apply (json_get_str_length _ _ 256) |].
  split; [apply json_get_str_quote_free; reflexivity |].
  repeat (split; [apply json_get_int_is_int, Hi; unfold INT_MIN, INT_MAX; lia |]).
  repeat split.
Qed.

(** X5.  Whatever the command line and the files, a configuration that
    [main] goes on to run with has a non-empty [srt_url]; its three strings
    fit their buffers ([srt_url] and [bg_file] 2048 bytes, [stream_id] 256)
    with the final NUL; [stream_id], which [jlog] prints between double
    quotes, contains no double quote; its numbers are values of [int]; and
    [out_channels], [srt_timeout_us] and [srt_retry_us] are 2, 2000000 and
    500000, which no input changes. *)
Theorem main_config_fits (strtod : string -> float)
  (files : string -> option string) (argv : list string) (cfg : Config) :
  main strtod files argv = Run cfg ->
  nonempty (srt_url cfg) = true /\
  (String.length (srt_url cfg) <= 2047)%nat /\
  (String.length (bg_file cfg) <= 2047)%nat /\
  (String.length (stream_id cfg) <= 255)%nat /\
  all_chars (is_not dquote) (stream_id cfg) = true /\
  in_int (out_width cfg) /\ in_int (out_height cfg) /\ in_int (out_fps cfg) /\
  in_int (video_bitrate cfg) /\ in_int (audio_bitrate cfg) /\
  in_int (sample_rate cfg) /\
  out_channels cfg = 2 /\ srt_timeout_us cfg = 2000000 /\
  srt_retry_us cfg = 500000.
Proof.
  unfold main.
  pose proof (parse_args_fits (length (tl argv)) (tl argv) None
                default_config (Nat.le_refl _) default_config_fits) as Hparse.
  destruct (parse_args (tl argv) None default_config) as [path cfg0].
  cbn [snd] in Hparse.
  assert (Hend : forall ret c err,
    config_fits c ->
    (if ret <? 0 then Exit 1 err
     else if negb (nonempty (srt_url c))
          then Exit 1 [Usage (hd EmptyString argv)]
     else Run c) = Run cfg ->
    nonempty (srt_url cfg) = true /\ config_fits cfg).
  { intros ret c err Hc. destruct (ret <? 0); [discriminate |].
    destruct (nonempty (srt_url c)) eqn:Hne; [| discriminate].
    cbn. intros H. injection H as <-. split; assumption. }
  destruct path as [path |].
  - pose proof (load_config_fits strtod files path cfg0 Hparse) as Hload.
    destruct (load_config strtod files path cfg0) as [[ret c] err].
    cbn [fst snd] in Hload. intros H.
    exact (Hend ret c err Hload H).
  - intros H. exact (Hend 0 cfg0 [] Hparse H).
Qed.

(** [srt_compositor srt://origin:9000]. *)
Lemma main_config_fits_witness :
  main strtod_whole one_config_file ["srt_compositor"; "srt://origin:9000"]%string
  = Run (set_srt_url default_config "srt://origin:9000") /\
  nonempty (srt_url (set_srt_url default_config "srt://origin:9000")) = true /\
  (String.length (srt_url (set_srt_url default_config "srt://origin:9000"))
   <= 2047)%nat /\
  out_channels (set_srt_url default_config "srt://origin:9000") = 2.
Proof.
  assert (H : main strtod_whole one_config_file
                ["srt_compositor"; "srt://origin:9000"]%string
              = Run (set_srt_url default_config "srt://origin:9000"))
    by reflexivity.
  destruct (main_config_fits strtod_whole one_config_file
              ["srt_compositor"; "srt://origin:9000"]%string
              (set_srt_url default_config "srt://origin:9000") H)
    as (Hne & Hlen & _ & _ & _ & _ & _ & _ & _ & _ & _ & Hch & _).
  split; [exact H |]. split; [exact Hne |]. split; [exact Hlen | exact Hch].
Defined.

(* ================================================================== *)
(** * The arguments of the command line *)
(* ================================================================== *)

(** An argument other than [--config] is looked at on its own. *)
Lemma parse_args_step (a : string) (rest : list string)
  (cp : option string) (cfg : Config) :
  String.eqb a "--config" = false ->
  parse_args (a :: rest) cp cfg
  = if not_dash a && negb (nonempty (srt_url cfg))
    then parse_args rest cp (set_srt_url cfg (truncate 2047 a))
    else if not_dash a && nonempty (srt_url cfg)
    then parse_args rest cp (set_bg_file cfg (truncate 2047 a))
    else parse_args rest cp cfg.
Proof. intros H. cbn [parse_args]. rewrite H. reflexivity. Qed.

(** X6.  Among arguments none of which is [--config], those that start
    with a dash are ignored: the result is that of the other arguments
    alone.  A final [--config] with no path after it is ignored too. *)
Theorem parse_args_ignores_options (args : list string) :
  Forall (fun a => String.eqb a "--config" = false) args ->
  forall (cp : option string) (cfg : Config),
    parse_args args cp cfg = parse_args (filter not_dash args) cp cfg
    /\ parse_args (args ++ ["--config"%string]) cp cfg
       = parse_args (filter not_dash args) cp cfg.
Proof.
  induction 1 as [| a rest Ha Hrest IH]; intros cp cfg.
  - split; reflexivity.
  - cbn [List.app filter]. rewrite !(parse_args_step a _ _ _ Ha).
    destruct (not_dash a) eqn:Hd; cbn [andb].
    + rewrite (parse_args_step a _ _ _ Ha). rewrite Hd. cbn [andb].
      destruct (nonempty (srt_url cfg)); cbn [negb]; apply IH.
    + apply IH.
Qed.

(** [srt_compositor -v srt://origin:9000 --verbose --config]. *)
Lemma parse_args_ignores_options_witness :
  Forall (fun a => String.eqb a "--config" = false)
    ["-v"; "srt://origin:9000"; "--verbose"]%string /\
  parse_args ["-v"; "srt://origin:9000"; "--verbose"]%string None
    default_config
  = parse_args ["srt://origin:9000"%string] None default_config /\
  parse_args ["-v"; "srt://origin:9000"; "--verbose"; "--config"]%string None
    default_config
  = parse_args ["srt://origin:9000"%string] None default_config.
Proof.
  assert (H : Forall (fun a => String.eqb a "--config" = false)
                ["-v"; "srt://origin:9000"; "--verbose"]%string)
    by (repeat constructor).
  split; [exact H |].
  exact (parse_args_ignores_options
           ["-v"; "srt://origin:9000"; "--verbose"]%string H None
           default_config).
Defined.

(** X7.  A [--config] with its path only sets the path, wherever it stands
    among arguments that are not [--config]: the arguments before and after
    it are read as if it were not there, with that path as the one found so
    far.  So of two such pairs the later one decides. *)
Theorem parse_args_config_pair (args : list string) :
  Forall (fun a => String.eqb a "--config" = false) args ->
  forall (path : string) (rest : list string) (cp : option string)
    (cfg : Config),
    parse_args (args ++ "--config"%string :: path :: rest) cp cfg
    = parse_args (args ++ rest) (Some path) cfg.
Proof.
  induction 1 as [| a more Ha Hmore IH]; intros path rest cp cfg.
  - reflexivity.
  - cbn [List.app]. rewrite !(parse_args_step a _ _ _ Ha).
    destruct (not_dash a && negb (nonempty (srt_url cfg)));
      [| destruct (not_dash a && nonempty (srt_url cfg))]; apply IH.
Qed.

(** [srt_compositor srt://origin:9000 --config a.json --config b.json]. *)
Lemma parse_args_config_pair_witness :
  Forall (fun a => String.eqb a "--config" = false)
    ["srt://origin:9000"%string] /\
  parse_args
    ["srt://origin:9000"; "--config"; "a.json"; "--config"; "b.json"]%string
    None default_config
  = (Some "b.json"%string, set_srt_url default_config "srt://origin:9000").
Proof.
  assert (H : Forall (fun a => String.eqb a "--config" = false)
                ["srt://origin:9000"%string])
    by (repeat constructor).
  split; [exact H |].
  exact (eq_trans
           (parse_args_config_pair ["srt://origin:9000"%string] H "a.json"
              ["--config"; "b.json"]%string None default_config)
           eq_refl).
Defined.

Lemma nonempty_truncate (n : nat) (s : string) :
  nonempty (truncate (S n) s) = nonempty s.
Proof. destruct s; reflexivity. Qed.

Lemma not_dash_not_config (a : string) :
  not_dash a = true -> String.eqb a "--config" = false.
Proof.
  destruct a as [| c a]; [reflexivity |]. cbn [not_dash].
  intros H. apply negb_true_iff in H.
  cbn [String.eqb]. rewrite H. reflexivity.
Qed.

(** Once [srt_url] is set, every positional argument goes to [bg_file]. *)
Lemma parse_args_background (bs : list string) :
  Forall (fun b => not_dash b = true) bs ->
  forall (cp : option string) (cfg : Config),
    nonempty (srt_url cfg) = true ->
    parse_args bs cp cfg
    = (cp, match bs with
           | [] => cfg
           | _ => set_bg_file cfg (truncate 2047 (last bs EmptyString))
           end).
Proof.
  induction 1 as [| b rest Hb Hrest IH]; intros cp cfg Hurl; [reflexivity |].
  rewrite (parse_args_step b _ _ _ (not_dash_not_config b Hb)).
  rewrite Hb, Hurl. cbn [andb negb].
  rewrite IH by exact Hurl.
  destruct rest as [| b' rest']; reflexivity.
Qed.

Lemma last_default (A : Type) (x : A) (l : list A) (d d' : A) :
  last (x :: l) d = last (x :: l) d'.
Proof.
  revert x. induction l as [| y l IH]; intros x; [reflexivity |].
  change (last (y :: l) d = last (y :: l) d'). apply IH.
Qed.

(** X8.  The legacy command line.  When the first argument is not empty
    and does not start with a dash, and no later argument starts with a
    dash, [main] runs with the defaults, the first argument as [srt_url] and
    the last of the later ones as [bg_file] ([background.mp4] when there is
    none), each cut to 2047 characters. *)
Theorem main_legacy_arguments (strtod : string -> float)
  (files : string -> option string) (prog u : string) (bs : list string) :
  not_dash u = true -> nonempty u = true ->
  Forall (fun b => not_dash b = true) bs ->
  main strtod files (prog :: u :: bs)
  = Run (set_bg_file (set_srt_url default_config (truncate 2047 u))
           (truncate 2047 (last bs "background.mp4"%string))).
Proof.
  intros Hu Hne Hbs. unfold main. cbn [tl hd].
  rewrite (parse_args_step u _ _ _ (not_dash_not_config u Hu)).
  rewrite Hu. cbn [andb negb default_config srt_url nonempty].
  rewrite parse_args_background;
    [| exact Hbs
     | cbn [set_srt_url srt_url]; rewrite nonempty_truncate; exact Hne].
  cbn [Z.ltb Z.compare]. cbv iota.
  assert (Hurl : forall c, nonempty (srt_url c) = true ->
                 (if negb (nonempty (srt_url c)) then Exit 1 [Usage prog]
                  else Run c) = Run c).
  { intros c Hc. rewrite Hc. reflexivity. }
  destruct bs as [| b rest].
  - rewrite Hurl
      by (cbn [set_srt_url srt_url]; rewrite nonempty_truncate; exact Hne).
    reflexivity.
  - rewrite Hurl by (cbn [set_bg_file set_srt_url srt_url];
                     rewrite nonempty_truncate; exact Hne).
    rewrite (last_default _ b rest EmptyString "background.mp4"%string).
    reflexivity.
Qed.

(** [srt_compositor srt://origin:9000 intro.mp4 loop.mp4]. *)
Lemma main_legacy_arguments_witness :
  (not_dash "srt://origin:9000" = true /\
   nonempty "srt://origin:9000" = true /\
   Forall (fun b => not_dash b = true) ["intro.mp4"; "loop.mp4"]%string) /\
  main strtod_whole one_config_file
    ["srt_compositor"; "srt://origin:9000"; "intro.mp4"; "loop.mp4"]%string
  = Run (set_bg_file (set_srt_url default_config "srt://origin:9000")
           "loop.mp4").
Proof.
  assert (H1 : not_dash "srt://origin:9000" = true) by reflexivity.
  assert (H2 : nonempty "srt://origin:9000" = true) by reflexivity.
  assert (H3 : Forall (fun b => not_dash b = true)
                 ["intro.mp4"; "loop.mp4"]%string)
    by (repeat constructor).
  split; [repeat split; assumption |].
  exact (main_legacy_arguments strtod_whole one_config_file "srt_compositor"
           "srt://origin:9000" ["intro.mp4"; "loop.mp4"]%string H1 H2 H3).
Defined.

(** [srt_compositor --config missing.json] where the file does not open. *)
Lemma config_not_loaded_witness :
  parse_args (tl ["srt_compositor"; "--config"; "missing.json"]%string) None
    default_config
  = (Some "missing.json"%string, default_config) /\
  main strtod_whole one_config_file
    ["srt_compositor"; "--config"; "missing.json"]%string
  = Exit 1 [CannotOpenConfig "missing.json"].
Proof.
  assert (H : parse_args
                (tl ["srt_compositor"; "--config"; "missing.json"]%string) None
                default_config
              = (Some "missing.json"%string, default_config)) by reflexivity.
  split; [exact H |].
  exact (config_not_loaded strtod_whole one_config_file
           ["srt_compositor"; "--config"; "missing.json"]%string
           "missing.json" default_config H).
Defined.

(* ================================================================== *)
(** * Pacing *)
(* ================================================================== *)

(** X9.  With a frame rate above 0 and a clock that does not run
    backwards, a tick that ends more than 1000 microseconds before its
    deadline [t0 + 1000000 / out_fps] sleeps exactly until the deadline;
    otherwise it does not sleep, so it never sleeps past the deadline. *)
Theorem pace_sleeps_to_deadline (g_cfg : Config) (env : TickEnv) :
  0 < out_fps g_cfg ->
  0 <= now_t0 env <= now_end env -> now_end env <= INT64_MAX ->
  match pace g_cfg env with
  | Some d =>
      1000 < d /\ now_end env + d = now_t0 env + 1000000 / out_fps g_cfg
  | None => now_t0 env + 1000000 / out_fps g_cfg - now_end env <= 1000
  end.
Proof.
  intros Hfps Hclock Hmax. unfold pace, c_div.
  rewrite Z.quot_div_nonneg by lia.
  assert (Hdur : 0 <= 1000000 / out_fps g_cfg <= 1000000).
  { split; [apply Z.div_pos; lia |].
    apply Z.div_le_upper_bound; [lia | nia]. }
  rewrite (int64_in_range (now_end env - now_t0 env))
    by (unfold in_int64, INT64_MIN, INT64_MAX in *; lia).
  rewrite int64_in_range
    by (unfold in_int64, INT64_MIN, INT64_MAX in *; lia).
  destruct (Z.gtb_spec (1000000 / out_fps g_cfg - (now_end env - now_t0 env))
              1000) as [Hsl | Hsl]; [| lia].
  unfold uint32. rewrite Z.mod_small by lia. lia.
Qed.

(** A tick at 30 frames per second that took 2000 microseconds sleeps
    31333 more. *)
Lemma pace_sleeps_to_deadline_witness :
  (0 < out_fps default_config /\
   0 <= now_t0 bg_video_env <= now_end bg_video_env /\
   now_end bg_video_env <= INT64_MAX) /\
  pace default_config bg_video_env = Some 31333 /\
  2000 + 31333 = 0 + 1000000 / 30.
Proof.
  assert (H1 : 0 < out_fps default_config) by reflexivity.
  assert (H2 : 0 <= now_t0 bg_video_env <= now_end bg_video_env)
    by (split; vm_compute; discriminate).
  assert (H3 : now_end bg_video_env <= INT64_MAX)
    by (vm_compute; discriminate).
  assert (Hp : pace default_config bg_video_env = Some 31333)
    by (vm_compute; reflexivity).
  pose proof (pace_sleeps_to_deadline default_config bg_video_env H1 H2 H3)
    as H.
  rewrite Hp in H.
  split; [split; [exact H1 | split; [exact H2 | exact H3]] |].
  split; [exact Hp | exact (proj2 H)].
Defined.

(* ================================================================== *)
(** * The status log of the loop *)
(* ================================================================== *)

Lemma replay_app (g_cfg : Config) (st : AudioMode * bool)
  (e1 e2 : list Event) :
  replay g_cfg st (e1 ++ e2)
  = match replay g_cfg st e1 with
    | Some st' => replay g_cfg st' e2
    | None => None
    end.
Proof.
  revert st. induction e1 as [| e e1 IH]; intros st; [reflexivity |].
  cbn [List.app replay].
  destruct (observe g_cfg st e); [apply IH | reflexivity].
Qed.

Lemma same_mode_refl (m : AudioMode) : same_mode m m = true.
Proof. destruct m; reflexivity. Qed.

Lemma count_stats_app (e1 e2 : list Event) :
  count_stats (e1 ++ e2) = count_stats e1 + count_stats e2.
Proof. unfold count_stats. rewrite filter_app, length_app. lia. Qed.

Section LogFacts.

Variable g_cfg : Config.
Variable uninit : nat -> fsample.

Lemma audio_mode_machine_replay (use : bool) (env : TickEnv) (mode : AudioMode)
  (drop : Z) (bgq : AVAudioFifo) (video : bool) :
  replay g_cfg (mode, video)
    (snd (audio_mode_machine g_cfg use env mode drop bgq))
  = Some (fst (fst (fst (audio_mode_machine g_cfg use env mode drop bgq))),
          video).
Proof.
  unfold audio_mode_machine.
  destruct use, mode; cbn; try reflexivity;
    destruct (int64 _ >? bg_unmute_us g_cfg); reflexivity.
Qed.

Lemma video_change_log_replay (use was : bool) (mode : AudioMode) :
  replay g_cfg (mode, was) (video_change_log use was) = Some (mode, use).
Proof. destruct use, was; reflexivity. Qed.

Lemma stats_block_replay (env : TickEnv) (k : nat) (mode : AudioMode)
  (ticker : Z) (a : AppState) (video : bool) :
  replay g_cfg (mode, video) (snd (stats_block g_cfg env k mode ticker a))
  = Some (mode, video).
Proof.
  unfold stats_block.
  destruct (int64 (ticker + 1) >=? out_fps g_cfg); [| reflexivity].
  cbn. rewrite Z.eqb_refl, same_mode_refl. reflexivity.
Qed.

(** The events and the loop variables a finished tick leaves. *)
Lemma tick_log (env : TickEnv) (s : LoopState) (r : TickResult) :
  tick g_cfg uninit env s = Some r ->
  exists (a : AppState) (k : nat),
    events r
    = events_now (before_audio g_cfg env s)
      ++ snd (stats_block g_cfg env k (mode_now (before_audio g_cfg env s))
                (stats_ticker s) a) /\
    stats_ticker (next r)
    = fst (fst (stats_block g_cfg env k (mode_now (before_audio g_cfg env s))
                  (stats_ticker s) a)) /\
    audio_mode (next r) = mode_now (before_audio g_cfg env s) /\
    was_srt_video (next r) = use_srt_video (before_audio g_cfg env s).
Proof.
  unfold tick.
  destruct (audio_loop _ _ _ _ _ _ _ _) as [[[a k] aframes] |]; [| discriminate].
  intros H. exists a, k.
  destruct (stats_block _ _ _ _ _ _) as [[ticker a''] evs].
  injection H as <-. cbn. repeat split; reflexivity.
Qed.

Lemma tick_replay (env : TickEnv) (s : LoopState) (r : TickResult) :
  tick g_cfg uninit env s = Some r ->
  replay g_cfg (audio_mode s, was_srt_video s) (events r)
  = Some (audio_mode (next r), was_srt_video (next r))
  /\ (was_srt_video (next r) = true <-> audio_mode (next r) = AUDIO_SRT).
Proof.
  intros Htick.
  destruct (tick_log env s r Htick) as (a & k & -> & _ & -> & ->).
  split; [| symmetry; apply before_audio_mode].
  rewrite replay_app.
  rewrite before_audio_fields. cbn [events_now mode_now use_srt_video].
  rewrite replay_app, audio_mode_machine_replay, video_change_log_replay.
  apply stats_block_replay.
Qed.

Lemma events_now_no_stats (env : TickEnv) (s : LoopState) :
  count_stats (events_now (before_audio g_cfg env s)) = 0.
Proof.
  rewrite before_audio_fields. cbn [events_now].
  rewrite count_stats_app.
  assert (H1 : forall use mode drop bgq,
             count_stats
               (snd (audio_mode_machine g_cfg use env mode drop bgq)) = 0).
  { intros use mode drop bgq. unfold audio_mode_machine.
    destruct use, mode; cbn; try reflexivity;
      destruct (int64 _ >? bg_unmute_us g_cfg); reflexivity. }
  assert (H2 : forall use was, count_stats (video_change_log use was) = 0)
    by (intros [|] [|]; reflexivity).
  rewrite H1, H2. reflexivity.
Qed.

(** One tick moves the ticker by one, and logs [stats] when it reaches
    [out_fps]. *)
Lemma tick_stats (env : TickEnv) (s : LoopState) (r : TickResult) :
  out_fps g_cfg <= INT64_MAX ->
  0 <= stats_ticker s < out_fps g_cfg ->
  tick g_cfg uninit env s = Some r ->
  (stats_ticker s + 1 < out_fps g_cfg ->
   count_stats (events r) = 0 /\ stats_ticker (next r) = stats_ticker s + 1) /\
  (stats_ticker s + 1 = out_fps g_cfg ->
   count_stats (events r) = 1 /\ stats_ticker (next r) = 0).
Proof.
  intros Hmax Ht Htick.
  destruct (tick_log env s r Htick) as (a & k & -> & -> & _).
  rewrite count_stats_app, events_now_no_stats.
  unfold stats_block.
  rewrite int64_in_range by (unfold in_int64, INT64_MIN, INT64_MAX in *; lia).
  destruct (Z.geb_spec (stats_ticker s + 1) (out_fps g_cfg)) as [Hge | Hlt];
    cbn; split; intros H; try lia; split; reflexivity.
Qed.

End LogFacts.

(** X10.  The status log tracks the loop.  Over any run of ticks, the
    events logged can be followed from the audio mode and the video source
    the run started with: [srt_active] comes only when the mode is not SRT,
    [srt_grace] only in SRT, [bg_audio_on] only in GRACE, [video_srt] and
    [video_bg] alternate, and each [stats] reports the configured frame
    rate and the mode of that moment; the state reached by following them is
    the one the loop is in.  After at least one tick the inbound picture is
    on screen exactly when the audio mode is SRT. *)
Theorem status_log_tracks_loop (g_cfg : Config) (uninit : nat -> fsample)
  (envs : list TickEnv) :
  forall (s s' : LoopState) (fs : list OutFrame) (evs : list Event),
    main_loop g_cfg uninit envs s = Some (s', fs, evs) ->
    replay g_cfg (audio_mode s, was_srt_video s) evs
    = Some (audio_mode s', was_srt_video s')
    /\ (envs <> [] ->
        (was_srt_video s' = true <-> audio_mode s' = AUDIO_SRT)).
Proof.
  induction envs as [| env envs IH]; intros s s' fs evs; cbn [main_loop].
  - intros H. injection H as <- _ <-. split; [reflexivity |].
    intros H; contradiction.
  - destruct (tick g_cfg uninit env s) as [r |] eqn:Htick; [| discriminate].
    destruct (main_loop g_cfg uninit envs (next r)) as [[[s1 f1] v1] |] eqn:Hrun;
      [| discriminate].
    intros H. injection H as <- _ <-.
    destruct (tick_replay g_cfg uninit env s r Htick) as [Hrep Hinv].
    destruct (IH _ _ _ _ Hrun) as [Hrep1 Hinv1].
    split.
    + rewrite replay_app, Hrep. exact Hrep1.
    + intros _. destruct envs as [| env' envs'].
      * cbn in Hrun. injection Hrun as <- _ _. exact Hinv.
      * apply Hinv1. discriminate.
Qed.

(** A tick in which a session starts and the tick in which it is lost. *)
Lemma status_log_tracks_loop_witness :
  exists s fs evs,
    main_loop default_config junk [srt_talk_env; srt_lost_env] start
    = Some (s, fs, evs) /\
    replay default_config (AUDIO_BG, false) evs
    = Some (audio_mode s, was_srt_video s) /\
    (was_srt_video s = true <-> audio_mode s = AUDIO_SRT).
Proof.
  destruct (main_loop_clock default_config junk [srt_talk_env; srt_lost_env]
              ltac:(reflexivity) ltac:(reflexivity) start)
    as (s & fs & evs & Hrun & _).
  - vm_compute; discriminate.
  - split; vm_compute; discriminate.
  - vm_compute; discriminate.
  - vm_compute; reflexivity.
  - exists s, fs, evs. split; [exact Hrun |].
    destruct (status_log_tracks_loop default_config junk
                [srt_talk_env; srt_lost_env] start s fs evs Hrun)
      as [Hrep Hinv].
    split; [exact Hrep | apply Hinv; discriminate].
Defined.

(** X11.  [stats] is logged on every [out_fps]-th tick.  Over a run of [n]
    ticks that starts with the ticker at [t], [0 <= t < out_fps], the number
    of [stats] events is [(t + n) / out_fps] and the ticker ends at
    [(t + n) mod out_fps]. *)
Theorem stats_every_out_fps_ticks (g_cfg : Config) (uninit : nat -> fsample)
  (envs : list TickEnv) :
  out_fps g_cfg <= INT64_MAX ->
  forall (s s' : LoopState) (fs : list OutFrame) (evs : list Event),
    0 <= stats_ticker s < out_fps g_cfg ->
    main_loop g_cfg uninit envs s = Some (s', fs, evs) ->
    count_stats evs
    = (stats_ticker s + Z.of_nat (length envs)) / out_fps g_cfg /\
    stats_ticker s'
    = (stats_ticker s + Z.of_nat (length envs)) mod out_fps g_cfg.
Proof.
  intros Hmax.
  induction envs as [| env envs IH]; intros s s' fs evs Ht; cbn [main_loop].
  - intros H. injection H as <- _ <-. cbn [length Z.of_nat].
    rewrite Z.add_0_r, Z.div_small, Z.mod_small by lia. split; reflexivity.
  - destruct (tick g_cfg uninit env s) as [r |] eqn:Htick; [| discriminate].
    destruct (main_loop g_cfg uninit envs (next r)) as [[[s1 f1] v1] |] eqn:Hrun;
      [| discriminate].
    intros H. injection H as <- _ <-.
    destruct (tick_stats g_cfg uninit env s r Hmax Ht Htick) as [Hless Hfull].
    rewrite count_stats_app.
    replace (Z.of_nat (length (env :: envs)))
      with (1 + Z.of_nat (length envs)) by (cbn [length]; lia).
    destruct (Z.lt_ge_cases (stats_ticker s + 1) (out_fps g_cfg)) as [Hlt | Hge].
    + destruct (Hless Hlt) as [Hc Hn].
      destruct (IH _ _ _ _ ltac:(rewrite Hn; lia) Hrun) as [Hc1 Hn1].
      rewrite Hc, Hc1, Hn1, Hn. rewrite !Z.add_assoc. split; reflexivity.
    + assert (Heq : stats_ticker s + 1 = out_fps g_cfg) by lia.
      destruct (Hfull Heq) as [Hc Hn].
      destruct (IH _ _ _ _ ltac:(rewrite Hn; lia) Hrun) as [Hc1 Hn1].
      rewrite Hc, Hc1, Hn1, Hn. rewrite !Z.add_assoc, Heq, Z.add_0_l.
      replace (out_fps g_cfg + Z.of_nat (length envs))
        with (Z.of_nat (length envs) + 1 * out_fps g_cfg) by lia.
      rewrite Z.div_add, Z.mod_add by lia. split; [lia | reflexivity].
Qed.

(** Two ticks at two frames per second: one [stats] event. *)
Lemma stats_every_out_fps_ticks_witness :
  (out_fps two_fps_config <= INT64_MAX /\
   0 <= stats_ticker start < out_fps two_fps_config) /\
  exists s fs evs,
    main_loop two_fps_config junk [bg_video_env; bg_audio_env] start
    = Some (s, fs, evs) /\
    count_stats evs = 1 /\
    stats_ticker s = 0.
Proof.
  assert (H1 : out_fps two_fps_config <= INT64_MAX)
    by (vm_compute; discriminate).
  assert (H2 : 0 <= stats_ticker start < out_fps two_fps_config)
    by (split; [vm_compute; discriminate | reflexivity]).
  split; [split; assumption |].
  destruct (main_loop_clock two_fps_config junk [bg_video_env; bg_audio_env]
              ltac:(reflexivity) ltac:(reflexivity) start)
    as (s & fs & evs & Hrun & _).
  - vm_compute; discriminate.
  - split; vm_compute; discriminate.
  - vm_compute; discriminate.
  - vm_compute; reflexivity.
  - exists s, fs, evs. split; [exact Hrun |].
    exact (stats_every_out_fps_ticks two_fps_config junk
             [bg_video_env; bg_audio_env] H1 start s fs evs H2 Hrun).
Defined.

(* ================================================================== *)
(** * The shared slot under the main loop *)
(* ================================================================== *)

Lemma reader_fields_ops (ops : list ReaderOp) :
  forall sh sh' : SrtShared,
    reader_fields sh = reader_fields sh' ->
    reader_fields (reader_ops sh ops) = reader_fields (reader_ops sh' ops).
Proof.
  induction ops as [| op ops IH]; intros sh sh' H; [exact H |].
  apply IH. unfold reader_fields in *. injection H as Hv Hh Ht Hc.
  destruct op; cbn; congruence.
Qed.

Lemma reader_ops_app (sh : SrtShared) (a b : list ReaderOp) :
  reader_ops sh (a ++ b) = reader_ops (reader_ops sh a) b.
Proof. apply fold_left_app. Qed.

Lemma delivered_S (env : TickEnv) (k : nat) :
  delivered env (S k) = delivered env k ++ reader env k.
Proof.
  unfold delivered. rewrite seq_S, map_app, concat_app. cbn.
  rewrite app_nil_r. reflexivity.
Qed.

Lemma delivered_step (env : TickEnv) (sh0 sh : SrtShared) (k : nat) :
  reader_fields sh = reader_fields (reader_ops sh0 (delivered env k)) ->
  reader_fields (reader_ops sh (reader env k))
  = reader_fields (reader_ops sh0 (delivered env (S k))).
Proof.
  intros H. rewrite delivered_S, reader_ops_app.
  apply reader_fields_ops. exact H.
Qed.

Lemma delivered_idle (env : TickEnv) (k : nat) :
  (forall j, reader env j = []) -> delivered env k = [].
Proof.
  intros Hidle. induction k as [| k IH]; [reflexivity |].
  rewrite delivered_S, IH, Hidle. reflexivity.
Qed.

Section SlotFacts.

Variable g_cfg : Config.
Variable uninit : nat -> fsample.

Lemma drain_and_trim_fields (ops : list ReaderOp) (a : AppState) :
  reader_fields (shared (drain_and_trim g_cfg ops a))
  = reader_fields (reader_ops (shared a) ops).
Proof.
  unfold drain_and_trim.
  destruct (av_audio_fifo_size _ >? 0);
    [destruct (av_audio_fifo_read _ _) as [tbuf shq] |]; reflexivity.
Qed.

Lemma before_audio_slot (env : TickEnv) (s : LoopState) :
  reader_fields (shared (app_now (before_audio g_cfg env s)))
  = reader_fields
      (reader_ops (shared (app s))
         (delivered env (sections (before_audio g_cfg env s)))).
Proof.
  rewrite before_audio_fields. cbn [app_now sections].
  destruct (decode_background_keeps 5 0 (bg_reads env) false (app s))
    as (_ & Hsh & _).
  set (a1 := snd (decode_background 5 0 (bg_reads env) false (app s))) in *.
  destruct (check_srt_shared_keeps
              (set_shared a1 (reader_ops (shared a1) (reader env 0))))
    as (_ & Hsh2 & _).
  set (c := check_srt_shared _) in *.
  match goal with
  | |- context [video_output ?u ?h ?x] =>
      destruct (video_output_cases u h x) as (_ & Hsh3 & _);
      set (v := video_output u h x) in *
  end.
  assert (Hone : reader_fields (shared (fst v))
                 = reader_fields
                     (reader_ops (shared (app s)) (delivered env 1))).
  { rewrite Hsh3. cbn [shared set_bg_audio_fifo set_bg]. rewrite Hsh2.
    cbn [shared set_shared]. rewrite Hsh.
    unfold delivered. cbn. rewrite app_nil_r. reflexivity. }
  destruct (fst (fst (fst _))).
  - rewrite drain_and_trim_fields. apply delivered_step. exact Hone.
  - exact Hone.
  - exact Hone.
Qed.

Lemma audio_body_slot (mode : AudioMode) (sz : Z) (env : TickEnv)
  (sh0 : SrtShared) (k : nat) (a a1 : AppState) (k1 : nat) (f : AudioFrame) :
  audio_body uninit mode sz env k a = Some (a1, k1, f) ->
  reader_fields (shared a) = reader_fields (reader_ops sh0 (delivered env k)) ->
  reader_fields (shared a1) = reader_fields (reader_ops sh0 (delivered env k1)).
Proof.
  unfold audio_body. destruct mode.
  - destruct (av_audio_fifo_size (srt_local_fifo a) >=? sz); [| discriminate].
    destruct (encode_one_audio_frame _ _ _ _) as [[o q] f0].
    intros H. injection H as <- <- _. exact (fun J => J).
  - destruct (encode_one_audio_frame _ _ _ _) as [[o q] f0].
    intros H. injection H as <- <- _. intros J.
    cbn [shared set_shared set_srt_local_fifo set_out].
    change (reader_fields (set_audio_fifo ?x ?q)) with (reader_fields x).
    apply delivered_step. exact J.
  - destruct (encode_one_audio_frame _ _ _ _) as [[o q] f0].
    intros H. injection H as <- <- _. exact (fun J => J).
Qed.

Lemma audio_loop_slot (mode : AudioMode) (sz target : Z) (env : TickEnv)
  (sh0 : SrtShared) (fuel : nat) :
  forall (k : nat) (a a' : AppState) (k' : nat) (fs : list OutFrame),
    audio_loop uninit fuel mode sz target env k a = Some (a', k', fs) ->
    reader_fields (shared a) = reader_fields (reader_ops sh0 (delivered env k)) ->
    reader_fields (shared a')
    = reader_fields (reader_ops sh0 (delivered env k')).
Proof.
  induction fuel as [| fuel IH]; intros k a a' k' fs; cbn [audio_loop].
  - destruct (audio_pts (out a) <? target); [discriminate |].
    intros H. injection H as <- <- _. exact (fun J => J).
  - destruct (audio_pts (out a) <? target).
    + destruct (audio_body uninit mode sz env k a) as [[[a1 k1] f] |] eqn:Hbody.
      * destruct (audio_loop uninit fuel mode sz target env k1 a1)
          as [[[a2 k2] fs2] |] eqn:Hrest; [| discriminate].
        intros H. injection H as <- <- _. intros J.
        apply (IH _ _ _ _ _ Hrest).
        exact (audio_body_slot _ _ _ _ _ _ _ _ _ Hbody J).
      * intros H. injection H as <- <- _. exact (fun J => J).
    + intros H. injection H as <- <- _. exact (fun J => J).
Qed.

End SlotFacts.

(** X12.  The main loop writes nothing of the slot but its audio queue.
    After a tick, the slot's picture, [has_video], [last_frame_time] and
    [connected] are what the reader operations that ran before the tick's
    critical sections made of the values the tick started with; when the
    reader did nothing during the tick, the four are unchanged, whatever the
    audio mode. *)
Theorem main_loop_writes_only_the_audio_queue (g_cfg : Config)
  (uninit : nat -> fsample) (env : TickEnv) (s : LoopState) (r : TickResult) :
  tick g_cfg uninit env s = Some r ->
  (exists k : nat,
     reader_fields (shared (app (next r)))
     = reader_fields (reader_ops (shared (app s)) (delivered env k))) /\
  ((forall j, reader env j = []) ->
   reader_fields (shared (app (next r))) = reader_fields (shared (app s))).
Proof.
  intros Htick.
  assert (Hk : exists k : nat,
             reader_fields (shared (app (next r)))
             = reader_fields (reader_ops (shared (app s)) (delivered env k))).
  { unfold tick in Htick.
    destruct (audio_loop _ _ _ _ _ _ _ _) as [[[a k] aframes] |] eqn:Hloop;
      [| discriminate].
    pose proof (audio_loop_slot uninit _ _ _ _ (shared (app s)) _ _ _ _ _ _ Hloop
                  (before_audio_slot g_cfg env s)) as J.
    unfold stats_block in Htick.
    destruct (int64 (stats_ticker s + 1) >=? out_fps g_cfg);
      injection Htick as <-; cbn [next app shared set_shared].
    - exists (S k). apply delivered_step. exact J.
    - exists k. exact J. }
  split; [exact Hk |].
  intros Hidle. destruct Hk as (k & ->).
  rewrite (delivered_idle env k Hidle). reflexivity.
Qed.

(** A tick in SRT, which drains the slot's audio queue, on a connected slot
    that holds a picture. *)
Lemma main_loop_writes_only_the_audio_queue_witness :
  exists r,
    tick default_config junk bg_video_env in_srt = Some r /\
    reader_fields (shared (app (next r))) = reader_fields live_slot.
Proof.
  destruct (tick_clock default_config junk bg_video_env in_srt)
    as (r & Htick & _).
  - unfold in_range. repeat split; vm_compute; reflexivity || discriminate.
  - exists r. split; [exact Htick |].
    exact (proj2 (main_loop_writes_only_the_audio_queue default_config junk
                    bg_video_env in_srt r Htick)
             (fun j => eq_refl)).
Defined.

(* ================================================================== *)
(** * The background audio queue *)
(* ================================================================== *)

(** The background phase appends what it decoded, and nothing else touches
    the queue in that phase. *)
Lemma decode_background_audio (n i : nat) (reads : nat -> BgRead)
  (a : AppState) :
  bg_audio_fifo (snd (decode_background n i reads false a))
  = bg_audio_fifo a ++ bg_audio_read n i reads.
Proof.
  revert i a. induction n as [| n IH]; intros i a;
    cbn [decode_background bg_audio_read];
    [cbn; rewrite app_nil_r; reflexivity |].
  destruct (reads i) as [| pic | converted |]; cbn [read_bg_frame Z.eqb].
  - rewrite IH. reflexivity.
  - destruct n; cbn; rewrite app_nil_r; reflexivity.
  - rewrite IH. cbn. unfold av_audio_fifo_write. rewrite app_assoc.
    reflexivity.
  - rewrite IH. reflexivity.
Qed.

Lemma stats_block_queues (g_cfg : Config) (env : TickEnv) (k : nat)
  (mode : AudioMode) (ticker : Z) (a : AppState) :
  bg_audio_fifo (snd (fst (stats_block g_cfg env k mode ticker a)))
  = bg_audio_fifo a.
Proof.
  unfold stats_block.
  destruct (int64 (ticker + 1) >=? out_fps g_cfg); reflexivity.
Qed.

(** What a finished tick is made of, with the background queue. *)
Lemma tick_parts_bg (g_cfg : Config) (uninit : nat -> fsample) (env : TickEnv)
  (s : LoopState) (r : TickResult) :
  tick g_cfg uninit env s = Some r ->
  exists a k aframes,
    audio_loop uninit
      (Z.to_nat (target_audio g_cfg (out (app_now (before_audio g_cfg env s)))
                 - audio_pts (out (app_now (before_audio g_cfg env s)))))
      (mode_now (before_audio g_cfg env s)) (aframe_size (out (app s)))
      (target_audio g_cfg (out (app_now (before_audio g_cfg env s)))) env
      (sections (before_audio g_cfg env s))
      (app_now (before_audio g_cfg env s)) = Some (a, k, aframes) /\
    frames r = vframes (before_audio g_cfg env s) ++ aframes /\
    audio_mode (next r) = mode_now (before_audio g_cfg env s) /\
    out (app (next r)) = out a /\
    bg_audio_fifo (app (next r)) = bg_audio_fifo a.
Proof.
  unfold tick.
  destruct (audio_loop _ _ _ _ _ _ _ _) as [[[a k] aframes] |] eqn:Hloop;
    [| discriminate].
  pose proof (stats_block_keeps g_cfg env k
                (mode_now (before_audio g_cfg env s)) (stats_ticker s) a)
    as [Hso _].
  pose proof (stats_block_queues g_cfg env k
                (mode_now (before_audio g_cfg env s)) (stats_ticker s) a)
    as Hsq.
  destruct (stats_block _ _ _ _ _ _) as [[ticker a''] evs].
  intros H. injection H as <-. cbn [fst snd] in *.
  exists a, k, aframes. cbn. repeat split; assumption || reflexivity.
Qed.

Lemma padded_frames_length (sz pts : Z) (n : nat) (q : AVAudioFifo) :
  length (padded_frames sz pts n q) = n.
Proof.
  revert pts q. induction n as [| n IH]; intros pts q; cbn; [reflexivity |].
  rewrite IH. reflexivity.
Qed.

Lemma filter_audio_frames (l : list AudioFrame) :
  filter is_audio (map Audio l) = map Audio l.
Proof. induction l as [| f l IH]; cbn; [| rewrite IH]; reflexivity. Qed.

(** One frame, whether the queue fills it or not. *)
Lemma encode_padded_frame (uninit : nat -> fsample) (o : OutputCtx)
  (fifo : AVAudioFifo) (sz : Z) :
  0 < sz -> sz * 4 <= INT_MAX ->
  encode_one_audio_frame uninit o fifo sz
  = (set_audio_pts o (int64 (audio_pts o + sz)),
     skipn (Z.to_nat sz) fifo,
     {| nb_samples := sz; a_pts := audio_pts o;
        data0 := map fst (firstn (Z.to_nat sz) fifo)
                 ++ repeat 0 (Z.to_nat sz - length fifo);
        data1 := map snd (firstn (Z.to_nat sz) fifo)
                 ++ repeat 0 (Z.to_nat sz - length fifo) |}).
Proof.
  intros Hsz Hmax.
  destruct (Z.le_gt_cases sz (av_audio_fifo_size fifo)) as [Hge | Hlt].
  - rewrite encode_whole_frame by assumption.
    unfold av_audio_fifo_size in Hge.
    replace (Z.to_nat sz - length fifo)%nat with 0%nat by lia.
    cbn [repeat]. rewrite !app_nil_r. reflexivity.
  - rewrite encode_short_frame by assumption.
    unfold av_audio_fifo_size in Hlt.
    rewrite firstn_all2, skipn_all2 by lia. reflexivity.
Qed.

Section BgLoopFacts.

Variable g_cfg : Config.
Variable uninit : nat -> fsample.

(** In SRT the loop leaves the background queue alone. *)
Lemma audio_loop_srt_bg (sz target : Z) (env : TickEnv) (fuel : nat) :
  forall (k : nat) (a a' : AppState) (k' : nat) (fs : list OutFrame),
    audio_loop uninit fuel AUDIO_SRT sz target env k a = Some (a', k', fs) ->
    bg_audio_fifo a' = bg_audio_fifo a.
Proof.
  induction fuel as [| fuel IH]; intros k a a' k' fs; cbn [audio_loop].
  - destruct (audio_pts (out a) <? target); [discriminate |].
    intros H. injection H as <- _ _. reflexivity.
  - destruct (audio_pts (out a) <? target).
    + unfold audio_body.
      destruct (av_audio_fifo_size (srt_local_fifo a) >=? sz).
      * destruct (encode_one_audio_frame _ _ _ _) as [[o q] f0].
        destruct (audio_loop uninit fuel AUDIO_SRT sz target env k _)
          as [[[a2 k2] fs2] |] eqn:Hrest; [| discriminate].
        intros H. injection H as <- _ _.
        rewrite (IH _ _ _ _ _ Hrest). reflexivity.
      * intros H. injection H as <- _ _. reflexivity.
    + intros H. injection H as <- _ _. reflexivity.
Qed.

(** In BG the loop encodes frames from the background queue until the clock
    has caught up, completing with zeros what the queue cannot fill; it
    touches neither the local queue nor the slot. *)
Lemma audio_loop_bg (sz target : Z) (env : TickEnv) :
  0 < sz -> sz * 4 <= INT_MAX -> target + sz <= INT64_MAX + 1 ->
  forall (fuel k : nat) (a : AppState),
    in_int64 (audio_pts (out a)) ->
    (Z.to_nat (target - audio_pts (out a)) <= fuel)%nat ->
    exists (n : nat) (a' : AppState),
      audio_loop uninit fuel AUDIO_BG sz target env k a
      = Some (a', k,
              map Audio (padded_frames sz (audio_pts (out a)) n
                           (bg_audio_fifo a))) /\
      bg_audio_fifo a' = skipn (n * Z.to_nat sz) (bg_audio_fifo a) /\
      srt_local_fifo a' = srt_local_fifo a /\
      shared a' = shared a.
Proof.
  intros Hsz Hmax Htarget.
  induction fuel as [| fuel IH]; intros k a Hin Hfuel; cbn [audio_loop].
  - destruct (Z.ltb_spec (audio_pts (out a)) target) as [Hlt | Hge]; [lia |].
    exists 0%nat, a. repeat split.
  - destruct (Z.ltb_spec (audio_pts (out a)) target) as [Hlt | Hge].
    + unfold audio_body. rewrite encode_padded_frame by assumption.
      set (a1 := set_bg_audio_fifo _ _).
      assert (Hadd : audio_pts (out a1) = audio_pts (out a) + sz).
      { cbn. apply int64_in_range.
        unfold in_int64, INT64_MIN, INT64_MAX in *. lia. }
      destruct (IH k a1) as (n & a' & Hloop & Hq & Hl & Hs).
      { rewrite Hadd. unfold in_int64, INT64_MIN, INT64_MAX in *. lia. }
      { rewrite Hadd. lia. }
      rewrite Hloop. exists (S n), a'.
      assert (Hq1 : bg_audio_fifo a1 = skipn (Z.to_nat sz) (bg_audio_fifo a))
        by reflexivity.
      rewrite Hq1 in *. rewrite Hadd.
      split; [reflexivity |].
      split; [rewrite Hq, skipn_skipn; f_equal; lia |].
      split; [rewrite Hl; reflexivity | rewrite Hs; reflexivity].
    + exists 0%nat, a. repeat split.
Qed.

(** The background queue when the encode phase of a tick in BG begins: what
    the tick started with, followed by what it decoded. *)
Lemma before_audio_bg (env : TickEnv) (s : LoopState) :
  mode_now (before_audio g_cfg env s) = AUDIO_BG ->
  bg_audio_fifo (app_now (before_audio g_cfg env s))
  = bg_audio_fifo (app s) ++ bg_audio_read 5 0 (bg_reads env).
Proof.
  intros Hmode.
  assert (Huse : use_srt_video (before_audio g_cfg env s) = false).
  { destruct (use_srt_video (before_audio g_cfg env s)) eqn:Hu; [| reflexivity].
    apply before_audio_mode in Hu. congruence. }
  revert Hmode Huse. rewrite before_audio_fields.
  cbn [app_now use_srt_video mode_now].
  intros Hmode Huse. rewrite Hmode.
  match goal with
  | |- context [video_output ?u ?h ?x] =>
      destruct (video_output_cases u h x) as (_ & _ & Hq & _)
  end.
  rewrite Hq. cbn [bg_audio_fifo set_bg_audio_fifo set_bg].
  rewrite Huse in *.
  assert (Hkeep : forall mode drop bgq,
             snd (fst (audio_mode_machine g_cfg false env mode drop bgq)) = bgq).
  { intros mode drop bgq. unfold audio_mode_machine.
    destruct mode; cbn; try reflexivity;
      destruct (int64 _ >? bg_unmute_us g_cfg); reflexivity. }
  rewrite Hkeep.
  rewrite (proj2 (proj2 (proj2 (proj2 (check_srt_shared_keeps _))))).
  cbn [bg_audio_fifo set_shared].
  apply decode_background_audio.
Qed.

End BgLoopFacts.

(** X13.  While the audio mode stays SRT the background audio is queued and
    never read.  A tick that starts and ends in SRT leaves the background
    queue as it was, followed by the samples of the background audio packets
    it decoded: the queue grows for as long as the inbound session lasts. *)
Theorem background_audio_piles_up_in_srt (g_cfg : Config)
  (uninit : nat -> fsample) (env : TickEnv) (s : LoopState) (r : TickResult) :
  tick g_cfg uninit env s = Some r ->
  audio_mode s = AUDIO_SRT -> audio_mode (next r) = AUDIO_SRT ->
  bg_audio_fifo (app (next r))
  = bg_audio_fifo (app s) ++ bg_audio_read 5 0 (bg_reads env).
Proof.
  intros Htick Hs Hr.
  destruct (tick_parts_bg g_cfg uninit env s r Htick)
    as (a & k & aframes & Hloop & _ & Hm & _ & Hstats).
  rewrite Hr in Hm. symmetry in Hm.
  rewrite Hm in Hloop.
  pose proof (audio_loop_srt_bg uninit _ _ _ _ _ _ _ _ _ Hloop) as Hbg.
  rewrite Hstats, Hbg. clear Htick Hloop Hstats Hbg.
  assert (Huse : use_srt_video (before_audio g_cfg env s) = true)
    by (apply before_audio_mode; exact Hm).
  revert Huse. rewrite before_audio_fields. cbn [app_now use_srt_video].
  intros Huse. rewrite Huse, Hs.
  cbn [audio_mode_machine fst snd].
  rewrite (proj2 (drain_and_trim_keeps g_cfg _ _)).
  match goal with
  | |- context [video_output ?u ?h ?x] =>
      destruct (video_output_cases u h x) as (_ & _ & Hq & _)
  end.
  rewrite Hq. cbn [bg_audio_fifo set_bg_audio_fifo set_bg].
  rewrite (proj2 (proj2 (proj2 (proj2 (check_srt_shared_keeps _))))).
  cbn [bg_audio_fifo set_shared].
  apply decode_background_audio.
Qed.

(** A tick in SRT in which the background file gives five audio packets of
    one sample each. *)
Lemma background_audio_piles_up_in_srt_witness :
  exists r,
    tick default_config junk bg_audio_env in_srt = Some r /\
    audio_mode in_srt = AUDIO_SRT /\
    audio_mode (next r) = AUDIO_SRT /\
    bg_audio_fifo (app (next r)) = [(1, 1); (1, 1); (1, 1); (1, 1); (1, 1)].
Proof.
  destruct (tick_clock default_config junk bg_audio_env in_srt)
    as (r & Htick & _).
  - unfold in_range. repeat split; vm_compute; reflexivity || discriminate.
  - assert (Hs : audio_mode in_srt = AUDIO_SRT) by reflexivity.
    assert (Hr : audio_mode (next r) = AUDIO_SRT).
    { destruct (tick_parts_bg default_config junk bg_audio_env in_srt r Htick)
        as (_ & _ & _ & _ & _ & Hm & _).
      rewrite Hm. vm_compute. reflexivity. }
    exists r. split; [exact Htick |]. split; [exact Hs |].
    split; [exact Hr |].
    exact (background_audio_piles_up_in_srt default_config junk bg_audio_env
             in_srt r Htick Hs Hr).
Defined.

(** X14.  Audio of a tick in BG.  A tick in range whose audio mode is BG
    ends; its audio frames are cut, oldest sample first, from the background
    queue as the tick found it followed by what the tick decoded; a frame
    the queue cannot fill is completed with zeros, so the loop never waits
    for the background file; the samples not encoded stay queued; and the
    frames are as many as it takes for the audio clock to reach its target,
    no more. *)
Theorem background_audio_padded (g_cfg : Config) (uninit : nat -> fsample)
  (env : TickEnv) (s : LoopState) :
  in_range g_cfg s ->
  aframe_size (out (app s)) * 4 <= INT_MAX ->
  mode_now (before_audio g_cfg env s) = AUDIO_BG ->
  exists (r : TickResult) (n : nat),
    tick g_cfg uninit env s = Some r /\
    audio_mode (next r) = AUDIO_BG /\
    filter is_audio (frames r)
    = map Audio
        (padded_frames (aframe_size (out (app s))) (audio_pts (out (app s))) n
           (bg_audio_fifo (app s) ++ bg_audio_read 5 0 (bg_reads env))) /\
    bg_audio_fifo (app (next r))
    = skipn (n * Z.to_nat (aframe_size (out (app s))))
        (bg_audio_fifo (app s) ++ bg_audio_read 5 0 (bg_reads env)) /\
    audio_pts (out (app (next r)))
    = audio_pts (out (app s)) + Z.of_nat n * aframe_size (out (app s)) /\
    target_audio g_cfg (out (app (next r))) <= audio_pts (out (app (next r))) /\
    (n <> 0%nat ->
     audio_pts (out (app (next r)))
     < target_audio g_cfg (out (app (next r))) + aframe_size (out (app s))).
Proof.
  intros Hrange Hmax4 Hmode.
  pose proof Hrange as (Hfps & Hsr & Hv & Hmax & Hin).
  pose proof (aframe_size_pos (out (app s))) as Hsz.
  destruct (tick_clock g_cfg uninit env s Hrange) as (r & Htick & _).
  destruct (tick_parts_bg g_cfg uninit env s r Htick)
    as (a & k & aframes & Hloop & Hfr & Hm & Ho & Hbq).
  set (b := before_audio g_cfg env s) in *.
  set (sz := aframe_size (out (app s))) in *.
  assert (Hb : audio_pts (out (app_now b)) = audio_pts (out (app s)) /\
               0 <= video_pts (out (app_now b))
               <= video_pts (out (app s)) + 1 /\
               filter is_audio (vframes b) = []).
  { destruct (before_audio_clock g_cfg env s) as [[Hvf Hob] | (pic & Hvf & Hob)];
      fold b in Hvf, Hob; rewrite Hvf, Hob.
    - repeat split; lia.
    - cbn. rewrite int64_in_range
        by (unfold in_int64, INT64_MIN, INT64_MAX in *; nia).
      repeat split; lia. }
  destruct Hb as (Hab & Hvb & Hvf).
  destruct (target_audio_value g_cfg (out (app_now b)) Hfps Hsr) as [_ Htb];
    [lia | nia |].
  assert (Hfit : target_audio g_cfg (out (app_now b)) + sz <= INT64_MAX + 1)
    by (fold sz in Hmax; nia).
  rewrite Hmode in Hloop.
  destruct (audio_loop_bg uninit sz (target_audio g_cfg (out (app_now b))) env
              Hsz Hmax4 Hfit
              (Z.to_nat (target_audio g_cfg (out (app_now b))
                         - audio_pts (out (app_now b))))
              (sections b) (app_now b))
    as (n & a' & Hloop' & Hq' & _ & _).
  { rewrite Hab. exact Hin. }
  { lia. }
  destruct (audio_loop_clock uninit AUDIO_BG sz
              (target_audio g_cfg (out (app_now b))) env Hsz Hfit
              (Z.to_nat (target_audio g_cfg (out (app_now b))
                         - audio_pts (out (app_now b))))
              (sections b) (app_now b))
    as (a2 & k2 & fs2 & Hloop2 & _ & _ & Hv2 & _ & Ha2 & Hover & Hcatch).
  { rewrite Hab. exact Hin. }
  { lia. }
  rewrite Hloop' in Hloop2. injection Hloop2 as <- _ <-.
  rewrite Hloop' in Hloop. injection Hloop as <- _ <-.
  rewrite length_map, padded_frames_length in Ha2.
  assert (Htarget : target_audio g_cfg (out (app (next r)))
                    = target_audio g_cfg (out (app_now b))).
  { unfold target_audio. rewrite Ho, Hv2. reflexivity. }
  pose proof (before_audio_bg g_cfg env s Hmode) as Hbgq. fold b in Hbgq.
  rewrite Hbgq in Hq'.
  exists r, n.
  split; [exact Htick |]. split; [congruence |].
  split.
  { rewrite Hfr, filter_app, Hvf, filter_audio_frames, Hbgq, Hab.
    reflexivity. }
  split; [rewrite Hbq; exact Hq' |].
  split; [rewrite Ho, Ha2, Hab; lia |].
  split; [rewrite Htarget, Ho; apply Hcatch; discriminate |].
  intros Hn. rewrite Htarget, Ho. apply Hover.
  destruct n; [contradiction | discriminate].
Qed.

(** The first tick of a run: the background queue is empty, so the frames
    are zeros throughout. *)
Lemma background_audio_padded_witness :
  (in_range default_config start /\
   aframe_size (out (app start)) * 4 <= INT_MAX /\
   mode_now (before_audio default_config bg_video_env start) = AUDIO_BG) /\
  exists r n,
    tick default_config junk bg_video_env start = Some r /\
    filter is_audio (frames r) = map Audio (padded_frames 1024 0 n []) /\
    audio_pts (out (app (next r))) = Z.of_nat n * 1024.
Proof.
  assert (H1 : in_range default_config start).
  { unfold in_range. repeat split; vm_compute; reflexivity || discriminate. }
  assert (H2 : aframe_size (out (app start)) * 4 <= INT_MAX)
    by (vm_compute; discriminate).
  assert (H3 : mode_now (before_audio default_config bg_video_env start)
               = AUDIO_BG) by (vm_compute; reflexivity).
  split; [split; [exact H1 | split; [exact H2 | exact H3]] |].
  destruct (background_audio_padded default_config junk bg_video_env start
              H1 H2 H3)
    as (r & n & Htick & _ & Hframes & _ & Hpts & _).
  exists r, n. split; [exact Htick |]. split; [exact Hframes | exact Hpts].
Defined.

(* ================================================================== *)
(** * The reader thread and the slot *)
(* ================================================================== *)

(** X15.  A picture flagged in the slot is the newest one stored, and it was
    stored in the current session.  When [has_video] is set after a sequence
    of reader operations, either the sequence contains a stored picture with
    only audio writes after it (no connect, no disconnect and no other
    picture) and the slot holds that picture; or the sequence is audio
    writes only and the flag and the picture are the ones it started with. *)
Theorem slot_picture_is_newest (ops : list ReaderOp) (sh : SrtShared) :
  has_video (reader_ops sh ops) = true ->
  (exists pre pic now post,
     ops = pre ++ RdVideo pic now :: post /\
     forallb is_audio_op post = true /\
     video_data (reader_ops sh ops) = pic) \/
  (forallb is_audio_op ops = true /\
   has_video sh = true /\
   video_data (reader_ops sh ops) = video_data sh).
Proof.
  induction ops as [| op ops IH] using rev_ind.
  - intros H. right. repeat split. exact H.
  - rewrite reader_ops_app. cbn [reader_ops fold_left].
    destruct op as [now | | pic now | converted now]; cbn [reader_op has_video];
      try discriminate.
    + intros _. left. exists ops, pic, now, []. repeat split.
    + intros H. cbn [video_data].
      destruct (IH H) as [(pre & pic & t & post & -> & Hpost & Hpic)
                         | (Hall & Hsh & Hpic)].
      * left. exists pre, pic, t, (post ++ [RdAudio converted now]).
        split; [rewrite <- app_assoc; reflexivity |].
        split; [rewrite forallb_app, Hpost; reflexivity | exact Hpic].
      * right. split; [rewrite forallb_app, Hall; reflexivity |].
        split; assumption.
Qed.

(** A slot that held a picture of an earlier session, after that session was
    dropped and a new one stored a picture and a sample. *)
Lemma slot_picture_is_newest_witness :
  has_video (reader_ops live_slot new_session) = true /\
  ((exists pre pic now post,
      new_session = pre ++ RdVideo pic now :: post /\
      forallb is_audio_op post = true /\
      video_data (reader_ops live_slot new_session) = pic) \/
   (forallb is_audio_op new_session = true /\
    has_video live_slot = true /\
    video_data (reader_ops live_slot new_session) = video_data live_slot)).
Proof.
  assert (H : has_video (reader_ops live_slot new_session) = true)
    by reflexivity.
  split; [exact H |].
  exact (slot_picture_is_newest new_session live_slot H).
Defined.

Lemma link_replay_app (up : bool) (e1 e2 : list Event) :
  link_replay up (e1 ++ e2)
  = match link_replay up e1 with
    | Some up' => link_replay up' e2
    | None => None
    end.
Proof.
  revert up. induction e1 as [| e e1 IH]; intros up; [reflexivity |].
  cbn [List.app link_replay].
  destruct (link_event up e); [apply IH | reflexivity].
Qed.

(** One iteration keeps the slot in step with the source. *)
Lemma srt_thread_iter_slot (g_cfg : Config) (src_open : bool) (inp : ReaderIn)
  (sh : SrtShared) :
  connected sh = src_open ->
  (has_video sh = true -> connected sh = true) ->
  let r := srt_thread_iter g_cfg src_open inp sh in
  connected (reader_ops sh (snd (fst r))) = fst (fst r) /\
  (has_video (reader_ops sh (snd (fst r))) = true ->
   connected (reader_ops sh (snd (fst r))) = true) /\
  link_replay src_open (snd r) = Some (fst (fst r)).
Proof.
  intros Hc Hv. unfold srt_thread_iter.
  destruct src_open.
  - destruct (ri_packet inp) as [| [pic |] t | [converted |] t |];
      cbn [packet_ops List.app];
      try destruct (int64 _ >? srt_timeout_us g_cfg);
      cbn; repeat split; auto.
  - destruct (ri_open inp) as [[|] | now].
    + cbn. repeat split; auto.
    + cbn. repeat split; auto.
    + destruct (ri_packet inp) as [| [pic |] t | [converted |] t |];
        cbn [packet_ops List.app];
        try destruct (int64 _ >? srt_timeout_us g_cfg);
        cbn; repeat split; auto; discriminate.
Qed.

(** X16.  The reader keeps the slot in step with its source, and its log
    tells the session apart.  From a state where [connected] says whether
    the source is open and [has_video] is set only when connected (the state
    the thread starts in), after any number of iterations both still hold;
    and in the events logged [srt_connected] comes only while the session is
    down, [srt_dropped] only while it is up, [srt_connect_failed] only while
    it is down, and following them from the start gives whether the source
    is open at the end. *)
Theorem reader_session_log (g_cfg : Config) (inps : list ReaderIn) :
  forall (src_open : bool) (sh : SrtShared),
    connected sh = src_open ->
    (has_video sh = true -> connected sh = true) ->
    link_replay src_open (snd (srt_thread_func g_cfg inps src_open sh))
    = Some (fst (fst (srt_thread_func g_cfg inps src_open sh))) /\
    connected (snd (fst (srt_thread_func g_cfg inps src_open sh)))
    = fst (fst (srt_thread_func g_cfg inps src_open sh)) /\
    (has_video (snd (fst (srt_thread_func g_cfg inps src_open sh))) = true ->
     connected (snd (fst (srt_thread_func g_cfg inps src_open sh))) = true).
Proof.
  induction inps as [| inp inps IH]; intros src_open sh Hc Hv.
  - cbn. repeat split; assumption.
  - cbn [srt_thread_func].
    destruct (srt_thread_iter_slot g_cfg src_open inp sh Hc Hv)
      as (Hc1 & Hv1 & Hlog1).
    destruct (srt_thread_iter g_cfg src_open inp sh) as [[o ops] ev].
    cbn [fst snd] in Hc1, Hv1, Hlog1.
    destruct (IH o (reader_ops sh ops) Hc1 Hv1) as (Hlog & Hc2 & Hv2).
    destruct (srt_thread_func g_cfg inps o (reader_ops sh ops))
      as [[o' sh'] ev'].
    cbn [fst snd] in *.
    split; [rewrite link_replay_app, Hlog1; exact Hlog |].
    split; assumption.
Qed.

(** From the start of the thread: an iteration that connects and stores a
    picture, then one in which [av_read_frame] fails. *)
Lemma reader_session_log_witness :
  (connected (shared (app start)) = false /\
   has_video (shared (app start)) = false) /\
  snd (srt_thread_func default_config [connects; read_fails] false
         (shared (app start)))
  = [srt_connected; srt_dropped read_error] /\
  link_replay false [srt_connected; srt_dropped read_error] = Some false /\
  connected
    (snd (fst (srt_thread_func default_config [connects; read_fails] false
                 (shared (app start))))) = false.
Proof.
  assert (H1 : connected (shared (app start)) = false) by reflexivity.
  assert (H2 : has_video (shared (app start)) = false) by reflexivity.
  split; [split; assumption |].
  split; [reflexivity |].
  assert (H3 : has_video (shared (app start)) = true ->
               connected (shared (app start)) = true)
    by (intros H; discriminate H).
  destruct (reader_session_log default_config [connects; read_fails] false
              (shared (app start)) H1 H3)
    as (Hlog & Hc & _).
  split; [exact Hlog | exact Hc].
Defined.

(** X17.  No decision of the reader depends on the slot's audio queue, the
    one field the main loop writes: on two slots that agree on the picture,
    [has_video], [last_frame_time] and [connected], an iteration gives the
    same result. *)
Theorem reader_ignores_audio_queue (g_cfg : Config) (src_open : bool)
  (inp : ReaderIn) (sh sh' : SrtShared) :
  reader_fields sh = reader_fields sh' ->
  srt_thread_iter g_cfg src_open inp sh = srt_thread_iter g_cfg src_open inp sh'.
Proof.
  intros H. unfold srt_thread_iter.
  assert (Ht : forall ops,
             last_frame_time (reader_ops sh ops)
             = last_frame_time (reader_ops sh' ops)).
  { intros ops. pose proof (reader_fields_ops ops sh sh' H) as Hf.
    unfold reader_fields in Hf. congruence. }
  destruct (if src_open then _ else _) as [[ops1 ev1] |]; [| reflexivity].
  destruct (ri_packet inp); try reflexivity; rewrite Ht; reflexivity.
Qed.

(** The liveness timeout on a slot before and after the main loop drained
    its audio queue. *)
Lemma reader_ignores_audio_queue_witness :
  reader_fields live_slot = reader_fields (set_audio_fifo live_slot []) /\
  srt_thread_iter default_config true goes_quiet live_slot
  = srt_thread_iter default_config true goes_quiet
      (set_audio_fifo live_slot []).
Proof.
  assert (H : reader_fields live_slot
              = reader_fields (set_audio_fifo live_slot [])) by reflexivity.
  split; [exact H |].
  exact (reader_ignores_audio_queue default_config true goes_quiet live_slot
           (set_audio_fifo live_slot []) H).
Defined.

(* ================================================================== *)
(** * Opening and closing a source *)
(* ================================================================== *)

Lemma find_stream_from_spec (streams : list AVMediaType) (type : AVMediaType) :
  forall i : Z,
    0 <= i -> i + Z.of_nat (length streams) <= INT_MAX ->
    let r := find_stream_from i streams type in
    (r = -1 /\ Forall (fun t => media_type_eqb t type = false) streams) \/
    (exists pre t post,
       streams = pre ++ t :: post /\ r = i + Z.of_nat (length pre) /\
       media_type_eqb t type = true /\
       Forall (fun t => media_type_eqb t type = false) pre).
Proof.
  induction streams as [| t rest IH]; intros i Hi Hmax; cbn [find_stream_from].
  - left. split; [reflexivity | constructor].
  - cbn [length] in Hmax.
    destruct (media_type_eqb t type) eqn:Ht.
    + right. exists [], t, rest. cbn.
      rewrite int32_in_range by (unfold in_int, INT_MIN, INT_MAX in *; lia).
      repeat split; [lia | exact Ht | constructor].
    + destruct (IH (i + 1) ltac:(lia) ltac:(lia))
        as [[Hr Hall] | (pre & u & post & -> & Hr & Hu & Hpre)].
      * left. split; [exact Hr | constructor; assumption].
      * right. exists (t :: pre), u, post. cbn [List.app length].
        repeat split; [lia | exact Hu | constructor; assumption].
Qed.

(** X18.  [find_stream] returns the index of the first stream of the type
    asked for, and -1 exactly when there is none (for a stream count that
    fits an [int]). *)
Theorem find_stream_first (streams : list AVMediaType) (type : AVMediaType) :
  Z.of_nat (length streams) <= INT_MAX ->
  (find_stream streams type = -1 /\
   Forall (fun t => media_type_eqb t type = false) streams) \/
  (exists pre t post,
     streams = pre ++ t :: post /\
     find_stream streams type = Z.of_nat (length pre) /\
     media_type_eqb t type = true /\
     Forall (fun t => media_type_eqb t type = false) pre).
Proof.
  intros Hmax.
  destruct (find_stream_from_spec streams type 0 ltac:(lia) ltac:(lia))
    as [H | (pre & t & post & H1 & H2 & H3 & H4)].
  - left. exact H.
  - right. exists pre, t, post. repeat split; assumption.
Qed.

(** An audio stream, then two video streams. *)
Lemma find_stream_first_witness :
  Z.of_nat
    (length [AVMEDIA_TYPE_AUDIO; AVMEDIA_TYPE_VIDEO; AVMEDIA_TYPE_VIDEO])
  <= INT_MAX /\
  find_stream [AVMEDIA_TYPE_AUDIO; AVMEDIA_TYPE_VIDEO; AVMEDIA_TYPE_VIDEO]
    AVMEDIA_TYPE_VIDEO = 1 /\
  ((find_stream [AVMEDIA_TYPE_AUDIO; AVMEDIA_TYPE_VIDEO; AVMEDIA_TYPE_VIDEO]
      AVMEDIA_TYPE_VIDEO = -1 /\
    Forall (fun t => media_type_eqb t AVMEDIA_TYPE_VIDEO = false)
      [AVMEDIA_TYPE_AUDIO; AVMEDIA_TYPE_VIDEO; AVMEDIA_TYPE_VIDEO]) \/
   (exists pre t post,
      [AVMEDIA_TYPE_AUDIO; AVMEDIA_TYPE_VIDEO; AVMEDIA_TYPE_VIDEO]
      = pre ++ t :: post /\
      find_stream [AVMEDIA_TYPE_AUDIO; AVMEDIA_TYPE_VIDEO; AVMEDIA_TYPE_VIDEO]
        AVMEDIA_TYPE_VIDEO = Z.of_nat (length pre) /\
      media_type_eqb t AVMEDIA_TYPE_VIDEO = true /\
      Forall (fun t => media_type_eqb t AVMEDIA_TYPE_VIDEO = false) pre)).
Proof.
  assert (H : Z.of_nat
                (length [AVMEDIA_TYPE_AUDIO; AVMEDIA_TYPE_VIDEO;
                         AVMEDIA_TYPE_VIDEO]) <= INT_MAX)
    by (vm_compute; discriminate).
  split; [exact H |]. split; [reflexivity |].
  exact (find_stream_first
           [AVMEDIA_TYPE_AUDIO; AVMEDIA_TYPE_VIDEO; AVMEDIA_TYPE_VIDEO]
           AVMEDIA_TYPE_VIDEO H).
Defined.

Lemma live_app (o : LibObject) (a b : list LibCall) :
  live o (a ++ b) = live o a + live o b.
Proof.
  induction a as [| [o' | o'] a IH]; cbn [List.app live]; lia.
Qed.

(** [close_source] frees what the source holds and leaves it closed. *)
Lemma close_source_frees (o : LibObject) (s : SourceCtx) :
  live o (snd (close_source s)) = - held o s /\
  closed (fst (close_source s)) = true.
Proof.
  split; [| reflexivity].
  unfold close_source, held, free_if. cbn [snd].
  destruct (sws_ctx s), (swr_ctx s), (video_dec_ctx s), (audio_dec_ctx s),
    (fmt_ctx s), o; reflexivity.
Qed.

Lemma closed_holds_nothing (o : LibObject) (s : SourceCtx) :
  closed s = true -> held o s = 0.
Proof.
  unfold closed, held.
  destruct (fmt_ctx s), (video_dec_ctx s), (audio_dec_ctx s), (sws_ctx s),
    (swr_ctx s); try discriminate; intros _; destruct o; reflexivity.
Qed.

(** Every object [open_srt_source] allocated and did not free is held by a
    pointer of the source. *)
Lemma open_srt_source_held (env : OpenEnv) (s : SourceCtx) :
  closed s = true ->
  forall o,
    live o (snd (open_srt_source env s))
    = held o (snd (fst (fst (open_srt_source env s)))).
Proof.
  intros Hclosed.
  destruct s as [f vi ai vd ad sw sr]. unfold closed in Hclosed.
  cbn in Hclosed.
  destruct f, vd, ad, sw, sr; try discriminate. clear Hclosed.
  intros o. unfold open_srt_source, open_decoder, make_resampler, close_source,
    free_if.
  cbn [set_stream_idx set_fmt_ctx set_video_dec_ctx set_audio_dec_ctx
       set_sws_ctx set_swr_ctx fmt_ctx video_stream_idx audio_stream_idx
       video_dec_ctx audio_dec_ctx sws_ctx swr_ctx].
  destruct (alloc_context env); cbn [negb]; [| destruct o; reflexivity].
  destruct (open_input env <? 0); [destruct o; reflexivity |].
  destruct (find_stream_info env <? 0); [destruct o; reflexivity |].
  destruct (find_stream (streams env) AVMEDIA_TYPE_VIDEO <? 0);
    [destruct o; reflexivity |].
  destruct (find_decoder (video_decoder env)); cbn [negb];
    [| destruct o; reflexivity].
  destruct (alloc_context3 (video_decoder env)); cbn [negb];
    [| destruct o; reflexivity].
  destruct (parameters_to_context (video_decoder env) <? 0) eqn:Hp.
  { rewrite Hp. destruct o; reflexivity. }
  destruct (open2 (video_decoder env) <? 0); [destruct o; reflexivity |].
  destruct (get_context env);
    (destruct (find_stream (streams env) AVMEDIA_TYPE_AUDIO >=? 0);
     [| destruct o; reflexivity]);
    (destruct (find_decoder (audio_decoder env)); cbn [negb];
     [| destruct o; reflexivity]);
    (destruct (alloc_context3 (audio_decoder env)); cbn [negb];
     [| destruct o; reflexivity]);
    (destruct (parameters_to_context (audio_decoder env) <? 0) eqn:Hq;
     [destruct (parameters_to_context (audio_decoder env) >=? 0);
      [| destruct o; reflexivity] |
      destruct (open2 (audio_decoder env) >=? 0);
      [| destruct o; reflexivity]]);
    (destruct (swr_alloc_set_opts env); cbn [negb];
     [| destruct o; reflexivity]);
    destruct (swr_init env <? 0); destruct o; reflexivity.
Qed.

(** What [open_srt_source] returns, by its outcome. *)
Lemma open_srt_source_outcome (env : OpenEnv) (s : SourceCtx) :
  closed s = true ->
  let ret := fst (fst (fst (open_srt_source env s))) in
  let s' := snd (fst (fst (open_srt_source env s))) in
  let evs := snd (fst (open_srt_source env s)) in
  (ret < 0 ->
   closed s' = true /\
   evs = if alloc_context env && (open_input env <? 0)
         then [srt_connect_failed] else []) /\
  (0 <= ret ->
   ret = 0 /\ fmt_ctx s' = true /\ video_dec_ctx s' = true /\
   0 <= video_stream_idx s' /\ evs = [srt_connected] /\
   (swr_ctx s' = true -> audio_dec_ctx s' = true)).
Proof.
  intros Hclosed. cbv zeta.
  destruct s as [f vi ai vd ad sw sr]. unfold closed in Hclosed.
  cbn in Hclosed.
  destruct f, vd, ad, sw, sr; try discriminate. clear Hclosed.
  unfold open_srt_source, open_decoder, make_resampler, close_source, free_if,
    AVERROR, ENOMEM.
  cbn [set_stream_idx set_fmt_ctx set_video_dec_ctx set_audio_dec_ctx
       set_sws_ctx set_swr_ctx fmt_ctx video_stream_idx audio_stream_idx
       video_dec_ctx audio_dec_ctx sws_ctx swr_ctx].
  destruct (alloc_context env); cbn [negb andb];
    [| cbn; split; [intros _; split; reflexivity | lia]].
  destruct (Z.ltb_spec (open_input env) 0);
    [cbn; split; [intros _; split; reflexivity | lia] |].
  destruct (Z.ltb_spec (find_stream_info env) 0);
    [cbn; split; [intros _; split; reflexivity | lia] |].
  destruct (Z.ltb_spec (find_stream (streams env) AVMEDIA_TYPE_VIDEO) 0);
    [cbn; split; [intros _; split; reflexivity | lia] |].
  destruct (find_decoder (video_decoder env)); cbn [negb];
    [| cbn; split; [intros _; split; reflexivity | lia]].
  destruct (alloc_context3 (video_decoder env)); cbn [negb];
    [| cbn; split; [intros _; split; reflexivity | lia]].
  destruct (Z.ltb_spec (parameters_to_context (video_decoder env)) 0)
    as [Hp | Hp].
  { destruct (Z.ltb_spec (parameters_to_context (video_decoder env)) 0);
      [| lia].
    cbn; split; [intros _; split; reflexivity | lia]. }
  destruct (Z.ltb_spec (open2 (video_decoder env)) 0);
    [cbn; split; [intros _; split; reflexivity | lia] |].
  assert (Hdone : forall (s1 : SourceCtx) (c1 : list LibCall),
             fmt_ctx s1 = true -> video_dec_ctx s1 = true ->
             0 <= video_stream_idx s1 ->
             (swr_ctx s1 = true -> audio_dec_ctx s1 = true) ->
             let r := (0, s1, [srt_connected], c1) in
             (fst (fst (fst r)) < 0 ->
              closed (snd (fst (fst r))) = true /\
              snd (fst r) = []) /\
             (0 <= fst (fst (fst r)) ->
              fst (fst (fst r)) = 0 /\
              fmt_ctx (snd (fst (fst r))) = true /\
              video_dec_ctx (snd (fst (fst r))) = true /\
              0 <= video_stream_idx (snd (fst (fst r))) /\
              snd (fst r) = [srt_connected] /\
              (swr_ctx (snd (fst (fst r))) = true ->
               audio_dec_ctx (snd (fst (fst r))) = true))).
  { intros s1 c1 Hfmt Hdec Hidx Hswr. cbn. split; [lia |]. intros _.
    repeat split; assumption. }
  destruct (find_stream (streams env) AVMEDIA_TYPE_AUDIO >=? 0);
    [| apply Hdone; cbn; try reflexivity; try lia; discriminate].
  destruct (find_decoder (audio_decoder env)); cbn [negb].
  2:{ destruct (-1 >=? 0) eqn:Hneg; [discriminate Hneg |].
      apply Hdone; cbn; try reflexivity; try lia; discriminate. }
  destruct (alloc_context3 (audio_decoder env)); cbn [negb].
  2:{ destruct (- (12) >=? 0) eqn:Hneg; [discriminate Hneg |].
      apply Hdone; cbn; try reflexivity; try lia; discriminate. }
  destruct (parameters_to_context (audio_decoder env) <? 0).
  - destruct (parameters_to_context (audio_decoder env) >=? 0).
    + destruct (swr_alloc_set_opts env); cbn [negb];
        [destruct (swr_init env <? 0) |];
        apply Hdone; cbn; try reflexivity; try lia; try discriminate.
    + apply Hdone; cbn; try reflexivity; try lia; discriminate.
  - destruct (open2 (audio_decoder env) >=? 0).
    + destruct (swr_alloc_set_opts env); cbn [negb];
        [destruct (swr_init env <? 0) |];
        apply Hdone; cbn; try reflexivity; try lia; try discriminate.
    + apply Hdone; cbn; try reflexivity; try lia; discriminate.
Qed.

(** X19.  [open_srt_source] on a closed source, whatever the library
    answers.  The objects it allocated and did not free are exactly those
    the pointers of the source hold, so a later [close_source] leaves
    nothing allocated.  When it fails it leaves the source closed, with
    nothing allocated, and it logs [srt_connect_failed] only when it was
    [avformat_open_input] that failed: a session without a video stream, or
    whose video decoder does not open, is retried without a word in the log.
    When it succeeds it returns 0 with the format context and the video
    decoder set, and a resampler only with an audio decoder, and it logs
    [srt_connected]. *)
Theorem open_srt_source_accounts (env : OpenEnv) (s : SourceCtx) :
  closed s = true ->
  let ret := fst (fst (fst (open_srt_source env s))) in
  let s' := snd (fst (fst (open_srt_source env s))) in
  let evs := snd (fst (open_srt_source env s)) in
  let calls := snd (open_srt_source env s) in
  (forall o, live o calls = held o s') /\
  (forall o, live o (calls ++ snd (close_source s')) = 0) /\
  (ret < 0 ->
   closed s' = true /\
   (forall o, live o calls = 0) /\
   evs = if alloc_context env && (open_input env <? 0)
         then [srt_connect_failed] else []) /\
  (0 <= ret ->
   ret = 0 /\ fmt_ctx s' = true /\ video_dec_ctx s' = true /\
   0 <= video_stream_idx s' /\ evs = [srt_connected] /\
   (swr_ctx s' = true -> audio_dec_ctx s' = true)).
Proof.
  intros Hclosed. cbv zeta.
  pose proof (open_srt_source_held env s Hclosed) as Hheld.
  destruct (open_srt_source_outcome env s Hclosed) as [Hfail Hok].
  split; [exact Hheld |].
  split.
  { intros o. rewrite live_app, Hheld.
    rewrite (proj1 (close_source_frees o _)). lia. }
  split; [| exact Hok].
  intros Hret. destruct (Hfail Hret) as [Hc Hev].
  split; [exact Hc |]. split; [| exact Hev].
  intros o. rewrite Hheld. apply closed_holds_nothing. exact Hc.
Qed.

(** A session that carries only an audio stream: the open fails after the
    format context was allocated and opened, everything is freed again, and
    nothing is logged. *)
Lemma open_srt_source_accounts_witness :
  closed closed_source = true /\
  fst (fst (fst (open_srt_source audio_only_session closed_source))) = -1 /\
  snd (open_srt_source audio_only_session closed_source)
  = [Alloc FormatContext; Alloc Dictionary; Free Dictionary;
     Free FormatContext] /\
  closed (snd (fst (fst (open_srt_source audio_only_session closed_source))))
  = true /\
  (forall o, live o (snd (open_srt_source audio_only_session closed_source))
             = 0) /\
  snd (fst (open_srt_source audio_only_session closed_source)) = [].
Proof.
  assert (H : closed closed_source = true) by reflexivity.
  split; [exact H |]. split; [reflexivity |]. split; [reflexivity |].
  destruct (open_srt_source_accounts audio_only_session closed_source H)
    as (_ & _ & Hfail & _).
  exact (Hfail eq_refl).
Defined.

(* ================================================================== *)
(** * A tick without a picture *)
(* ================================================================== *)

(** A loop whose clock has caught up encodes nothing. *)
Lemma audio_loop_done (uninit : nat -> fsample) (fuel : nat)
  (mode : AudioMode) (sz target : Z) (env : TickEnv) (k : nat) (a : AppState) :
  target <= audio_pts (out a) ->
  audio_loop uninit fuel mode sz target env k a = Some (a, k, []).
Proof.
  intros Hdone.
  destruct fuel; cbn [audio_loop];
    destruct (Z.ltb_spec (audio_pts (out a)) target); try lia; reflexivity.
Qed.

(** X22.  A tick that has no picture to encode emits nothing.  In a tick in
    range where the slot gives no picture (the reader is not connected or
    has stored none) and none of the five background packets gives a video
    frame, with the audio clock at its target or past it when the tick
    starts, neither a video frame nor an audio frame is encoded and both
    clocks stay where they were: the output stalls as a whole and does not
    drift. *)
Theorem tick_without_picture_is_empty (g_cfg : Config)
  (uninit : nat -> fsample) (env : TickEnv) (s : LoopState) :
  in_range g_cfg s ->
  connected (slot_at_sample env s) && has_video (slot_at_sample env s) = false ->
  first_bg_video 5 0 (bg_reads env) = None ->
  target_audio g_cfg (out (app s)) <= audio_pts (out (app s)) ->
  exists r,
    tick g_cfg uninit env s = Some r /\
    frames r = [] /\
    out (app (next r)) = out (app s).
Proof.
  intros Hrange Hslot Hbg Hdone.
  destruct (tick_clock g_cfg uninit env s Hrange) as (r & Htick & _).
  destruct (tick_parts g_cfg uninit env s r Htick)
    as (a & k & aframes & Hloop & Hfr & _ & _ & Ho & _).
  assert (Hvf : vframes (before_audio g_cfg env s) = []).
  { rewrite before_audio_vframes, before_audio_use, Hslot, Hbg. reflexivity. }
  assert (Hob : out (app_now (before_audio g_cfg env s)) = out (app s)).
  { destruct (before_audio_clock g_cfg env s) as [[_ Hob] | (pic & Hpic & _)];
      [exact Hob | rewrite Hvf in Hpic; discriminate]. }
  rewrite audio_loop_done in Hloop by (rewrite Hob; exact Hdone).
  injection Hloop as <- _ <-.
  exists r. split; [exact Htick |].
  split; [rewrite Hfr, Hvf; reflexivity | rewrite Ho; exact Hob].
Qed.

(** After a first tick that encoded a background frame and brought the audio
    clock past its target, a tick in which the five background packets are
    all audio. *)
Lemma tick_without_picture_is_empty_witness :
  exists r1 r2,
    tick default_config junk bg_video_env start = Some r1 /\
    tick default_config junk bg_audio_env (next r1) = Some r2 /\
    frames r2 = [] /\
    out (app (next r2)) = out (app (next r1)).
Proof.
  destruct (tick default_config junk bg_video_env start) as [r1 |] eqn:H1;
    [| vm_compute in H1; discriminate].
  assert (Hst : (out (app (next r1)),
                 connected (shared (app (next r1))),
                 has_video (shared (app (next r1))))
                = ({| frame_size := 1024; video_pts := 1; audio_pts := 2048 |},
                   false, false)).
  { vm_compute in H1. injection H1 as <-. reflexivity. }
  injection Hst as Hout Hconn Hvideo.
  assert (Hrange : in_range default_config (next r1)).
  { unfold in_range. rewrite Hout.
    repeat split; vm_compute; reflexivity || discriminate. }
  assert (Hslot : connected (slot_at_sample bg_audio_env (next r1))
                  && has_video (slot_at_sample bg_audio_env (next r1)) = false).
  { unfold slot_at_sample. cbn [reader bg_audio_env no_reader reader_ops
      fold_left]. rewrite Hconn. reflexivity. }
  assert (Hbg : first_bg_video 5 0 (bg_reads bg_audio_env) = None)
    by reflexivity.
  assert (Hdone : target_audio default_config (out (app (next r1)))
                  <= audio_pts (out (app (next r1)))).
  { rewrite Hout. vm_compute. discriminate. }
  destruct (tick_without_picture_is_empty default_config junk bg_audio_env
              (next r1) Hrange Hslot Hbg Hdone)
    as (r2 & Htick & Hfr & Ho).
  exists r1, r2. split; [reflexivity |].
  split; [exact Htick |]. split; [exact Hfr | exact Ho].
Defined.

(* ================================================================== *)
(** * The configuration file and the positional URL *)
(* ================================================================== *)








(* ================================================================== *)
(** * Audio of a tick in GRACE *)
(* ================================================================== *)

Lemma padded_frames_empty (sz pts : Z) (m : nat) :
  padded_frames sz pts 1 [] ++ padded_frames sz (pts + sz) m []
  = padded_frames sz pts (S m) [].
Proof. cbn. rewrite skipn_nil. reflexivity. Qed.

Section GraceFacts.

Variable g_cfg : Config.
Variable uninit : nat -> fsample.

(** In GRACE the loop encodes frames until the clock has caught up: the
    first from the local queue, completed with zeros, the others zeros
    throughout, since every pass empties the local queue and the slot's
    queue; it leaves the background queue alone. *)
Lemma audio_loop_grace_frames (sz target : Z) (env : TickEnv) :
  0 < sz -> sz * 4 <= INT_MAX -> target + sz <= INT64_MAX + 1 ->
  forall (fuel k : nat) (a : AppState),
    in_int64 (audio_pts (out a)) ->
    (Z.to_nat (target - audio_pts (out a)) <= fuel)%nat ->
    exists (n : nat) (a' : AppState) (k' : nat),
      audio_loop uninit fuel AUDIO_GRACE sz target env k a
      = Some (a', k',
              map Audio (grace_frames sz (audio_pts (out a)) n
                           (srt_local_fifo a))) /\
      (n <> 0%nat ->
       srt_local_fifo a' = [] /\ audio_fifo (shared a') = []).
Proof.
  intros Hsz Hmax Htarget.
  induction fuel as [| fuel IH]; intros k a Hin Hfuel; cbn [audio_loop].
  - destruct (Z.ltb_spec (audio_pts (out a)) target) as [Hlt | Hge]; [lia |].
    exists 0%nat, a, k. split; [reflexivity | intros H; contradiction].
  - destruct (Z.ltb_spec (audio_pts (out a)) target) as [Hlt | Hge].
    + unfold audio_body. rewrite encode_padded_frame by assumption.
      set (a1 := set_shared _ _).
      assert (Hadd : audio_pts (out a1) = audio_pts (out a) + sz).
      { cbn. apply int64_in_range.
        unfold in_int64, INT64_MIN, INT64_MAX in *. lia. }
      assert (Hq1 : srt_local_fifo a1 = []) by reflexivity.
      assert (Hs1 : audio_fifo (shared a1) = []) by reflexivity.
      destruct (IH (S k) a1) as (n & a' & k' & Hloop & Hempty).
      { rewrite Hadd. unfold in_int64, INT64_MIN, INT64_MAX in *. lia. }
      { rewrite Hadd. lia. }
      rewrite Hloop. exists (S n), a', k'.
      rewrite Hq1, Hadd.
      split.
      * cbn [grace_frames]. rewrite map_app. cbn [padded_frames map List.app].
        destruct n as [| m]; [reflexivity |].
        cbn [grace_frames]. rewrite padded_frames_empty. reflexivity.
      * intros _. destruct n as [| m].
        -- cbn in Hloop.
           destruct (audio_loop_no_frame _ _ _ _ _ _ _ _ _ _ Hloop) as [-> _].
           split; assumption.
        -- apply Hempty. discriminate.
    + exists 0%nat, a, k. split; [reflexivity | intros H; contradiction].
Qed.

(** A tick that is not in SRT leaves the local queue to the audio loop as it
    found it. *)
Lemma before_audio_local (env : TickEnv) (s : LoopState) :
  mode_now (before_audio g_cfg env s) <> AUDIO_SRT ->
  srt_local_fifo (app_now (before_audio g_cfg env s))
  = srt_local_fifo (app s).
Proof.
  rewrite before_audio_fields. cbn [mode_now app_now]. intros Hmode.
  destruct (decode_background_keeps 5 0 (bg_reads env) false (app s))
    as (_ & _ & Hq & _).
  set (a1 := snd (decode_background 5 0 (bg_reads env) false (app s))) in *.
  destruct (check_srt_shared_keeps
              (set_shared a1 (reader_ops (shared a1) (reader env 0))))
    as (_ & _ & Hq2 & _).
  set (c := check_srt_shared _) in *.
  match goal with
  | |- context [video_output ?u ?h ?x] =>
      destruct (video_output_cases u h x) as (Hq3 & _)
  end.
  destruct (fst (fst (fst _))); [contradiction | |];
    rewrite Hq3; cbn; rewrite Hq2; cbn; exact Hq.
Qed.

(** What a finished tick is made of, with the queues of inbound audio: the
    stats section takes the lock after the reader operations that ran
    before it. *)
Lemma tick_parts_slot (env : TickEnv) (s : LoopState) (r : TickResult) :
  tick g_cfg uninit env s = Some r ->
  exists a k aframes,
    audio_loop uninit
      (Z.to_nat (target_audio g_cfg (out (app_now (before_audio g_cfg env s)))
                 - audio_pts (out (app_now (before_audio g_cfg env s)))))
      (mode_now (before_audio g_cfg env s)) (aframe_size (out (app s)))
      (target_audio g_cfg (out (app_now (before_audio g_cfg env s)))) env
      (sections (before_audio g_cfg env s))
      (app_now (before_audio g_cfg env s)) = Some (a, k, aframes) /\
    frames r = vframes (before_audio g_cfg env s) ++ aframes /\
    audio_mode (next r) = mode_now (before_audio g_cfg env s) /\
    out (app (next r)) = out a /\
    srt_local_fifo (app (next r)) = srt_local_fifo a /\
    (shared (app (next r)) = shared a \/
     shared (app (next r)) = reader_ops (shared a) (reader env k)).
Proof.
  unfold tick.
  destruct (audio_loop _ _ _ _ _ _ _ _) as [[[a k] aframes] |] eqn:Hloop;
    [| discriminate].
  unfold stats_block.
  destruct (int64 (stats_ticker s + 1) >=? out_fps g_cfg);
    intros H; injection H as <-; exists a, k, aframes; cbn;
    repeat split; try reflexivity; [right | left]; reflexivity.
Qed.

End GraceFacts.

(** X20.  Audio of a tick in GRACE.  A tick in range whose audio mode is
    GRACE ends; its audio frames are as many as it takes for the audio clock
    to reach its target; the first is cut from the local queue as the tick
    found it, so it carries what was left of the inbound audio, completed
    with zeros, and every later frame is zeros throughout.  After a tick
    that encoded an audio frame the local queue is empty, and the slot's
    audio queue holds nothing but what the reader wrote after the tick's
    last frame: it is empty, or it is what the operations the reader ran
    before the stats section left in an empty queue. *)
Theorem grace_tick_audio (g_cfg : Config) (uninit : nat -> fsample)
  (env : TickEnv) (s : LoopState) :
  in_range g_cfg s ->
  aframe_size (out (app s)) * 4 <= INT_MAX ->
  mode_now (before_audio g_cfg env s) = AUDIO_GRACE ->
  exists (r : TickResult) (n : nat),
    tick g_cfg uninit env s = Some r /\
    audio_mode (next r) = AUDIO_GRACE /\
    filter is_audio (frames r)
    = map Audio
        (grace_frames (aframe_size (out (app s))) (audio_pts (out (app s))) n
           (srt_local_fifo (app s))) /\
    audio_pts (out (app (next r)))
    = audio_pts (out (app s)) + Z.of_nat n * aframe_size (out (app s)) /\
    target_audio g_cfg (out (app (next r))) <= audio_pts (out (app (next r))) /\
    (n <> 0%nat ->
     audio_pts (out (app (next r)))
     < target_audio g_cfg (out (app (next r))) + aframe_size (out (app s)) /\
     srt_local_fifo (app (next r)) = [] /\
     (audio_fifo (shared (app (next r))) = [] \/
      exists sh k,
        audio_fifo sh = [] /\
        shared (app (next r)) = reader_ops sh (reader env k)) /\
     ((forall j, reader env j = []) ->
      audio_fifo (shared (app (next r))) = [])).
Proof.
  intros Hrange Hmax4 Hmode.
  pose proof Hrange as (Hfps & Hsr & Hv & Hmax & Hin).
  pose proof (aframe_size_pos (out (app s))) as Hsz.
  destruct (tick_clock g_cfg uninit env s Hrange) as (r & Htick & _).
  destruct (tick_parts_slot g_cfg uninit env s r Htick)
    as (a & k & aframes & Hloop & Hfr & Hm & Ho & Hlq & Hsh).
  pose proof (before_audio_local g_cfg env s ltac:(rewrite Hmode; discriminate))
    as Hlocal.
  set (b := before_audio g_cfg env s) in *.
  set (sz := aframe_size (out (app s))) in *.
  assert (Hb : audio_pts (out (app_now b)) = audio_pts (out (app s)) /\
               0 <= video_pts (out (app_now b))
               <= video_pts (out (app s)) + 1 /\
               filter is_audio (vframes b) = []).
  { destruct (before_audio_clock g_cfg env s) as [[Hvf Hob] | (pic & Hvf & Hob)];
      fold b in Hvf, Hob; rewrite Hvf, Hob.
    - repeat split; lia.
    - cbn. rewrite int64_in_range
        by (unfold in_int64, INT64_MIN, INT64_MAX in *; nia).
      repeat split; lia. }
  destruct Hb as (Hab & Hvb & Hvf).
  destruct (target_audio_value g_cfg (out (app_now b)) Hfps Hsr) as [_ Htb];
    [lia | nia |].
  assert (Hfit : target_audio g_cfg (out (app_now b)) + sz <= INT64_MAX + 1)
    by (fold sz in Hmax; nia).
  rewrite Hmode in Hloop.
  destruct (audio_loop_grace_frames uninit sz
              (target_audio g_cfg (out (app_now b))) env Hsz Hmax4 Hfit
              (Z.to_nat (target_audio g_cfg (out (app_now b))
                         - audio_pts (out (app_now b))))
              (sections b) (app_now b))
    as (n & a' & k' & Hloop' & Hempty).
  { rewrite Hab. exact Hin. }
  { lia. }
  destruct (audio_loop_clock uninit AUDIO_GRACE sz
              (target_audio g_cfg (out (app_now b))) env Hsz Hfit
              (Z.to_nat (target_audio g_cfg (out (app_now b))
                         - audio_pts (out (app_now b))))
              (sections b) (app_now b))
    as (a2 & k2 & fs2 & Hloop2 & _ & _ & Hv2 & _ & Ha2 & Hover & Hcatch).
  { rewrite Hab. exact Hin. }
  { lia. }
  rewrite Hloop' in Hloop2. injection Hloop2 as <- <- <-.
  rewrite Hloop' in Hloop. injection Hloop as <- <- <-.
  assert (Hlen : length
                   (map Audio
                      (grace_frames sz (audio_pts (out (app_now b))) n
                         (srt_local_fifo (app_now b)))) = n).
  { rewrite length_map. destruct n as [| m]; [reflexivity |].
    cbn [grace_frames]. rewrite length_app, !padded_frames_length.
    reflexivity. }
  rewrite Hlen in Ha2.
  assert (Htarget : target_audio g_cfg (out (app (next r)))
                    = target_audio g_cfg (out (app_now b))).
  { unfold target_audio. rewrite Ho, Hv2. reflexivity. }
  exists r, n.
  split; [exact Htick |]. split; [congruence |].
  split.
  { rewrite Hfr, filter_app, Hvf, filter_audio_frames, Hlocal, Hab.
    reflexivity. }
  split; [rewrite Ho, Ha2, Hab; lia |].
  split; [rewrite Htarget, Ho; apply Hcatch; discriminate |].
  intros Hn. destruct (Hempty Hn) as [Hq Hs].
  split.
  { rewrite Htarget, Ho. apply Hover.
    destruct n; [contradiction | cbn [grace_frames padded_frames List.app map];
                                 discriminate]. }
  split; [rewrite Hlq; exact Hq |].
  split.
  - destruct Hsh as [-> | ->]; [left; exact Hs |].
    right. exists (shared a'), k'. split; [exact Hs | reflexivity].
  - intros Hidle. destruct Hsh as [-> | ->]; [exact Hs |].
    rewrite Hidle. exact Hs.
Qed.

(** A tick in GRACE that starts with three stale samples in the local queue
    and encodes a background frame. *)
Lemma grace_tick_audio_witness :
  (in_range default_config in_grace /\
   aframe_size (out (app in_grace)) * 4 <= INT_MAX /\
   mode_now (before_audio default_config grace_env in_grace) = AUDIO_GRACE) /\
  exists r n,
    tick default_config junk grace_env in_grace = Some r /\
    filter is_audio (frames r)
    = map Audio
        (grace_frames 4 0 n [(one_f, one_f); (one_f, one_f); (one_f, one_f)]) /\
    audio_pts (out (app (next r))) = Z.of_nat n * 4.
Proof.
  assert (H1 : in_range default_config in_grace).
  { unfold in_range. repeat split; vm_compute; reflexivity || discriminate. }
  assert (H2 : aframe_size (out (app in_grace)) * 4 <= INT_MAX)
    by (vm_compute; discriminate).
  assert (H3 : mode_now (before_audio default_config grace_env in_grace)
               = AUDIO_GRACE) by (vm_compute; reflexivity).
  split; [split; [exact H1 | split; [exact H2 | exact H3]] |].
  destruct (grace_tick_audio default_config junk grace_env in_grace H1 H2 H3)
    as (r & n & Htick & _ & Hframes & Hpts & _).
  exists r, n. split; [exact Htick |]. split; [exact Hframes | exact Hpts].
Defined.
